(** * PO-Assistant: story extraction, chat turns and the story table

    A shallow embedding of the parts of the front end that carry the
    behaviour the specification talks about:

    - the regular expressions of [handleSend] (Chat component) that turn
      generated text into story candidates, run by a backtracking matcher
      that follows the ECMAScript semantics of the constructs they use;
    - the event handlers [handleSend], [handleFileUpload], the two dropzone
      [onDrop] handlers, and [handlePublish], [handleEdit], [handleSaveEdit]
      of the Stories component, written in a small command monad whose
      commands are the calls the handlers make to the outside world
      (clock, random numbers, HTTP, alert, console);
    - the Story Lifecycle Store of the back end, which is not part of the
      inspected sources and is modelled from the specification. *)

From Stdlib Require Import List NArith Bool Arith Lia String Ascii.
From Stdlib Require Import DecimalString.
From stdpp Require Import gmap.
Import ListNotations.

Set Implicit Arguments.
Unset Strict Implicit.

(* ================================================================== *)
(** * Part I: definitions                                              *)
(* ================================================================== *)

(** ** JavaScript strings

    A JavaScript string is a sequence of UTF-16 code units.  The regular
    expressions below tell line terminators (U+000A, U+000D, U+2028,
    U+2029) from other code units, so the code units are kept as numbers. *)

Module JS.

Definition char16 := N.
Definition jsstring := list char16.

(** The code units of an ASCII literal of the source. *)
Definition lit (s : string) : jsstring :=
  List.map N_of_ascii (list_ascii_of_string s).

Definition LF : char16 := 10%N.
Definition CR : char16 := 13%N.

(** ECMAScript [LineTerminator]: LF, CR, LS, PS. *)
Definition isLineTerminator (c : char16) : bool :=
  (c =? 10)%N || (c =? 13)%N || (c =? 8232)%N || (c =? 8233)%N.

(** ECMAScript [WhiteSpace]: TAB, VT, FF, SP, NBSP, ZWNBSP and the
    Unicode space separators. *)
Definition isWhiteSpace (c : char16) : bool :=
  (c =? 9)%N || (c =? 11)%N || (c =? 12)%N || (c =? 32)%N || (c =? 160)%N
  || (c =? 65279)%N || (c =? 5760)%N
  || ((8192 <=? c)%N && (c <=? 8202)%N)
  || (c =? 8239)%N || (c =? 8287)%N || (c =? 12288)%N.

Fixpoint trimStart (s : jsstring) : jsstring :=
  match s with
  | c :: s' => if isWhiteSpace c || isLineTerminator c then trimStart s' else s
  | [] => []
  end.

(** [String.prototype.trim]: white space and line terminators are removed
    from both ends. *)
Definition trim (s : jsstring) : jsstring :=
  rev (trimStart (rev (trimStart s))).

(** [!s] for a string: only the empty string is falsy. *)
Definition falsy (s : jsstring) : bool :=
  match s with [] => true | _ => false end.

(** [!x] for [x : string | null]. *)
Definition falsyOpt (x : option jsstring) : bool :=
  match x with None => true | Some s => falsy s end.

Fixpoint eqb (a b : jsstring) : bool :=
  match a, b with
  | [], [] => true
  | x :: a', y :: b' => (x =? y)%N && eqb a' b'
  | _, _ => false
  end.

(** [s.startsWith(p)] *)
Fixpoint startsWith (p s : jsstring) : bool :=
  match p, s with
  | [], _ => true
  | x :: p', y :: s' => (x =? y)%N && startsWith p' s'
  | _ :: _, [] => false
  end.

(** [Number.prototype.toString] on a non-negative integer (the value of
    [Date.now()]): its decimal digits. *)
Definition toStringN (n : N) : jsstring :=
  lit (NilZero.string_of_uint (N.to_uint n)).

Arguments lit : simpl never.
Arguments toStringN : simpl never.

End JS.

Import JS.

(** ** Regular expressions

    The fragment of ECMAScript patterns used by the Chat component:
    literal characters, [.], [$] (without the [m] flag), sequencing,
    alternation, the lazy star and capturing groups.  A non-capturing
    group [(?:r)] is [r] itself in the syntax tree. *)

Module Regex.

Inductive regex : Type :=
| Empty
| Char (c : char16)
| Dot
| Eoi
| Seq (r1 r2 : regex)
| Alt (r1 r2 : regex)
| LazyStar (r : regex)
| Group (n : nat) (r : regex).

(** The literal text [s] as a pattern. *)
Fixpoint text (s : jsstring) : regex :=
  match s with
  | [] => Empty
  | c :: s' => Seq (Char c) (text s')
  end.

(** Captures: the text of each group that took part in the match, most
    recent first. *)
Definition captures := list (nat * jsstring).

Fixpoint capture (n : nat) (c : captures) : option jsstring :=
  match c with
  | [] => None
  | (k, v) :: c' => if Nat.eqb k n then Some v else capture n c'
  end.

(** The backtracking matcher, in continuation-passing style as in the
    ECMAScript specification.  [s] is the input from the current position
    to its end, [k] is what remains to be matched.  A lazy star first tries
    the continuation and only then one more iteration; an iteration that
    consumes nothing is rejected, so [length s] iterations are all there
    can be. *)
Fixpoint m (R : Type) (r : regex) (s : jsstring) (c : captures)
    (k : jsstring -> captures -> option R) {struct r} : option R :=
  match r with
  | Empty => k s c
  | Char a =>
      match s with
      | x :: s' => if (x =? a)%N then k s' c else None
      | [] => None
      end
  | Dot =>
      match s with
      | x :: s' => if isLineTerminator x then None else k s' c
      | [] => None
      end
  | Eoi =>
      match s with
      | [] => k s c
      | _ :: _ => None
      end
  | Seq r1 r2 => m r1 s c (fun s' c' => m r2 s' c' k)
  | Alt r1 r2 =>
      match m r1 s c k with
      | Some x => Some x
      | None => m r2 s c k
      end
  | LazyStar r' =>
      (fix loop (fuel : nat) (s : jsstring) (c : captures) {struct fuel}
         : option R :=
         match k s c with
         | Some x => Some x
         | None =>
             match fuel with
             | O => None
             | S fuel' =>
                 m r' s c (fun s' c' =>
                   if (length s' <? length s)%nat
                   then loop fuel' s' c' else None)
             end
         end) (length s) s c
  | Group n r' =>
      m r' s c (fun s' c' =>
        k s' ((n, firstn (length s - length s') s) :: c'))
  end.

(** The outcome of a successful match: the matched text, the captures and
    the input that follows the match. *)
Record result := Result {
  matched : jsstring;
  groups : captures;
  rest : jsstring }.

(** One attempt at the current position. *)
Definition matchAt (r : regex) (s : jsstring) : option result :=
  m r s [] (fun s' c =>
    Some (Result (firstn (length s - length s') s) c s')).

(** [RegExp.prototype.exec] from a position on: the first position at
    which an attempt succeeds. *)
Fixpoint exec (r : regex) (s : jsstring) : option result :=
  match matchAt r s with
  | Some x => Some x
  | None =>
      match s with
      | [] => None
      | _ :: s' => exec r s'
      end
  end.

(** [String.prototype.match] with a pattern that has the [g] flag: the
    texts of all the matches, each search starting where the last match
    ended (one further after an empty match); [null] when there is none. *)
Fixpoint matchesFrom (fuel : nat) (r : regex) (s : jsstring)
  : list jsstring :=
  match fuel with
  | O => []
  | S fuel' =>
      match exec r s with
      | None => []
      | Some x =>
          matched x ::
          match matched x, rest x with
          | [], [] => []
          | [], _ :: s' => matchesFrom fuel' r s'
          | _ :: _, s' => matchesFrom fuel' r s'
          end
      end
  end.

Definition matchGlobal (r : regex) (s : jsstring) : option (list jsstring) :=
  match matchesFrom (S (length s)) r s with
  | [] => None
  | l => Some l
  end.

End Regex.

Import Regex.

(** ** The outside world of the event handlers

    The handlers read the clock and the random number generator, talk to
    the back end over HTTP, and report through [alert] and
    [console.error].  Each such call is a command; a handler is a finite
    tree of commands whose branches are the possible answers. *)

Module Effects.

(** The story objects built by [handleSend]. *)
Record GeneratedStory := {
  id : jsstring;
  title : jsstring;
  description : jsstring;
  published : bool }.

(** A [File] of the browser, as far as the handlers look at it;
    [file_text] is what [file.text()] resolves to, and [None] when that
    promise rejects (the file cannot be read). *)
Record File := {
  file_name : jsstring;
  file_type : jsstring;
  file_text : option jsstring }.

(** Request bodies. *)
Inductive Body : Type :=
| NoBody
| ChatBody (message project_key : jsstring)
| StoryBody (project_key : jsstring) (story : GeneratedStory)
| FormData (file : File) (project_key : jsstring)
| UpdatesBody (title description : jsstring).

(** [response.data] is untyped in the source; these are the fields the
    handlers read, each of which may be absent. *)
Record Data := {
  response : option jsstring;
  image_path : option jsstring;
  data_description : option jsstring;
  jira_key : option jsstring }.

(** The promise returned by an [api] call either rejects or resolves.
    [response.data] of a resolved reply is [null] ([None]), where reading
    a field throws a [TypeError], or an object. *)
Inductive Reply : Type :=
| Rejected
| Resolved (data : option Data).

Inductive Cmd : Type -> Type :=
| DateNow : Cmd N                        (* Date.now(), new Date() *)
| MathRandom : Cmd jsstring              (* Math.random(), as it prints *)
| ApiPost (url : jsstring) (body : Body) : Cmd Reply
| ApiPut (url : jsstring) (body : Body) : Cmd Reply
| ConsoleError (msg : jsstring) : Cmd unit
| Alert (msg : jsstring) : Cmd unit
| CreateObjectURL (file : File) : Cmd jsstring.

Inductive Prog (A : Type) : Type :=
| Ret (a : A)
| Do (X : Type) (c : Cmd X) (k : X -> Prog A).

Arguments Ret {A} a.
Arguments Do {A X} c k.

Fixpoint bind (A B : Type) (p : Prog A) (f : A -> Prog B) : Prog B :=
  match p with
  | Ret a => f a
  | Do c k => Do c (fun x => bind (k x) f)
  end.

Definition call (X : Type) (c : Cmd X) : Prog X := Do c Ret.

Fixpoint mapM (A B : Type) (f : A -> Prog B) (l : list A) : Prog (list B) :=
  match l with
  | [] => Ret []
  | a :: l' => bind (f a) (fun b => bind (mapM f l') (fun bs => Ret (b :: bs)))
  end.

(** What happened: each command with the answer it got. *)
Inductive Event : Type :=
| Ev (X : Type) (c : Cmd X) (x : X).

(** The world answers a command, knowing all that happened before. *)
Definition World := forall X : Type, list Event -> Cmd X -> X.

Fixpoint run (A : Type) (w : World) (h : list Event) (p : Prog A)
  : list Event * A :=
  match p with
  | Ret a => (h, a)
  | Do c k => let x := w _ h c in run w (h ++ [Ev c x]) (k x)
  end.

(** The HTTP requests of a history, in the order they were sent. *)
Definition request (e : Event) : option (jsstring * Body) :=
  match e with
  | Ev c _ =>
      match c with
      | ApiPost url body => Some (url, body)
      | ApiPut url body => Some (url, body)
      | _ => None
      end
  end.

Definition requests (h : list Event) : list (jsstring * Body) :=
  omap request h.

End Effects.

Import Effects.

#[export] Instance Prog_ret : MRet Prog := @Ret.
#[export] Instance Prog_bind : MBind Prog := fun A B f p => bind p f.

(** ** The Chat component *)

Module Chat.

Inductive Sender : Type := user | assistant.

Record Attachment := {
  att_type : jsstring;
  url : option jsstring;
  att_name : jsstring;
  att_description : option jsstring }.

(** A message of the conversation.  [content] is a string in the
    interface; [handleFileUpload] copies it unchecked from a reply, where
    it may be absent. *)
Record Message := {
  msg_id : jsstring;
  msg_type : Sender;
  content : option jsstring;
  timestamp : N;
  attachments : option (list Attachment);
  generatedStories : option (list GeneratedStory) }.

(** The component state ([useState]). *)
Record State := {
  messages : list Message;
  input : jsstring;
  isLoading : bool;
  isUploading : bool }.

Definition setMessages (f : list Message -> list Message) (st : State) :=
  {| messages := f (messages st); input := input st;
     isLoading := isLoading st; isUploading := isUploading st |}.
Definition setInput (v : jsstring) (st : State) :=
  {| messages := messages st; input := v;
     isLoading := isLoading st; isUploading := isUploading st |}.
Definition setIsLoading (b : bool) (st : State) :=
  {| messages := messages st; input := input st;
     isLoading := b; isUploading := isUploading st |}.
Definition setIsUploading (b : bool) (st : State) :=
  {| messages := messages st; input := input st;
     isLoading := isLoading st; isUploading := b |}.

(** [/Story Title: (.*?)\nDescription: (.*?)(?:\n|$)/g] *)
Definition storyRe : regex :=
  Seq (text (lit "Story Title: "))
   (Seq (Group 1 (LazyStar Dot))
     (Seq (Char LF)
       (Seq (text (lit "Description: "))
         (Seq (Group 2 (LazyStar Dot))
              (Alt (Char LF) Eoi))))).

(** [/Story Title: (.*?)\n/] *)
Definition titleRe : regex :=
  Seq (text (lit "Story Title: "))
   (Seq (Group 1 (LazyStar Dot)) (Char LF)).

(** [/Description: (.*?)(?:\n|$)/] *)
Definition descRe : regex :=
  Seq (text (lit "Description: "))
   (Seq (Group 1 (LazyStar Dot)) (Alt (Char LF) Eoi)).

(** [response.data.response.match(...)] with the global pattern. *)
Definition storyMatch (response : jsstring) : option (list jsstring) :=
  matchGlobal storyRe response.

(** [match.match(/Story Title: (.*?)\n/)] and its group 1. *)
Definition titleMatch (match_ : jsstring) : option jsstring :=
  match exec titleRe match_ with
  | Some x => capture 1 (groups x)
  | None => None
  end.

(** [match.match(/Description: (.*?)(?:\n|$)/)] and its group 1. *)
Definition descMatch (match_ : jsstring) : option jsstring :=
  match exec descRe match_ with
  | Some x => capture 1 (groups x)
  | None => None
  end.

(** The callback of [storyMatch.map]. *)
Definition storyOf (match_ : jsstring) : Prog GeneratedStory :=
  now ← call DateNow;
  random ← call MathRandom;
  mret {| id := toStringN now ++ random;
          title := default (lit "Untitled Story") (titleMatch match_);
          description := default (lit "No description") (descMatch match_);
          published := false |}.

(** The story candidates of a generated text: [stories] of [handleSend],
    and no candidate at all when [storyMatch] is [null]. *)
Definition extract (response : jsstring) : Prog (list GeneratedStory) :=
  match storyMatch response with
  | Some matches => mapM storyOf matches
  | None => mret []
  end.

(** The loop that stores the candidates, one request each, with its
    [try]/[catch] inside the loop. *)
Fixpoint storeStories (project_key : jsstring) (stories : list GeneratedStory)
  : Prog unit :=
  match stories with
  | [] => mret tt
  | story :: stories' =>
      r ← call (ApiPost (lit "/stories") (StoryBody project_key story));
      match r with
      | Resolved _ => storeStories project_key stories'
      | Rejected =>
          _ ← call (ConsoleError (lit "Failed to store story:"));
          storeStories project_key stories'
      end
  end.

(** The [catch] block of [handleSend]. *)
Definition sendFailed (st : State) : Prog State :=
  _ ← call (ConsoleError (lit "Failed to send message:"));
  now ← call DateNow;
  date ← call DateNow;
  mret (setMessages (fun prev => prev ++
          [{| msg_id := toStringN now; msg_type := assistant;
              content :=
                Some (lit "Failed to process your message. Please try again.");
              timestamp := date; attachments := None;
              generatedStories := None |}]) st).

(** The [try] block of [handleSend] after the reply to [/chat]. *)
Definition sendReplied (project_key : jsstring) (r : Reply) (st : State)
  : Prog State :=
  match r with
  | Rejected => sendFailed st
  | Resolved data =>
      (* [.response] of [null] and [.match] of [undefined] throw *)
      match data ≫= response with
      | None => sendFailed st
      | Some answer =>
          let storyMatch := storyMatch answer in
          now ← call DateNow;
          date ← call DateNow;
          let assistantMessage stories :=
            {| msg_id := toStringN (now + 1); msg_type := assistant;
               content := Some answer; timestamp := date;
               attachments := None; generatedStories := stories |} in
          match storyMatch with
          | Some matches =>
              stories ← mapM storyOf matches;
              if (0 <? length stories)%nat then
                _ ← storeStories project_key stories;
                mret (setMessages
                        (fun prev => prev ++ [assistantMessage (Some stories)])
                        st)
              else
                mret (setMessages
                        (fun prev => prev ++ [assistantMessage None]) st)
          | None =>
              mret (setMessages
                      (fun prev => prev ++ [assistantMessage None]) st)
          end
      end
  end.

Definition handleSend (selectedProject : option jsstring) (st : State)
  : Prog State :=
  if falsy (trim (input st)) || falsyOpt selectedProject then mret st
  else
    let project_key := default [] selectedProject in
    now ← call DateNow;
    date ← call DateNow;
    let userMessage :=
      {| msg_id := toStringN now; msg_type := user;
         content := Some (input st); timestamp := date;
         attachments := None; generatedStories := None |} in
    let st1 :=
      setIsLoading true
        (setInput [] (setMessages (fun prev => prev ++ [userMessage]) st)) in
    r ← call (ApiPost (lit "/chat") (ChatBody (input st) project_key));
    st2 ← sendReplied project_key r st1;
    mret (setIsLoading false st2).

(** The [catch] block of [handleFileUpload]. *)
Definition uploadFailed (st : State) : Prog State :=
  _ ← call (ConsoleError (lit "Failed to upload file:"));
  _ ← call (Alert (lit "Failed to upload file. Please try again."));
  mret st.

(** The image branch of [handleFileUpload]. *)
Definition uploadImage (project_key : jsstring) (file : File) (st : State)
  : Prog State :=
  r ← call (ApiPost (lit "/upload_image") (FormData file project_key));
  match r with
  | Rejected => uploadFailed st
  | Resolved None => uploadFailed st   (* [.image_path] of [null] throws *)
  | Resolved (Some data) =>
      now ← call DateNow;
      date ← call DateNow;
      let newMessage :=
        {| msg_id := toStringN now; msg_type := user;
           content := Some (lit "Uploaded image:"); timestamp := date;
           attachments :=
             Some [{| att_type := lit "image"; url := image_path data;
                      att_name := file_name file;
                      att_description := data_description data |}];
           generatedStories := None |} in
      let st1 := setMessages (fun prev => prev ++ [newMessage]) st in
      if falsyOpt (data_description data) then mret st1
      else
        now' ← call DateNow;
        date' ← call DateNow;
        let aiResponse :=
          {| msg_id := toStringN (now' + 1); msg_type := assistant;
             content := data_description data; timestamp := date';
             attachments := None; generatedStories := None |} in
        mret (setMessages (fun prev => prev ++ [aiResponse]) st1)
  end.

(** The branch of [handleFileUpload] for every other file, after
    [file.text()] has resolved. *)
Definition uploadText (project_key : jsstring) (file : File)
    (fileContent : jsstring) (st : State) : Prog State :=
  now ← call DateNow;
  date ← call DateNow;
  objectURL ← call (CreateObjectURL file);
  let newMessage :=
    {| msg_id := toStringN now; msg_type := user;
       content := Some (lit "Uploaded document: " ++ file_name file);
       timestamp := date;
       attachments :=
         Some [{| att_type := lit "file"; url := Some objectURL;
                  att_name := file_name file; att_description := None |}];
       generatedStories := None |} in
  let st1 := setMessages (fun prev => prev ++ [newMessage]) st in
  r ← call (ApiPost (lit "/chat")
              (ChatBody (lit "Please analyze this document:" ++ [LF]
                           ++ fileContent) project_key));
  match r with
  | Rejected => uploadFailed st1
  | Resolved None => uploadFailed st1   (* [.response] of [null] throws *)
  | Resolved (Some data) =>
      now' ← call DateNow;
      date' ← call DateNow;
      let aiResponse :=
        {| msg_id := toStringN (now' + 1); msg_type := assistant;
           content := response data; timestamp := date';
           attachments := None; generatedStories := None |} in
      mret (setMessages (fun prev => prev ++ [aiResponse]) st1)
  end.

(** The branch of [handleFileUpload] for every other file:
    [await file.text()] is inside the [try], so a file that cannot be
    read ends in the [catch] block before anything is shown or sent. *)
Definition uploadDocument (project_key : jsstring) (file : File) (st : State)
  : Prog State :=
  match file_text file with
  | None => uploadFailed st
  | Some fileContent => uploadText project_key file fileContent st
  end.

Definition handleFileUpload (selectedProject : option jsstring) (file : File)
    (st : State) : Prog State :=
  if falsyOpt selectedProject then
    _ ← call (Alert (lit "Please select a project first"));
    mret st
  else
    let project_key := default [] selectedProject in
    let st1 := setIsUploading true st in
    st2 ← (if startsWith (lit "image/") (file_type file)
           then uploadImage project_key file st1
           else uploadDocument project_key file st1);
    mret (setIsUploading false st2).

End Chat.

(** ** The Images dropzone *)

Module Images.

Record State := {
  isLoading : bool;
  uploadedImages : list (option Data) }.

(** The loop over the accepted files; the first rejected upload ends it
    in the [catch] block.  [response.data] is kept as it is, [null]
    too. *)
Fixpoint uploadAll (project_key : jsstring) (acceptedFiles : list File)
    (st : State) : Prog State :=
  match acceptedFiles with
  | [] => mret st
  | file :: files =>
      r ← call (ApiPost (lit "/upload_image") (FormData file project_key));
      match r with
      | Rejected =>
          _ ← call (ConsoleError (lit "Failed to upload image:"));
          _ ← call (Alert (lit "Failed to upload image. Please try again."));
          mret st
      | Resolved data =>
          uploadAll project_key files
            {| isLoading := isLoading st;
               uploadedImages := uploadedImages st ++ [data] |}
      end
  end.

Definition onDrop (selectedProject : option jsstring)
    (acceptedFiles : list File) (st : State) : Prog State :=
  if falsyOpt selectedProject then
    _ ← call (Alert (lit "Please select a project first"));
    mret st
  else
    let project_key := default [] selectedProject in
    st' ← uploadAll project_key acceptedFiles
            {| isLoading := true; uploadedImages := uploadedImages st |};
    mret {| isLoading := false; uploadedImages := uploadedImages st' |}.

End Images.

(** ** The BRD dropzone *)

Module BrdUpload.

Record State := {
  uploading : bool;
  uploadProgress : N }.

Definition onDrop (selectedProject : option jsstring)
    (acceptedFiles : list File) (st : State) : Prog State :=
  if falsyOpt selectedProject then
    _ ← call (Alert (lit "Please select a project first"));
    mret st
  else
    let project_key := default [] selectedProject in
    match acceptedFiles with
    | [] => mret st
    | file :: _ =>
        r ← call (ApiPost (lit "/upload_brd") (FormData file project_key));
        match r with
        | Resolved _ => mret {| uploading := false; uploadProgress := 0 |}
        | Rejected =>
            _ ← call (ConsoleError (lit "Upload failed:"));
            _ ← call (Alert (lit "Failed to upload file. Please try again."));
            mret {| uploading := false; uploadProgress := 0 |}
        end
    end.

End BrdUpload.

(** ** The Stories component *)

Module Stories.

Record Story := {
  id : jsstring;
  title : jsstring;
  description : jsstring;
  published : bool;
  jira_key : option jsstring }.

Inductive Severity : Type := success | error.

Record State := {
  stories : list Story;
  editingStory : option Story;
  isPublishing : option jsstring;
  message : option (Severity * jsstring) }.

Definition setStories (f : list Story -> list Story) (st : State) :=
  {| stories := f (stories st); editingStory := editingStory st;
     isPublishing := isPublishing st; message := message st |}.
Definition setEditingStory (v : option Story) (st : State) :=
  {| stories := stories st; editingStory := v;
     isPublishing := isPublishing st; message := message st |}.
Definition setIsPublishing (v : option jsstring) (st : State) :=
  {| stories := stories st; editingStory := editingStory st;
     isPublishing := v; message := message st |}.
Definition setMessage (v : option (Severity * jsstring)) (st : State) :=
  {| stories := stories st; editingStory := editingStory st;
     isPublishing := isPublishing st; message := v |}.

(** A value inside a template literal. *)
Definition interpolate (x : option jsstring) (ifAbsent : string) : jsstring :=
  default (lit ifAbsent) x.

(** [{ ...s, published: true, jira_key: response.data.jira_key }] *)
Definition markPublished (data : Data) (s : Story) : Story :=
  {| id := id s; title := title s; description := description s;
     published := true; jira_key := Effects.jira_key data |}.

(** [`/stories/${selectedProject}/${story.id}/publish`] *)
Definition publishUrl (selectedProject : option jsstring) (story : Story)
  : jsstring :=
  lit "/stories/" ++ interpolate selectedProject "null"
    ++ lit "/" ++ id story ++ lit "/publish".

(** [`/stories/${selectedProject}/${editedStory.id}`] *)
Definition updateUrl (selectedProject : option jsstring) (editedStory : Story)
  : jsstring :=
  lit "/stories/" ++ interpolate selectedProject "null"
    ++ lit "/" ++ id editedStory.

(** [handlePublish].  The result is [None] when the table can no longer
    be rendered: [setStories] only queues its updater, which reads
    [response.data.jira_key] for the rows with the id of the call when
    the table is rendered next, and throws there if [response.data] is
    [null].  In the handler itself it is the template literal of the
    success message that throws in that case, so the [catch] block
    runs. *)
Definition handlePublish (selectedProject : option jsstring) (story : Story)
    (st : State) : Prog (option State) :=
  if falsyOpt selectedProject then
    mret (Some (setMessage
                  (Some (error, lit "Please select a project first")) st))
  else
    let st1 := setMessage None (setIsPublishing (Some (id story)) st) in
    r ← call (ApiPost (publishUrl selectedProject story) NoBody);
    st2 ← match r with
          | Resolved (Some data) =>
              mret (Some
                (setMessage
                   (Some (success,
                          lit "Story successfully published to Jira as "
                          ++ interpolate (Effects.jira_key data)
                               "undefined"))
                   (setStories
                      (List.map (fun s =>
                         if JS.eqb (id s) (id story)
                         then markPublished data s else s))
                      st1)))
          | Resolved None =>
              _ ← call (ConsoleError (lit "Failed to publish story:"));
              if existsb (fun s => JS.eqb (id s) (id story)) (stories st1)
              then mret None
              else
                mret (Some
                  (setMessage
                     (Some (error,
                            lit "Failed to publish story. Please try again."))
                     st1))
          | Rejected =>
              _ ← call (ConsoleError (lit "Failed to publish story:"));
              mret (Some
                (setMessage
                   (Some (error,
                          lit "Failed to publish story. Please try again."))
                   st1))
          end;
    mret (setIsPublishing None <$> st2).

Definition handleEdit (story : Story) (st : State) : State :=
  setEditingStory (Some story) st.

Definition handleSaveEdit (selectedProject : option jsstring)
    (editedStory : Story) (st : State) : Prog State :=
  r ← call (ApiPut (updateUrl selectedProject editedStory)
              (UpdatesBody (title editedStory) (description editedStory)));
  st1 ← match r with
        | Resolved _ =>
            mret (setMessage (Some (success, lit "Story updated successfully"))
                    (setStories
                       (List.map (fun story =>
                          if JS.eqb (id story) (id editedStory)
                          then editedStory else story))
                       st))
        | Rejected =>
            _ ← call (ConsoleError (lit "Failed to update story:"));
            mret (setMessage
                    (Some (error,
                           lit "Failed to update story. Please try again."))
                    st)
        end;
  mret (setEditingStory None st1).

(** [handleSave] of the edit dialog, with the texts of its two fields,
    followed by its [onClose]. *)
Definition handleSave (selectedProject : option jsstring)
    (editedTitle editedDescription : jsstring) (st : State) : Prog State :=
  st1 ← match editingStory st with
        | Some story =>
            handleSaveEdit selectedProject
              {| id := id story; title := editedTitle;
                 description := editedDescription;
                 published := published story; jira_key := jira_key story |}
              st
        | None => mret st
        end;
  mret (setEditingStory None st1).

(** The [disabled] attribute of the two buttons of a table row. *)
Definition editDisabled (story : Story) : bool := published story.

Definition publishDisabled (st : State) (story : Story) : bool :=
  published story
  || match isPublishing st with
     | Some sid => JS.eqb sid (id story)
     | None => false
     end.

(** A click on a button of the row of [story]: the table is rendered only
    when a project is selected, and a disabled button does not call its
    [onClick]. *)
Definition clickEdit (selectedProject : option jsstring) (story : Story)
    (st : State) : State :=
  if falsyOpt selectedProject || editDisabled story then st
  else handleEdit story st.

Definition clickPublish (selectedProject : option jsstring) (story : Story)
    (st : State) : Prog (option State) :=
  if falsyOpt selectedProject || publishDisabled st story then mret (Some st)
  else handlePublish selectedProject story st.

End Stories.

(** ** The Story Lifecycle Store *)

(** The store runs in the back end, whose code is not among the inspected
    sources: everything in this module is modelled from the
    specification (sections 3, 4.5, 5 and 7). *)

Module Store.

(** Modelled from the spec: the status of a story, whose type is missing;
    [draft | published], a one-way transition. *)
Inductive Status : Type := draft | published.

(** Modelled from the spec: the [Story] record of the back end, whose code
    is not among the inspected sources (data model, section 3). *)
Record Story := {
  id : jsstring;
  project_key : jsstring;
  title : jsstring;
  description : jsstring;
  status : Status;
  external_key : option jsstring;
  created_at : N;
  updated_at : N }.

(** Modelled from the spec: the errors of the store operations (section 7);
    the spec does not say what an unknown story id gives, [NotFound] stands
    for it. *)
Inductive Error : Type :=
| DuplicateError
| InvalidStateError
| TransientExternalError
| NotFound.

(** Modelled from the spec: stories are kept by project namespace and
    story id. *)
Definition Key : Type := jsstring * jsstring.

(** Modelled from the spec: [create(project_key, candidate)] persists a new
    draft and fails with [DuplicateError] only if the id already exists. *)
Definition create (now : N) (pk : jsstring) (candidate : GeneratedStory)
    (σ : gmap Key Story) : (Error + Story) * gmap Key Story :=
  match σ !! (pk, Effects.id candidate) with
  | Some _ => (inl DuplicateError, σ)
  | None =>
      let s := {| id := Effects.id candidate; project_key := pk;
                  title := Effects.title candidate;
                  description := Effects.description candidate;
                  status := draft; external_key := None;
                  created_at := now; updated_at := now |} in
      (inr s, <[(pk, Effects.id candidate) := s]> σ)
  end.

(** Modelled from the spec: [update(project_key, story_id, {title?,
    description?})] fails with [InvalidStateError] if the story is already
    published; otherwise it overwrites the given fields and bumps
    [updated_at]. *)
Definition update (now : N) (k : Key) (title' description' : option jsstring)
    (σ : gmap Key Story) : (Error + Story) * gmap Key Story :=
  match σ !! k with
  | None => (inl NotFound, σ)
  | Some s =>
      match status s with
      | published => (inl InvalidStateError, σ)
      | draft =>
          let s' := {| id := id s; project_key := project_key s;
                       title := default (title s) title';
                       description := default (description s) description';
                       status := draft; external_key := external_key s;
                       created_at := created_at s; updated_at := now |} in
          (inr s', <[k := s']> σ)
      end
  end.

(** Modelled from the spec: the state guard of [publish], which fails with
    [InvalidStateError] if the story is already published. *)
Definition publishCheck (k : Key) (σ : gmap Key Story) : Error + Story :=
  match σ !! k with
  | None => inl NotFound
  | Some s =>
      match status s with
      | published => inl InvalidStateError
      | draft => inr s
      end
  end.

(** Modelled from the spec: what [publish] writes once the tracker has
    created the issue: [status -> published] and [external_key], together. *)
Definition publishCommit (now : N) (key : jsstring) (s : Story) : Story :=
  {| id := id s; project_key := project_key s; title := title s;
     description := description s; status := published;
     external_key := Some key; created_at := created_at s;
     updated_at := now |}.

(** Modelled from the spec: [publish(project_key, story_id)], which is
    missing, as one call on its own: the state guard, then the tracker's
    create-issue ([outcome] is the key it returns, or nothing when it
    fails), and only on success [status -> published] and [external_key];
    when the tracker fails the story stays a draft and the failure is
    reported. *)
Definition publish (now : N) (outcome : option jsstring) (k : Key)
    (σ : gmap Key Story) : (Error + Story) * gmap Key Story :=
  match publishCheck k σ with
  | inl e => (inl e, σ)
  | inr s =>
      match outcome with
      | Some key =>
          (inr (publishCommit now key s), <[k := publishCommit now key s]> σ)
      | None => (inl TransientExternalError, σ)
      end
  end.

(** Modelled from the spec: concurrent [publish] calls, whose scheduling
    is missing.  Each call is a request that waits, enters its critical
    section (the state guard), has the tracker create the issue, and
    commits.  Calls for the same story are mutually exclusive: a request
    enters only while no other request for its story is inside; calls for
    other stories do not hold it up. *)
Inductive Phase : Type :=
| Waiting
| Calling (s : Story)
| Created (s : Story) (key : jsstring)
| Done (r : Error + Story).

(** Modelled from the spec: a [publish] call in flight, for the story
    [target]. *)
Record Request := {
  target : Key;
  phase : Phase }.

(** Modelled from the spec: the store, the issues the tracker has created
    so far (the external tracker is missing) and the calls in flight. *)
Record Server := {
  store : gmap Key Story;
  issues : list (Key * jsstring);     (* the issues the tracker created *)
  requests : list Request }.

(** Modelled from the spec: the critical section of a call ("a per-story
    critical section", section 5). *)
Definition inside (p : Phase) : bool :=
  match p with
  | Calling _ | Created _ _ => true
  | _ => false
  end.

(** Modelled from the spec: some call for the story [k] is inside. *)
Definition busy (k : Key) (rs : list Request) : bool :=
  existsb (fun r => bool_decide (target r = k) && inside (phase r)) rs.

(** The call [r], at index [i], moves on to the phase [p]. *)
Definition setPhase (i : nat) (r : Request) (p : Phase) (rs : list Request)
  : list Request :=
  <[i := {| target := target r; phase := p |}]> rs.

(** Modelled from the spec: one step of one call.  A waiting call enters
    when no call for its story is inside and runs the state guard; a call
    inside has the tracker create the issue, or fail; a call whose issue
    is created commits. *)
Inductive step : Server -> Server -> Prop :=
| step_enter (σ : Server) (i : nat) (r : Request) :
    requests σ !! i = Some r ->
    phase r = Waiting ->
    busy (target r) (requests σ) = false ->
    step σ {| store := store σ; issues := issues σ;
              requests :=
                setPhase i r
                  match publishCheck (target r) (store σ) with
                  | inl e => Done (inl e)
                  | inr s => Calling s
                  end (requests σ) |}
| step_created (σ : Server) (i : nat) (r : Request) (s : Story)
    (key : jsstring) :
    requests σ !! i = Some r ->
    phase r = Calling s ->
    step σ {| store := store σ; issues := issues σ ++ [(target r, key)];
              requests := setPhase i r (Created s key) (requests σ) |}
| step_tracker_failed (σ : Server) (i : nat) (r : Request) (s : Story) :
    requests σ !! i = Some r ->
    phase r = Calling s ->
    step σ {| store := store σ; issues := issues σ;
              requests :=
                setPhase i r (Done (inl TransientExternalError))
                  (requests σ) |}
| step_commit (σ : Server) (i : nat) (r : Request) (s : Story)
    (key : jsstring) (now : N) :
    requests σ !! i = Some r ->
    phase r = Created s key ->
    step σ {| store := <[target r := publishCommit now key s]> (store σ);
              issues := issues σ;
              requests :=
                setPhase i r (Done (inr (publishCommit now key s)))
                  (requests σ) |}.

(** Any number of steps, of any calls, in any order. *)
Inductive steps : Server -> Server -> Prop :=
| steps_refl (σ : Server) : steps σ σ
| steps_step (σ1 σ2 σ3 : Server) :
    steps σ1 σ2 -> step σ2 σ3 -> steps σ1 σ3.

(** The calls have just arrived. *)
Definition initial (σ : Server) : Prop :=
  issues σ = [] /\ Forall (fun r => phase r = Waiting) (requests σ).

Definition isDone (p : Phase) : bool :=
  match p with Done _ => true | _ => false end.

(** Every call has returned. *)
Definition final (σ : Server) : Prop :=
  Forall (fun r => isDone (phase r) = true) (requests σ).

(** The issues created for the story [k]. *)
Definition issuesFor (k : Key) (σ : Server) : list (Key * jsstring) :=
  List.filter (fun i => bool_decide (fst i = k)) (issues σ).

(** The story [k] is in the store and published. *)
Definition isPublished (k : Key) (σ : gmap Key Story) : bool :=
  match σ !! k with
  | Some s => match status s with published => true | draft => false end
  | None => false
  end.

(** The calls for the story [k], by how far they have come. *)
Definition calling (k : Key) (r : Request) : bool :=
  bool_decide (target r = k)
  && match phase r with Calling _ => true | _ => false end.

Definition created (k : Key) (r : Request) : bool :=
  bool_decide (target r = k)
  && match phase r with Created _ _ => true | _ => false end.

Definition succeeded (k : Key) (r : Request) : bool :=
  bool_decide (target r = k)
  && match phase r with Done (inr _) => true | _ => false end.

Definition count (f : Request -> bool) (rs : list Request) : nat :=
  length (List.filter f rs).

(** How many steps the calls still have before them, at most. *)
Definition weight (p : Phase) : nat :=
  match p with
  | Waiting => 3
  | Calling _ => 2
  | Created _ _ => 1
  | Done _ => 0
  end.

Fixpoint pending (rs : list Request) : nat :=
  match rs with
  | [] => 0
  | r :: rs' => weight (phase r) + pending rs'
  end.

End Store.

(** ** Notions used to state the results *)

Module Lines.

(** The text up to the first line terminator, and what follows it. *)
Fixpoint line (s : jsstring) : jsstring :=
  match s with
  | x :: s' => if isLineTerminator x then [] else x :: line s'
  | [] => []
  end.

Fixpoint afterLine (s : jsstring) : jsstring :=
  match s with
  | x :: s' => if isLineTerminator x then s else afterLine s'
  | [] => []
  end.

(** A text within one line. *)
Definition oneLine (s : jsstring) : Prop :=
  Forall (fun x => isLineTerminator x = false) s.

(** [p] occurs in [s]. *)
Definition occurs (p s : jsstring) : Prop :=
  exists pre post, s = pre ++ p ++ post.

(** A continuation of the matcher that cannot succeed inside a line. *)
Definition stopsAtLineEnd (R : Type)
    (k : jsstring -> captures -> option R) : Prop :=
  forall x s c, isLineTerminator x = false -> k (x :: s) c = None.

(** [Story Title: t\nDescription: d], a well-formed pair. *)
Definition pair (t d : jsstring) : jsstring :=
  lit "Story Title: " ++ t ++ LF :: lit "Description: " ++ d.

End Lines.

Import Lines.

(** ** Sample worlds and texts *)

Module Samples.

(** A world whose clock stands still, whose random number always prints
    the same, and whose back end always gives the same reply. *)
Definition world (now : N) (random : string) (reply : Reply) : World :=
  fun X _ c =>
    match c in Cmd X return X with
    | DateNow => now
    | MathRandom => lit random
    | ApiPost _ _ => reply
    | ApiPut _ _ => reply
    | ConsoleError _ => tt
    | Alert _ => tt
    | CreateObjectURL _ => lit "blob:1"
    end.

(** A title line that no description line follows. *)
Definition titleOnly : jsstring :=
  lit "Story Title: Login page" ++ LF :: lit "As a user I want to log in.".

(** Two well-formed pairs; the first title speaks of a description. *)
Definition sortStory : jsstring :=
  pair (lit "Sort by Description: asc") (lit "As a user I can sort") ++
  LF :: pair (lit "Export") (lit "As a user I can export").

(** One pair whose description goes on for a second line. *)
Definition twoLines : jsstring :=
  pair (lit "Login") (lit "As a user I want to log in") ++
  LF :: lit "so that I can see my projects.".

Definition loginStory (ident : string) : GeneratedStory :=
  {| id := lit ident; title := lit "Login";
     description := lit "As a user I want to log in"; published := false |}.

(** A back end that answers the chat with the two stories of [sortStory]
    and rejects every other request. *)
Definition storiesDown : World :=
  fun X _ c =>
    match c in Cmd X return X with
    | DateNow => 1000%N
    | MathRandom => lit "0.5"
    | ApiPost url _ =>
        if JS.eqb url (lit "/chat")
        then Resolved (Some {| response := Some sortStory;
                               image_path := None;
                               data_description := None;
                               jira_key := None |})
        else Rejected
    | ApiPut _ _ => Rejected
    | ConsoleError _ => tt
    | Alert _ => tt
    | CreateObjectURL _ => lit "blob:1"
    end.

Definition chatState : Chat.State :=
  {| Chat.messages := []; Chat.input := lit "Write the stories";
     Chat.isLoading := false; Chat.isUploading := false |}.

Definition brd : File :=
  {| file_name := lit "brd.txt"; file_type := lit "text/plain";
     file_text := Some (lit "The shop sells books.") |}.

(** The table of the Stories component with one draft and one published
    story. *)
Definition draftRow : Stories.Story :=
  {| Stories.id := lit "17"; Stories.title := lit "Login";
     Stories.description := lit "As a user I want to log in";
     Stories.published := false; Stories.jira_key := None |}.

Definition publishedRow : Stories.Story :=
  {| Stories.id := lit "18"; Stories.title := lit "Export";
     Stories.description := lit "As a user I can export";
     Stories.published := true; Stories.jira_key := Some (lit "PO-7") |}.

Definition table : Stories.State :=
  {| Stories.stories := [draftRow; publishedRow];
     Stories.editingStory := None; Stories.isPublishing := None;
     Stories.message := None |}.

Definition published8 : Data :=
  {| response := None; image_path := None; data_description := None;
     jira_key := Some (lit "PO-8") |}.

(** The store with one draft and one published story, and two publish
    calls for the draft that have just arrived. *)
Definition draftKey : Store.Key := (lit "PO", lit "17").
Definition publishedKey : Store.Key := (lit "PO", lit "18").

Definition draftStory : Store.Story :=
  {| Store.id := lit "17"; Store.project_key := lit "PO";
     Store.title := lit "Login";
     Store.description := lit "As a user I want to log in";
     Store.status := Store.draft; Store.external_key := None;
     Store.created_at := 1; Store.updated_at := 1 |}.

Definition publishedStory : Store.Story :=
  {| Store.id := lit "18"; Store.project_key := lit "PO";
     Store.title := lit "Export";
     Store.description := lit "As a user I can export";
     Store.status := Store.published;
     Store.external_key := Some (lit "PO-7");
     Store.created_at := 1; Store.updated_at := 2 |}.

Definition stored : gmap Store.Key Store.Story :=
  <[publishedKey := publishedStory]> {[draftKey := draftStory]}.

Definition twoCalls : Store.Server :=
  {| Store.store := stored; Store.issues := [];
     Store.requests :=
       [ {| Store.target := draftKey; Store.phase := Store.Waiting |};
         {| Store.target := draftKey; Store.phase := Store.Waiting |} ] |}.

(** The same after the first call went through and the second was
    refused. *)
Definition twoCallsDone : Store.Server :=
  {| Store.store :=
       <[draftKey := Store.publishCommit 3 (lit "PO-8") draftStory]> stored;
     Store.issues := [(draftKey, lit "PO-8")];
     Store.requests :=
       [ {| Store.target := draftKey;
            Store.phase :=
              Store.Done
                (inr (Store.publishCommit 3 (lit "PO-8") draftStory)) |};
         {| Store.target := draftKey;
            Store.phase := Store.Done (inl Store.InvalidStateError) |} ] |}.

End Samples.

(** ** The reply to the chat request of a turn *)

(** What the world answers to the [/chat] request that [handleSend] sends
    when it is started after the history [h]: the request follows the two
    readings of the clock for the user's message. *)
Definition replyToChat (w : World) (h : list Event) (project_key : jsstring)
    (st : Chat.State) : Reply :=
  let now := w _ h DateNow in
  let h1 := h ++ [Ev DateNow now] in
  let date := w _ h1 DateNow in
  w _ (h1 ++ [Ev DateNow date])
    (ApiPost (lit "/chat") (ChatBody (Chat.input st) project_key)).

(** The history of such a turn when the reply has arrived, and when the
    candidates are extracted from its text: the clock has then been read
    twice more, for the assistant's message. *)
Definition historyAtReply (w : World) (h : list Event)
    (project_key : jsstring) (st : Chat.State) : list Event :=
  let now := w _ h DateNow in
  let h1 := h ++ [Ev DateNow now] in
  let date := w _ h1 DateNow in
  (h1 ++ [Ev DateNow date]) ++
  [Ev (ApiPost (lit "/chat") (ChatBody (Chat.input st) project_key))
      (replyToChat w h project_key st)].

Definition historyAtExtraction (w : World) (h : list Event)
    (project_key : jsstring) (st : Chat.State) : list Event :=
  let h3 := historyAtReply w h project_key st in
  let now := w _ h3 DateNow in
  let h4 := h3 ++ [Ev DateNow now] in
  h4 ++ [Ev DateNow (w _ h4 DateNow)].

(** One candidate costs two readings: the clock, then the random number
    generator. *)
Definition reading (nr : N * jsstring) : list Event :=
  [Ev DateNow (fst nr); Ev MathRandom (snd nr)].

(** The request that stores one candidate. *)
Definition storeRequest (project_key : jsstring) (story : GeneratedStory)
  : jsstring * Body :=
  (lit "/stories", StoryBody project_key story).


(** ** What holds of the calls for one story, at every moment *)

Module StoreInv.

Import Store.

(** [σ0] is where the calls started, [σ] where they are now. *)
Record Inv (k : Key) (σ0 σ : Server) : Prop := {
  inv_targets :
    List.map target (requests σ) = List.map target (requests σ0);
  inv_issues :
    length (issuesFor k σ)
    = count (created k) (requests σ) + count (succeeded k) (requests σ);
  inv_mutex :
    count (calling k) (requests σ) + count (created k) (requests σ)
    + count (succeeded k) (requests σ) <= 1;
  inv_inside :
    1 <= count (calling k) (requests σ) + count (created k) (requests σ) ->
    isPublished k (store σ) = false;
  inv_succeeded :
    1 <= count (succeeded k) (requests σ) -> isPublished k (store σ) = true;
  inv_refused :
    Forall (fun r => target r = k ->
                     phase r = Done (inl InvalidStateError) ->
                     isPublished k (store σ) = true) (requests σ);
  inv_known :
    is_Some (store σ0 !! k) ->
    is_Some (store σ !! k) /\
    Forall (fun r => target r = k -> phase r <> Done (inl NotFound))
      (requests σ);
  inv_no_duplicate :
    Forall (fun r => phase r <> Done (inl DuplicateError)) (requests σ);
  inv_published :
    isPublished k (store σ) = true ->
    isPublished k (store σ0) = true \/
    1 <= count (succeeded k) (requests σ) }.

End StoreInv.


(** ** Further notions for the results on the chat *)

Module Reading.

(** The texts [ms] stand in [s] one after the other, without overlap. *)
Inductive scattered : list jsstring -> jsstring -> Prop :=
| scattered_nil (s : jsstring) : scattered [] s
| scattered_cons (pre m : jsstring) (ms : list jsstring) (s : jsstring) :
    scattered ms s -> scattered (m :: ms) (pre ++ m ++ s).

(** A text of white space and line terminators only: what
    [String.prototype.trim] reduces to the empty string. *)
Definition blank (s : jsstring) : Prop :=
  Forall (fun c => isWhiteSpace c || isLineTerminator c = true) s.

(** Every line feed of [s] comes right after a carriage return. *)
Definition crlfOnly (s : jsstring) : Prop :=
  forall a b, s = a ++ LF :: b -> exists a', a = a' ++ [CR].

(** The one request of [handleFileUpload]: an image goes to
    [/upload_image], the text of any other file to [/chat]; there is none
    for a file of another kind that cannot be read. *)
Definition uploadRequest (project_key : jsstring) (file : File)
  : option (jsstring * Body) :=
  if startsWith (lit "image/") (file_type file)
  then Some (lit "/upload_image", FormData file project_key)
  else
    match file_text file with
    | Some fileContent =>
        Some (lit "/chat",
              ChatBody (lit "Please analyze this document:" ++ [LF]
                          ++ fileContent) project_key)
    | None => None
    end.

(** What the world answers to the request of [handleFileUpload] started
    after the history [h]: an image is posted at once, any other file
    after the two readings of the clock and the object URL of its
    notice. *)
Definition replyToUpload (w : World) (h : list Event) (project_key : jsstring)
    (file : File) : option Reply :=
  if startsWith (lit "image/") (file_type file)
  then Some (w _ h (ApiPost (lit "/upload_image")
                      (FormData file project_key)))
  else
    match file_text file with
    | Some fileContent =>
        let now := w _ h DateNow in
        let h1 := h ++ [Ev DateNow now] in
        let date := w _ h1 DateNow in
        let h2 := h1 ++ [Ev DateNow date] in
        let objectURL := w _ h2 (CreateObjectURL file) in
        Some (w _ (h2 ++ [Ev (CreateObjectURL file) objectURL])
                (ApiPost (lit "/chat")
                   (ChatBody (lit "Please analyze this document:" ++ [LF]
                                ++ fileContent) project_key)))
    | None => None
    end.

End Reading.


(** ** The controls of the chat *)

Module Controls.

(** A [React.KeyboardEvent], as far as [handleKeyPress] looks at it. *)
Record KeyboardEvent := {
  key : jsstring;
  shiftKey : bool }.

(** [handleKeyPress]; the flag tells whether [event.preventDefault()] was
    called. *)
Definition handleKeyPress (selectedProject : option jsstring)
    (event : KeyboardEvent) (st : Chat.State) : bool * Prog Chat.State :=
  if JS.eqb (key event) (lit "Enter") && negb (shiftKey event)
  then (true, Chat.handleSend selectedProject st)
  else (false, mret st).

(** [onChange] of the two file inputs, with [e.target.files]. *)
Definition onFileChange (selectedProject : option jsstring)
    (files : list File) (st : Chat.State) : Prog Chat.State :=
  match files with
  | file :: _ => Chat.handleFileUpload selectedProject file st
  | [] => mret st
  end.

(** The [disabled] attributes of the two attach buttons, of the text
    field and of the send button. *)
Definition attachDisabled (selectedProject : option jsstring)
    (st : Chat.State) : bool :=
  Chat.isUploading st || falsyOpt selectedProject.

Definition inputDisabled (selectedProject : option jsstring)
    (st : Chat.State) : bool :=
  Chat.isLoading st || Chat.isUploading st || falsyOpt selectedProject.

Definition sendDisabled (selectedProject : option jsstring)
    (st : Chat.State) : bool :=
  falsy (trim (Chat.input st)) || Chat.isLoading st || Chat.isUploading st
  || falsyOpt selectedProject.

(** The texts shown by [alert], in the order they were shown. *)
Definition alert (e : Event) : option jsstring :=
  match e with
  | Ev c _ =>
      match c with
      | Alert msg => Some msg
      | _ => None
      end
  end.

Definition alerts (h : list Event) : list jsstring := omap alert h.

End Controls.

(** ** Requests that read from the back end *)

(** [response.data] is whatever the back end sent; the handlers of the
    project context and of the context management look into it without a
    check of its shape.  It is modelled as a JSON value, with
    [undefined] for an empty body. *)

Module Net.

#[local] Unset Elimination Schemes.

Inductive Json : Type :=
| JUndefined
| JNull
| JBool (b : bool)
| JNumber (printed : jsstring)           (* a number, as it prints *)
| JString (s : jsstring)
| JArray (items : list Json)
| JObject (fields : list (jsstring * Json)).

#[local] Set Elimination Schemes.

Fixpoint lookup (name : jsstring) (fields : list (jsstring * Json)) : Json :=
  match fields with
  | [] => JUndefined
  | (k, v) :: fields' => if JS.eqb k name then v else lookup name fields'
  end.

(** [v.name], for a name that is no property of strings, numbers,
    booleans and arrays; [None] is the [TypeError] that reading a
    property of [undefined] or [null] throws. *)
Definition member (name : jsstring) (v : Json) : option Json :=
  match v with
  | JUndefined | JNull => None
  | JObject fields => Some (lookup name fields)
  | _ => Some JUndefined
  end.

(** [v === 'text'] *)
Definition isString (text : jsstring) (v : Json) : bool :=
  match v with
  | JString s => JS.eqb s text
  | _ => false
  end.

(** [Array.isArray(v)] *)
Definition isArray (v : Json) : bool :=
  match v with
  | JArray _ => true
  | _ => false
  end.

(** A value inside a template literal ([ToString]); an array prints its
    items separated by commas, [undefined] and [null] among them as
    nothing. *)
Fixpoint toString (v : Json) : jsstring :=
  match v with
  | JUndefined => lit "undefined"
  | JNull => lit "null"
  | JBool true => lit "true"
  | JBool false => lit "false"
  | JNumber printed => printed
  | JString s => s
  | JArray items =>
      (fix join (l : list Json) : jsstring :=
         match l with
         | [] => []
         | x :: l' =>
             match x with
             | JUndefined | JNull => []
             | _ => toString x
             end ++
             match l' with
             | [] => []
             | _ :: _ => lit "," ++ join l'
             end
         end) items
  | JObject _ => lit "[object Object]"
  end.

Inductive Reply : Type :=
| Rejected
| Resolved (data : Json).

Inductive Cmd : Type -> Type :=
| Get (url : jsstring) : Cmd Reply
| Post (url : jsstring) (body : Json) : Cmd Reply
| ConsoleError (msg : jsstring) : Cmd unit.

Inductive Prog (A : Type) : Type :=
| Ret (a : A)
| Do (X : Type) (c : Cmd X) (k : X -> Prog A).

Arguments Ret {A} a.
Arguments Do {A X} c k.

Fixpoint bind (A B : Type) (p : Prog A) (f : A -> Prog B) : Prog B :=
  match p with
  | Ret a => f a
  | Do c k => Do c (fun x => bind (k x) f)
  end.

Definition call (X : Type) (c : Cmd X) : Prog X := Do c Ret.

Inductive Event : Type :=
| Ev (X : Type) (c : Cmd X) (x : X).

Definition World := forall X : Type, list Event -> Cmd X -> X.

Fixpoint run (A : Type) (w : World) (h : list Event) (p : Prog A)
  : list Event * A :=
  match p with
  | Ret a => (h, a)
  | Do c k => let x := w _ h c in run w (h ++ [Ev c x]) (k x)
  end.

(** The HTTP requests of a history: the url and, for a POST, the body. *)
Definition request (e : Event) : option (jsstring * option Json) :=
  match e with
  | Ev c _ =>
      match c with
      | Get url => Some (url, None)
      | Post url body => Some (url, Some body)
      | ConsoleError _ => None
      end
  end.

Definition requests (h : list Event) : list (jsstring * option Json) :=
  omap request h.

End Net.

#[export] Instance NetProg_ret : MRet Net.Prog := @Net.Ret.
#[export] Instance NetProg_bind : MBind Net.Prog :=
  fun A B f p => Net.bind p f.

(** ** The [api] object with its response interceptor *)

Module Api.
Import Net.

(** The interceptor logs an error and rejects again. *)
Definition intercepted (r : Reply) : Prog Reply :=
  match r with
  | Resolved _ => mret r
  | Rejected =>
      _ ← call (ConsoleError (lit "API Error:"));
      mret Rejected
  end.

Definition get (url : jsstring) : Prog Reply :=
  r ← call (Get url); intercepted r.

Definition post (url : jsstring) (body : Json) : Prog Reply :=
  r ← call (Post url body); intercepted r.

(** [checkJiraConnection]: the data of the reply to [/health]. *)
Definition checkJiraConnection : Prog Reply := get (lit "/health").

End Api.

(** ** The project context *)

Module ProjectContext.
Import Net.

Record State := {
  selectedProject : option jsstring;
  projects : list Json;
  loading : bool;
  error : option jsstring;
  isJiraConnected : bool }.

Definition setProjects (v : list Json) (st : State) :=
  {| selectedProject := selectedProject st; projects := v;
     loading := loading st; error := error st;
     isJiraConnected := isJiraConnected st |}.
Definition setLoading (v : bool) (st : State) :=
  {| selectedProject := selectedProject st; projects := projects st;
     loading := v; error := error st;
     isJiraConnected := isJiraConnected st |}.
Definition setError (v : option jsstring) (st : State) :=
  {| selectedProject := selectedProject st; projects := projects st;
     loading := loading st; error := v;
     isJiraConnected := isJiraConnected st |}.
Definition setIsJiraConnected (v : bool) (st : State) :=
  {| selectedProject := selectedProject st; projects := projects st;
     loading := loading st; error := error st; isJiraConnected := v |}.

(** The state of the provider when it is mounted. *)
Definition mounted : State :=
  {| selectedProject := None; projects := []; loading := true;
     error := None; isJiraConnected := false |}.

Definition notConnected : jsstring :=
  lit "Failed to connect to Jira. Please check your connection.".

Definition unexpectedFormat : jsstring :=
  lit "Failed to load projects. Unexpected data format.".

(** The [catch] block of [checkConnection]. *)
Definition connectionFailed (st : State) : Prog State :=
  _ ← call (ConsoleError (lit "Failed to check Jira connection:"));
  mret (setProjects []
          (setIsJiraConnected false (setError (Some notConnected) st))).

Definition checkConnection (st : State) : Prog State :=
  let st1 := setError None (setLoading true st) in
  r ← Api.checkJiraConnection;
  st' ← match r with
        | Rejected => connectionFailed st1
        | Resolved healthData =>
            match member (lit "services") healthData
                  ≫= member (lit "jira") with
            | None => connectionFailed st1
            | Some jira =>
                let jiraConnected := isString (lit "connected") jira in
                let st2 := setIsJiraConnected jiraConnected st1 in
                if negb jiraConnected then
                  mret (setProjects [] (setError (Some notConnected) st2))
                else
                  r' ← Api.get (lit "/jira/projects");
                  match r' with
                  | Rejected => connectionFailed st2
                  | Resolved projectData =>
                      match projectData with
                      | JArray items => mret (setProjects items st2)
                      | _ =>
                          _ ← call (ConsoleError
                                      (lit "Unexpected projects data format:"));
                          mret (setError (Some unexpectedFormat)
                                  (setProjects [] st2))
                      end
                  end
            end
        end;
  mret (setLoading false st').

(** Whether the reply to [/health] says that Jira is connected:
    [healthData.services.jira === 'connected'], and [false] when this
    throws. *)
Definition saysConnected (health : Reply) : bool :=
  match health with
  | Resolved healthData =>
      match member (lit "services") healthData ≫= member (lit "jira") with
      | Some jira => isString (lit "connected") jira
      | None => false
      end
  | Rejected => false
  end.

(** What the world answers to the two requests of [checkConnection]
    started after the history [h]. *)
Definition replyToHealth (w : World) (h : list Event) : Reply :=
  w _ h (Get (lit "/health")).

Definition replyToProjects (w : World) (h : list Event) : Reply :=
  w _ (h ++ [Ev (Get (lit "/health")) (replyToHealth w h)])
    (Get (lit "/jira/projects")).

End ProjectContext.

(** ** The context management *)

Module ContextManagement.
Import Net.

Record State := {
  isJiraSyncing : bool;
  isConfluenceSyncing : bool;
  message : option (Stories.Severity * jsstring);
  confluenceSpace : jsstring;
  confluenceQuery : jsstring }.

Definition setIsJiraSyncing (v : bool) (st : State) :=
  {| isJiraSyncing := v; isConfluenceSyncing := isConfluenceSyncing st;
     message := message st; confluenceSpace := confluenceSpace st;
     confluenceQuery := confluenceQuery st |}.
Definition setIsConfluenceSyncing (v : bool) (st : State) :=
  {| isJiraSyncing := isJiraSyncing st; isConfluenceSyncing := v;
     message := message st; confluenceSpace := confluenceSpace st;
     confluenceQuery := confluenceQuery st |}.
Definition setMessage (v : option (Stories.Severity * jsstring))
    (st : State) :=
  {| isJiraSyncing := isJiraSyncing st;
     isConfluenceSyncing := isConfluenceSyncing st;
     message := v; confluenceSpace := confluenceSpace st;
     confluenceQuery := confluenceQuery st |}.

(** The [try] and [catch] blocks of the two handlers after the reply:
    [`Successfully synced ${response.data.message}`], or the failure
    text. *)
Definition synced (failure : jsstring) (r : Reply) (st : State) : State :=
  match r with
  | Resolved data =>
      match member (lit "message") data with
      | Some v =>
          setMessage
            (Some (Stories.success,
                   lit "Successfully synced " ++ toString v)) st
      | None => setMessage (Some (Stories.error, failure)) st
      end
  | Rejected => setMessage (Some (Stories.error, failure)) st
  end.

Definition jiraSyncFailed : jsstring :=
  lit "Failed to sync Jira data. Please check your configuration.".

Definition confluenceSyncFailed : jsstring :=
  lit "Failed to sync Confluence data. Please check your configuration.".

Definition handleJiraSync (selectedProject : option jsstring) (st : State)
  : Prog State :=
  if falsyOpt selectedProject then
    mret (setMessage
            (Some (Stories.error, lit "Please select a project first")) st)
  else
    let project_key := default [] selectedProject in
    let st1 := setMessage None (setIsJiraSyncing true st) in
    r ← Api.post (lit "/sync_jira")
          (JObject [(lit "project_key", JString project_key);
                    (lit "max_results", JNumber (lit "50"))]);
    mret (setIsJiraSyncing false (synced jiraSyncFailed r st1)).

(** [confluenceQuery.trim() || undefined]; a field that is [undefined]
    is left out when the body is sent. *)
Definition searchQuery (confluenceQuery : jsstring) : Json :=
  if falsy (trim confluenceQuery) then JUndefined
  else JString (trim confluenceQuery).

Definition handleConfluenceSync (selectedProject : option jsstring)
    (st : State) : Prog State :=
  if falsyOpt selectedProject then
    mret (setMessage
            (Some (Stories.error, lit "Please select a project first")) st)
  else if falsy (trim (confluenceSpace st)) then
    mret (setMessage
            (Some (Stories.error, lit "Please enter a Confluence space key"))
            st)
  else
    let st1 := setMessage None (setIsConfluenceSyncing true st) in
    r ← Api.post (lit "/sync_confluence")
          (JObject [(lit "space_key", JString (confluenceSpace st));
                    (lit "search_query", searchQuery (confluenceQuery st));
                    (lit "max_results", JNumber (lit "50"))]);
    mret (setIsConfluenceSyncing false (synced confluenceSyncFailed r st1)).

(** The [disabled] attribute of the two sync buttons. *)
Definition jiraDisabled (selectedProject : option jsstring) (st : State)
  : bool :=
  isJiraSyncing st || falsyOpt selectedProject.

Definition confluenceDisabled (selectedProject : option jsstring)
    (st : State) : bool :=
  isConfluenceSyncing st || falsyOpt selectedProject.

End ContextManagement.

(** ** Texts in the format the pattern is written for *)

Module Documents.

(** A story as the assistant writes it: its title, its description and
    the number of blank lines that follow. *)
Definition Block : Type := jsstring * jsstring * nat.

(** The blocks one after the other, each on two lines; the last one may
    end the text without a line feed. *)
Fixpoint document (blocks : list Block) : jsstring :=
  match blocks with
  | [] => []
  | (t, d, n) :: rest =>
      match rest with
      | [] => pair t d ++ repeat LF n
      | _ :: _ => pair t d ++ LF :: repeat LF n ++ document rest
      end
  end.

(** The texts of the matches in such a document: the two lines of a
    block with the line feed that ends them, if there is one. *)
Fixpoint matchTexts (blocks : list Block) : list jsstring :=
  match blocks with
  | [] => []
  | (t, d, n) :: rest =>
      (pair t d ++
       match rest, n with
       | [], O => []
       | _, _ => [LF]
       end) :: matchTexts rest
  end.

(** Title and description are within one line each, and the title does
    not contain the text that starts a description. *)
Definition wellFormed (b : Block) : Prop :=
  oneLine (fst (fst b)) /\ oneLine (snd (fst b)) /\
  ~ occurs (lit "Description: ") (fst (fst b)).

End Documents.

(* ================================================================== *)
(** * Part II: results                                                 *)
(* ================================================================== *)

(** ** The matcher on the constructs of the three patterns *)

Section Matcher.

Context {R : Type}.
Implicit Types (k : jsstring -> captures -> option R) (s : jsstring).

Lemma line_afterLine s : line s ++ afterLine s = s.
Proof.
  induction s as [|x s IH]; simpl; [reflexivity|].
  destruct (isLineTerminator x); simpl; congruence.
Qed.

Lemma oneLine_line s : oneLine (line s).
Proof.
  induction s as [|x s IH]; simpl; [constructor|].
  destruct (isLineTerminator x) eqn:E; constructor; assumption.
Qed.

Lemma line_app t x s :
  oneLine t -> isLineTerminator x = true -> line (t ++ x :: s) = t.
Proof.
  intros Ht Hx. induction Ht as [|y t Hy Ht IH]; simpl.
  - now rewrite Hx.
  - rewrite Hy. now f_equal.
Qed.

Lemma afterLine_app t x s :
  oneLine t -> isLineTerminator x = true -> afterLine (t ++ x :: s) = x :: s.
Proof.
  intros Ht Hx. induction Ht as [|y t Hy Ht IH]; simpl.
  - now rewrite Hx.
  - now rewrite Hy.
Qed.

Lemma line_oneLine t : oneLine t -> line t = t.
Proof.
  induction 1 as [|y t Hy Ht IH]; simpl; [reflexivity|].
  rewrite Hy. now f_equal.
Qed.

Lemma afterLine_oneLine t : oneLine t -> afterLine t = [].
Proof.
  induction 1 as [|y t Hy Ht IH]; simpl; [reflexivity|]. now rewrite Hy.
Qed.

Lemma afterLine_head s x s' :
  afterLine s = x :: s' -> isLineTerminator x = true.
Proof.
  induction s as [|y s IH]; simpl; [discriminate|].
  destruct (isLineTerminator y) eqn:E; [|assumption].
  intros [= -> _]. assumption.
Qed.

Lemma firstn_line s : firstn (length s - length (afterLine s)) s = line s.
Proof.
  rewrite <- (line_afterLine s) at 1 3.
  rewrite length_app, Nat.add_sub.
  rewrite firstn_app, Nat.sub_diag, firstn_all. simpl. apply app_nil_r.
Qed.

(** A literal text matches exactly when the input starts with it. *)
Lemma m_text_app l s c k : m (text l) (l ++ s) c k = k s c.
Proof.
  induction l as [|a l IH]; simpl; [reflexivity|].
  now rewrite N.eqb_refl.
Qed.

Lemma m_text_Some l s c k y :
  m (text l) s c k = Some y -> exists s', s = l ++ s' /\ k s' c = Some y.
Proof.
  revert s. induction l as [|a l IH]; simpl; intros s H.
  - now exists s.
  - destruct s as [|x s]; [discriminate|].
    destruct (N.eqb_spec x a) as [->|]; [|discriminate].
    destruct (IH _ H) as (s' & -> & Hk). now exists s'.
Qed.

(** One step of [.*?]. *)
Lemma m_lazy_dot_nil c k : m (LazyStar Dot) [] c k = k [] c.
Proof. simpl. now destruct (k [] c). Qed.

Lemma m_lazy_dot_cons x s c k :
  m (LazyStar Dot) (x :: s) c k =
  match k (x :: s) c with
  | Some y => Some y
  | None => if isLineTerminator x then None else m (LazyStar Dot) s c k
  end.
Proof.
  simpl. destruct (k (x :: s) c); [reflexivity|].
  destruct (isLineTerminator x); [reflexivity|].
  replace (length s <? S (length s))%nat with true; [reflexivity|].
  symmetry. apply Nat.ltb_lt. lia.
Qed.

(** When what follows cannot start inside a line, [.*?] runs to the end
    of the line. *)
Lemma m_lazy_dot_line s c k :
  stopsAtLineEnd k -> m (LazyStar Dot) s c k = k (afterLine s) c.
Proof.
  intros Hk. induction s as [|x s IH].
  - apply m_lazy_dot_nil.
  - rewrite m_lazy_dot_cons. simpl.
    destruct (isLineTerminator x) eqn:E.
    + now destruct (k (x :: s) c).
    + now rewrite Hk.
Qed.

Lemma m_group_line n s c k :
  stopsAtLineEnd k ->
  m (Group n (LazyStar Dot)) s c k = k (afterLine s) ((n, line s) :: c).
Proof.
  intros Hk. change (m (Group n (LazyStar Dot)) s c k) with
    (m (LazyStar Dot) s c (fun s' c' =>
       k s' ((n, firstn (length s - length s') s) :: c'))).
  rewrite m_lazy_dot_line.
  - now rewrite firstn_line.
  - intros x s' c' Hx. now apply Hk.
Qed.

(** [(?:\n|$)] *)
Lemma m_eol s c k :
  m (Alt (Char LF) Eoi) s c k =
  match s with
  | [] => k [] c
  | x :: s' => if (x =? LF)%N then k s' c else None
  end.
Proof.
  destruct s as [|x s]; simpl; [reflexivity|].
  destruct (x =? LF)%N; [|reflexivity]. now destruct (k s c).
Qed.

Lemma stopsAtLineEnd_eol k :
  stopsAtLineEnd (fun s c => m (Alt (Char LF) Eoi) s c k).
Proof.
  intros x s c Hx. rewrite m_eol.
  destruct (N.eqb_spec x LF) as [->|]; [discriminate|reflexivity].
Qed.

Lemma stopsAtLineEnd_LF (r : regex) k :
  stopsAtLineEnd (fun s c => m (Seq (Char LF) r) s c k).
Proof.
  intros x s c Hx. simpl.
  destruct (N.eqb_spec x LF) as [->|]; [discriminate|reflexivity].
Qed.

End Matcher.

(** ** The three patterns, attempt by attempt *)

Lemma firstn_app_length (A : Type) (a b : list A) :
  firstn (length (a ++ b) - length b) (a ++ b) = a.
Proof.
  rewrite length_app, Nat.add_sub, firstn_app, Nat.sub_diag, firstn_all.
  simpl. apply app_nil_r.
Qed.

Lemma oneLine_lit_title : oneLine (lit "Story Title: ").
Proof. repeat constructor. Qed.

Lemma oneLine_lit_description : oneLine (lit "Description: ").
Proof. repeat constructor. Qed.

Lemma oneLine_app a b : oneLine a -> oneLine b -> oneLine (a ++ b).
Proof. intros. now apply Forall_app. Qed.

(** [(.*?)(?:\n|$)]: the group takes the rest of the line, which must end
    with LF or with the input. *)
Lemma m_field (R : Type) n s c (k : jsstring -> captures -> option R) :
  m (Seq (Group n (LazyStar Dot)) (Alt (Char LF) Eoi)) s c k =
  match afterLine s with
  | [] => k [] ((n, line s) :: c)
  | x :: s' => if (x =? LF)%N then k s' ((n, line s) :: c) else None
  end.
Proof.
  change (m (Seq (Group n (LazyStar Dot)) (Alt (Char LF) Eoi)) s c k)
    with (m (Group n (LazyStar Dot)) s c
            (fun s' c' => m (Alt (Char LF) Eoi) s' c' k)).
  rewrite m_group_line by apply stopsAtLineEnd_eol.
  apply m_eol.
Qed.

(** [(.*?)\n...]: the group takes the rest of the line, which must end
    with LF. *)
Lemma m_line_LF (R : Type) n (r : regex) s c
    (k : jsstring -> captures -> option R) :
  m (Seq (Group n (LazyStar Dot)) (Seq (Char LF) r)) s c k =
  match afterLine s with
  | [] => None
  | x :: s' => if (x =? LF)%N then m r s' ((n, line s) :: c) k else None
  end.
Proof.
  change (m (Seq (Group n (LazyStar Dot)) (Seq (Char LF) r)) s c k)
    with (m (Group n (LazyStar Dot)) s c
            (fun s' c' => m (Seq (Char LF) r) s' c' k)).
  rewrite m_group_line by apply stopsAtLineEnd_LF.
  reflexivity.
Qed.

(** The end of a field: nothing, or LF and what follows the match. *)
Inductive fieldEnd : jsstring -> jsstring -> jsstring -> Prop :=
| end_of_input : fieldEnd [] [] []
| end_of_line (e : jsstring) : fieldEnd (LF :: e) [LF] e.

Lemma field_split n c s (x : result) base :
  match afterLine s with
  | [] => Some (Result (firstn (length (base ++ s) - length (@nil N))
                          (base ++ s)) ((n, line s) :: c) [])
  | y :: s' =>
      if (y =? LF)%N
      then Some (Result (firstn (length (base ++ s) - length s') (base ++ s))
                   ((n, line s) :: c) s')
      else None
  end = Some x ->
  exists d e e1 e2,
    s = d ++ e /\ oneLine d /\ fieldEnd e e1 e2 /\
    x = Result (base ++ d ++ e1) ((n, d) :: c) e2.
Proof.
  intros H. pose proof (line_afterLine s) as Hs.
  pose proof (oneLine_line s) as Hl.
  destruct (afterLine s) as [|y s'] eqn:E.
  - injection H as <-. exists (line s), [], [], []. repeat split.
    + now rewrite Hs.
    + assumption.
    + constructor.
    + simpl. rewrite Nat.sub_0_r, firstn_all. rewrite !app_nil_r in *.
      now rewrite Hs.
  - destruct (N.eqb_spec y LF) as [->|]; [|discriminate].
    injection H as <-. exists (line s), (LF :: s'), [LF], s'. repeat split.
    + now rewrite Hs.
    + assumption.
    + constructor.
    + f_equal. rewrite <- Hs at 1 2.
      replace (base ++ line s ++ LF :: s')
        with ((base ++ line s ++ [LF]) ++ s')
        by now rewrite <- !app_assoc.
      apply firstn_app_length.
Qed.

Lemma field_join n c d e e1 e2 base :
  oneLine d -> fieldEnd e e1 e2 ->
  match afterLine (d ++ e) with
  | [] => Some (Result (firstn (length (base ++ d ++ e) - length (@nil N))
                          (base ++ d ++ e)) ((n, line (d ++ e)) :: c) [])
  | y :: s' =>
      if (y =? LF)%N
      then Some (Result (firstn (length (base ++ d ++ e) - length s')
                           (base ++ d ++ e)) ((n, line (d ++ e)) :: c) s')
      else None
  end = Some (Result (base ++ d ++ e1) ((n, d) :: c) e2).
Proof.
  intros Hd He. destruct He as [|e].
  - rewrite !app_nil_r, afterLine_oneLine, line_oneLine by assumption.
    cbn [length]. now rewrite Nat.sub_0_r, firstn_all.
  - rewrite afterLine_app, line_app by (assumption || reflexivity).
    rewrite N.eqb_refl. do 2 f_equal.
    replace (base ++ d ++ LF :: e) with ((base ++ d ++ [LF]) ++ e)
      by now rewrite <- !app_assoc.
    apply firstn_app_length.
Qed.

Lemma m_line_end (R : Type) n s c (k : jsstring -> captures -> option R) :
  m (Seq (Group n (LazyStar Dot)) (Char LF)) s c k =
  match afterLine s with
  | [] => None
  | x :: s' => if (x =? LF)%N then k s' ((n, line s) :: c) else None
  end.
Proof.
  change (m (Seq (Group n (LazyStar Dot)) (Char LF)) s c k)
    with (m (Group n (LazyStar Dot)) s c
            (fun s' c' => m (Seq (Char LF) Empty) s' c' k)).
  rewrite m_group_line by apply stopsAtLineEnd_LF.
  reflexivity.
Qed.

Section Shapes.

(** The patterns of the component with their literal texts left open. *)
Variables T D : jsstring.

Lemma matchAt_field_shape s x :
  matchAt (Seq (text D) (Seq (Group 1 (LazyStar Dot)) (Alt (Char LF) Eoi))) s
    = Some x <->
  exists d e e1 e2,
    s = D ++ d ++ e /\ oneLine d /\ fieldEnd e e1 e2 /\
    x = Result (D ++ d ++ e1) [(1%nat, d)] e2.
Proof.
  unfold matchAt. split.
  - intros H.
    change (m (Seq ?a ?b) s [] ?k)
      with (m a s [] (fun s' c' => m b s' c' k)) in H.
    apply m_text_Some in H as (s1 & -> & H).
    rewrite m_field in H.
    apply field_split in H as (d & e & e1 & e2 & -> & Hd & He & ->).
    now exists d, e, e1, e2.
  - intros (d & e & e1 & e2 & -> & Hd & He & ->).
    change (m (Seq ?a ?b) ?s [] ?k)
      with (m a s [] (fun s' c' => m b s' c' k)).
    rewrite m_text_app, m_field. now apply field_join.
Qed.

Lemma matchAt_line_shape s x :
  matchAt (Seq (text T) (Seq (Group 1 (LazyStar Dot)) (Char LF))) s = Some x <->
  exists t e,
    s = T ++ t ++ LF :: e /\ oneLine t /\
    x = Result (T ++ t ++ [LF]) [(1%nat, t)] e.
Proof.
  unfold matchAt. split.
  - intros H.
    change (m (Seq ?a ?b) s [] ?k)
      with (m a s [] (fun s' c' => m b s' c' k)) in H.
    apply m_text_Some in H as (s1 & -> & H).
    rewrite m_line_end in H.
    pose proof (line_afterLine s1) as Hs. pose proof (oneLine_line s1) as Hl.
    destruct (afterLine s1) as [|y e]; [discriminate|].
    destruct (N.eqb_spec y LF) as [->|]; [|discriminate].
    injection H as <-. exists (line s1), e. repeat split.
    + now rewrite Hs.
    + assumption.
    + f_equal. rewrite <- Hs at 1 2.
      replace (T ++ line s1 ++ LF :: e) with ((T ++ line s1 ++ [LF]) ++ e)
        by now rewrite <- !app_assoc.
      apply firstn_app_length.
  - intros (t & e & -> & Ht & ->).
    change (m (Seq ?a ?b) ?s [] ?k)
      with (m a s [] (fun s' c' => m b s' c' k)).
    rewrite m_text_app, m_line_end.
    rewrite afterLine_app, line_app by (assumption || reflexivity).
    rewrite N.eqb_refl. do 2 f_equal.
    replace (T ++ t ++ LF :: e) with ((T ++ t ++ [LF]) ++ e)
      by now rewrite <- !app_assoc.
    apply firstn_app_length.
Qed.

Lemma matchAt_pair_shape s x :
  matchAt (Seq (text T)
            (Seq (Group 1 (LazyStar Dot))
              (Seq (Char LF)
                (Seq (text D)
                  (Seq (Group 2 (LazyStar Dot)) (Alt (Char LF) Eoi)))))) s
    = Some x <->
  exists t d e e1 e2,
    s = (T ++ t ++ LF :: D ++ d) ++ e /\ oneLine t /\ oneLine d /\
    fieldEnd e e1 e2 /\
    x = Result ((T ++ t ++ LF :: D ++ d) ++ e1) [(2%nat, d); (1%nat, t)] e2.
Proof.
  unfold matchAt. split.
  - intros H.
    change (m (Seq ?a ?b) s [] ?k)
      with (m a s [] (fun s' c' => m b s' c' k)) in H.
    apply m_text_Some in H as (s1 & -> & H).
    rewrite m_line_LF in H.
    pose proof (line_afterLine s1) as Hs. pose proof (oneLine_line s1) as Hl.
    remember (line s1) as t eqn:Et. clear Et.
    destruct (afterLine s1) as [|y s2]; [discriminate|].
    destruct (N.eqb_spec y LF) as [->|]; [|discriminate].
    subst s1.
    change (m (Seq ?a ?b) s2 ?c ?k)
      with (m a s2 c (fun s' c' => m b s' c' k)) in H.
    apply m_text_Some in H as (s3 & -> & H).
    rewrite m_field in H.
    replace (T ++ t ++ LF :: D ++ s3) with ((T ++ t ++ LF :: D) ++ s3)
      in H by (rewrite <- !app_assoc; cbn [app]; reflexivity).
    apply field_split in H as (d & e & e1 & e2 & -> & Hd & He & ->).
    exists t, d, e, e1, e2. repeat split; try assumption.
    + rewrite <- !app_assoc. cbn [app]. now rewrite <- ?app_assoc.
    + rewrite <- !app_assoc. cbn [app]. now rewrite <- ?app_assoc.
  - intros (t & d & e & e1 & e2 & -> & Ht & Hd & He & ->).
    change (m (Seq ?a ?b) ?s [] ?k)
      with (m a s [] (fun s' c' => m b s' c' k)).
    rewrite <- ?app_assoc. rewrite m_text_app, m_line_LF.
    cbn [app]. rewrite <- ?app_assoc.
    rewrite afterLine_app, line_app by (assumption || reflexivity).
    rewrite N.eqb_refl.
    change (m (Seq ?a ?b) ?s ?c ?k)
      with (m a s c (fun s' c' => m b s' c' k)).
    rewrite m_text_app, m_field.
    pose proof (field_join 2 [(1%nat, t)] (T ++ t ++ LF :: D) Hd He) as HJ.
    rewrite <- ?app_assoc in HJ. cbn [app] in HJ. rewrite <- ?app_assoc in HJ.
    exact HJ.
Qed.

End Shapes.

(** An attempt of [/Description: (.*?)(?:\n|$)/]. *)
Lemma matchAt_descRe s x :
  matchAt Chat.descRe s = Some x <->
  exists d e e1 e2,
    s = lit "Description: " ++ d ++ e /\ oneLine d /\ fieldEnd e e1 e2 /\
    x = Result (lit "Description: " ++ d ++ e1) [(1%nat, d)] e2.
Proof. apply matchAt_field_shape. Qed.

(** An attempt of [/Story Title: (.*?)\n/]. *)
Lemma matchAt_titleRe s x :
  matchAt Chat.titleRe s = Some x <->
  exists t e,
    s = lit "Story Title: " ++ t ++ LF :: e /\ oneLine t /\
    x = Result (lit "Story Title: " ++ t ++ [LF]) [(1%nat, t)] e.
Proof. apply matchAt_line_shape. Qed.

(** An attempt of [/Story Title: (.*?)\nDescription: (.*?)(?:\n|$)/]. *)
Lemma matchAt_storyRe s x :
  matchAt Chat.storyRe s = Some x <->
  exists t d e e1 e2,
    s = pair t d ++ e /\ oneLine t /\ oneLine d /\ fieldEnd e e1 e2 /\
    x = Result (pair t d ++ e1) [(2%nat, d); (1%nat, t)] e2.
Proof. apply matchAt_pair_shape. Qed.

(** ** Searching: [exec] and the global match *)

Lemma exec_Some r s x :
  exec r s = Some x -> exists pre s', s = pre ++ s' /\ matchAt r s' = Some x.
Proof.
  induction s as [|a s IH]; cbn [exec]; intros H.
  - destruct (matchAt r []) eqn:E; [|discriminate].
    injection H as ->. now exists [], [].
  - destruct (matchAt r (a :: s)) eqn:E.
    + injection H as ->. now exists [], (a :: s).
    + destruct (IH H) as (pre & s' & -> & Hm). now exists (a :: pre), s'.
Qed.

Lemma exec_found r pre s x :
  matchAt r s = Some x -> exists y, exec r (pre ++ s) = Some y.
Proof.
  intros H. induction pre as [|a pre IH]; cbn [app].
  - destruct s; cbn [exec]; rewrite H; eauto.
  - cbn [exec]. destruct (matchAt r (a :: pre ++ s)); eauto.
Qed.

Lemma exec_here r s x : matchAt r s = Some x -> exec r s = Some x.
Proof. intros H. destruct s; cbn [exec]; now rewrite H. Qed.

Lemma exec_next r a s :
  matchAt r (a :: s) = None -> exec r (a :: s) = exec r s.
Proof. intros H. cbn [exec]. now rewrite H. Qed.

Lemma exec_nil_None r : matchAt r [] = None -> exec r [] = None.
Proof. intros H. cbn [exec]. now rewrite H. Qed.

(** The end of a field splits into what the match takes and what it
    leaves. *)
Lemma fieldEnd_app e e1 e2 : fieldEnd e e1 e2 -> e = e1 ++ e2.
Proof. now destruct 1. Qed.

Lemma fieldEnd_own e e1 e2 : fieldEnd e e1 e2 -> fieldEnd e1 e1 [].
Proof. destruct 1; constructor. Qed.

Lemma pair_not_nil t d e : pair t d ++ e <> [].
Proof. unfold pair. intros H. apply (f_equal (@length _)) in H.
  rewrite !length_app in H. cbn in H. lia. Qed.

(** Every text that [storyMatch] returns is a title line followed by a
    description line, found in the response. *)
Lemma matchesFrom_storyRe n s mm :
  In mm (matchesFrom n Chat.storyRe s) ->
  exists pre t d e e1 e2,
    s = pre ++ pair t d ++ e /\ oneLine t /\ oneLine d /\
    fieldEnd e e1 e2 /\ mm = pair t d ++ e1.
Proof.
  revert s. induction n as [|n IH]; intros s; cbn [matchesFrom];
    [intros []|].
  destruct (exec Chat.storyRe s) as [x|] eqn:E; [|intros []].
  apply exec_Some in E as (pre & s' & -> & E).
  apply matchAt_storyRe in E as (t & d & e & e1 & e2 & -> & Ht & Hd & He & ->).
  cbn [matched rest]. intros [<-|H].
  - now exists pre, t, d, e, e1, e2.
  - destruct (pair t d ++ e1) eqn:Ep; [now apply pair_not_nil in Ep|].
    apply IH in H as (pre' & t' & d' & e' & e1' & e2' & -> & ? & ? & ? & ->).
    exists (pre ++ pair t d ++ e1 ++ pre'), t', d', e', e1', e2'.
    repeat split; try assumption.
    rewrite (fieldEnd_app He). now rewrite <- !app_assoc.
Qed.

Lemma storyMatch_In response matches mm :
  Chat.storyMatch response = Some matches -> In mm matches ->
  exists pre t d e e1 e2,
    response = pre ++ pair t d ++ e /\ oneLine t /\ oneLine d /\
    fieldEnd e e1 e2 /\ mm = pair t d ++ e1.
Proof.
  unfold Chat.storyMatch, matchGlobal. intros H Hin.
  destruct (matchesFrom _ _ _) eqn:E; [discriminate|].
  injection H as <-. rewrite <- E in Hin.
  now apply matchesFrom_storyRe in Hin.
Qed.

(** On such a text both inner patterns match: the defaults of the
    callback are never taken. *)
Lemma titleMatch_pair t d e1 :
  oneLine t -> Chat.titleMatch (pair t d ++ e1) = Some t.
Proof.
  intros Ht. unfold Chat.titleMatch.
  rewrite (@exec_here _ _
    (Result (lit "Story Title: " ++ t ++ [LF]) [(1%nat, t)]
       (lit "Description: " ++ d ++ e1))); [reflexivity|].
  apply matchAt_titleRe. exists t, (lit "Description: " ++ d ++ e1).
  repeat split; [|assumption]. unfold pair.
  rewrite <- ?app_assoc. cbn [app]. now rewrite <- ?app_assoc.
Qed.

Lemma ends_with_LF (a b c : jsstring) :
  a ++ [LF] = b ++ c -> oneLine c -> c = [].
Proof.
  intros H Hc. destruct c as [|z c] using rev_ind; [reflexivity|].
  rewrite app_assoc in H. apply app_inj_tail in H as [_ <-].
  apply Forall_app in Hc as [_ Hc]. inversion Hc as [|? ? Hz]. discriminate.
Qed.

Lemma descMatch_pair t d e e1 e2 :
  oneLine t -> oneLine d -> fieldEnd e e1 e2 ->
  exists pre dd post,
    Chat.descMatch (pair t d ++ e1) = Some dd /\
    pair t d ++ e = pre ++ lit "Description: " ++ dd ++ post /\
    oneLine dd /\
    (post = e2 /\ e1 = [] \/ exists post', post = LF :: post').
Proof.
  intros Ht Hd He. unfold Chat.descMatch.
  assert (exists y, exec Chat.descRe (pair t d ++ e1) = Some y) as [y Hy].
  { unfold pair.
    replace ((lit "Story Title: " ++ t ++ LF :: lit "Description: " ++ d)
             ++ e1)
      with ((lit "Story Title: " ++ t ++ [LF])
            ++ lit "Description: " ++ d ++ e1)
      by (rewrite <- ?app_assoc; cbn [app]; now rewrite <- ?app_assoc).
    eapply exec_found. apply matchAt_descRe.
    exists d, e1, e1, []. repeat split; [assumption|].
    eapply fieldEnd_own; eassumption. }
  rewrite Hy. apply exec_Some in Hy as (pre & s' & Hs & Hy).
  apply matchAt_descRe in Hy as (dd & e' & e1' & e2' & -> & Hdd & He' & ->).
  cbn [groups capture Nat.eqb]. exists pre, dd, (e' ++ e2).
  split; [reflexivity|]. split; [|split; [assumption|]].
  - rewrite (fieldEnd_app He), app_assoc, Hs. now rewrite <- !app_assoc.
  - destruct He' as [|e'']; [|right; eauto].
    left. split; [reflexivity|].
    destruct He as [|e]; [reflexivity|]. exfalso.
    rewrite app_nil_r in Hs.
    assert (lit "Description: " ++ dd = []) as Hnil.
    { eapply ends_with_LF; [exact Hs|].
      apply oneLine_app; [apply oneLine_lit_description|assumption]. }
    apply (f_equal (@length _)) in Hnil. rewrite length_app in Hnil.
    change (length (lit "Description: ")) with 13%nat in Hnil.
    discriminate Hnil.
Qed.

(** ** The matcher consumes input, and the fuel of the global match *)

(** Whatever the pattern, the continuation is entered on a suffix of the
    input. *)
Lemma m_suffix (R : Type) (r : regex) :
  forall s c (k : jsstring -> captures -> option R) y,
    m r s c k = Some y ->
    exists p s' c', s = p ++ s' /\ k s' c' = Some y.
Proof.
  induction r as [|a| | |r1 IH1 r2 IH2|r1 IH1 r2 IH2|r IH|n r IH];
    intros s c k y H.
  - exists [], s, c. now split.
  - destruct s as [|x s]; cbn [m] in H; [discriminate|].
    destruct (x =? a)%N; [|discriminate]. exists [x], s, c. now split.
  - destruct s as [|x s]; cbn [m] in H; [discriminate|].
    destruct (isLineTerminator x); [discriminate|].
    exists [x], s, c. now split.
  - destruct s as [|x s]; cbn [m] in H; [|discriminate].
    exists [], [], c. now split.
  - cbn [m] in H. apply IH1 in H as (p1 & s1 & c1 & -> & H).
    apply IH2 in H as (p2 & s2 & c2 & -> & H).
    exists (p1 ++ p2), s2, c2. split; [now rewrite app_assoc|assumption].
  - cbn [m] in H. destruct (m r1 s c k) eqn:E.
    + injection H as ->. now apply IH1 in E.
    + now apply IH2 in H.
  - cbn [m] in H. revert H. generalize (length s) at 1. intros fuel.
    revert s c. induction fuel as [|fuel IHf]; intros s c H.
    + destruct (k s c) eqn:E; [|discriminate]. injection H as ->.
      exists [], s, c. now split.
    + destruct (k s c) eqn:E.
      * injection H as ->. exists [], s, c. now split.
      * apply IH in H as (p1 & s1 & c1 & -> & H).
        destruct (length s1 <? length (p1 ++ s1))%nat; [|discriminate].
        apply IHf in H as (p2 & s2 & c2 & -> & H).
        exists (p1 ++ p2), s2, c2.
        split; [now rewrite app_assoc|assumption].
  - cbn [m] in H. apply IH in H as (p & s' & c' & -> & H). eauto.
Qed.

(** A match and what follows it make up the input of the attempt. *)
Lemma matchAt_split r s x :
  matchAt r s = Some x -> s = matched x ++ rest x.
Proof.
  unfold matchAt. intros H.
  apply m_suffix in H as (p & s' & c' & -> & [= <-]). cbn [matched rest].
  now rewrite firstn_app_length.
Qed.

Lemma exec_split r s x :
  exec r s = Some x -> exists pre, s = pre ++ matched x ++ rest x.
Proof.
  intros H. apply exec_Some in H as (pre & s' & -> & H).
  exists pre. now rewrite <- (matchAt_split H).
Qed.

(** The fuel of the global match never runs out: more fuel than the
    length of the input changes nothing, so [matchGlobal] is the loop of
    [String.prototype.match]. *)
Lemma matchesFrom_fuel r n n' s :
  (length s < n)%nat -> (length s < n')%nat ->
  matchesFrom n r s = matchesFrom n' r s.
Proof.
  revert n' s. induction n as [|n IH]; intros n' s Hn Hn'; [lia|].
  destruct n' as [|n']; [lia|]. cbn [matchesFrom].
  destruct (exec r s) as [x|] eqn:E; [|reflexivity]. f_equal.
  apply exec_split in E as (pre & E).
  assert (length s = length pre + length (matched x) + length (rest x))%nat
    as El by (rewrite E, !length_app; lia).
  destruct (matched x) as [|a l]; destruct (rest x) as [|b l'];
    try reflexivity; cbn [length] in El; apply IH; cbn [length]; lia.
Qed.

Lemma matchesFrom_S r n s :
  matchesFrom (S n) r s =
  match exec r s with
  | None => []
  | Some x =>
      matched x ::
      match matched x, rest x with
      | [], [] => []
      | [], _ :: s' => matchesFrom n r s'
      | _ :: _, s' => matchesFrom n r s'
      end
  end.
Proof. reflexivity. Qed.

Lemma matchesFrom_unfold r s :
  matchesFrom (S (length s)) r s =
  match exec r s with
  | None => []
  | Some x =>
      matched x ::
      match matched x, rest x with
      | [], [] => []
      | [], _ :: s' => matchesFrom (S (length s')) r s'
      | _ :: _, s' => matchesFrom (S (length s')) r s'
      end
  end.
Proof.
  rewrite matchesFrom_S. destruct (exec r s) as [x|] eqn:E; [|reflexivity].
  f_equal. apply exec_split in E as (pre & E).
  assert (length s = length pre + length (matched x) + length (rest x))%nat
    as El by (rewrite E, !length_app; lia).
  destruct (matched x) as [|a l]; destruct (rest x) as [|b l'];
    try reflexivity; cbn [length] in El; apply matchesFrom_fuel;
    cbn [length]; lia.
Qed.

(** ** Running handlers *)

Lemma run_bind (A B : Type) (w : World) (p : Prog A) (f : A -> Prog B) h :
  run w h (bind p f) = run w (fst (run w h p)) (f (snd (run w h p))).
Proof.
  revert h. induction p as [a|X c k IH]; intros h; cbn [bind run fst snd].
  - reflexivity.
  - apply IH.
Qed.

Lemma run_mbind (A B : Type) (w : World) (p : Prog A) (f : A -> Prog B) h :
  run w h (p ≫= f) = run w (fst (run w h p)) (f (snd (run w h p))).
Proof. apply run_bind. Qed.

Lemma requests_app h h' : requests (h ++ h') = requests h ++ requests h'.
Proof. apply omap_app. Qed.

(** What a candidate carries besides its id. *)
Lemma run_storyOf w h mm :
  snd (run w h (Chat.storyOf mm)) =
    {| id := toStringN (w _ h DateNow)
               ++ w _ (h ++ [Ev DateNow (w _ h DateNow)]) MathRandom;
       title := default (lit "Untitled Story") (Chat.titleMatch mm);
       description := default (lit "No description") (Chat.descMatch mm);
       published := false |}
  /\ requests (fst (run w h (Chat.storyOf mm))) = requests h.
Proof.
  split; [reflexivity|]. cbn. rewrite !requests_app. cbn.
  now rewrite !app_nil_r.
Qed.

Lemma run_stories w h matches :
  Forall2 (fun mm c =>
      title c = default (lit "Untitled Story") (Chat.titleMatch mm) /\
      description c = default (lit "No description") (Chat.descMatch mm) /\
      published c = false)
    matches (snd (run w h (mapM Chat.storyOf matches)))
  /\ requests (fst (run w h (mapM Chat.storyOf matches))) = requests h.
Proof.
  revert h. induction matches as [|mm l IH]; intros h; cbn [mapM].
  - split; [constructor|reflexivity].
  - rewrite run_bind, run_bind. cbn [run fst snd].
    destruct (run_storyOf w h mm) as [Hc Hr].
    destruct (IH (fst (run w h (Chat.storyOf mm)))) as [Hl Hr'].
    split.
    + constructor; [|exact Hl]. rewrite Hc. now cbn.
    + now rewrite Hr', Hr.
Qed.

Lemma run_extract_In w h response c :
  In c (snd (run w h (Chat.extract response))) ->
  exists matches mm,
    Chat.storyMatch response = Some matches /\ In mm matches /\
    title c = default (lit "Untitled Story") (Chat.titleMatch mm) /\
    description c = default (lit "No description") (Chat.descMatch mm) /\
    published c = false.
Proof.
  unfold Chat.extract.
  destruct (Chat.storyMatch response) as [l|]; [|intros []].
  intros Hin. destruct (run_stories w h l) as [HF _].
  exists l. revert Hin. induction HF as [|mm c' l l' H HF IH]; [intros []|].
  intros [<-|Hin].
  - exists mm. split; [reflexivity|]. split; [now left|assumption].
  - destruct (IH Hin) as (mm' & _ & ? & ?). exists mm'.
    split; [reflexivity|]. split; [now right|assumption].
Qed.

(** ** Extraction: the candidates of a generated text *)

(** Both fields of every candidate come from the text: the branches
    ['Untitled Story'] and ['No description'] of the callback cannot be
    reached. *)
Lemma candidate_fields w h response c :
  In c (snd (run w h (Chat.extract response))) ->
  exists pre t d e e1 e2,
    response = pre ++ pair t d ++ e /\ oneLine t /\ oneLine d /\
    fieldEnd e e1 e2 /\
    Chat.titleMatch (pair t d ++ e1) = Some (title c) /\
    Chat.descMatch (pair t d ++ e1) = Some (description c).
Proof.
  intros Hin.
  apply run_extract_In in Hin as (l & mm & Hl & Hmm & Ht & Hd & _).
  destruct (storyMatch_In Hl Hmm)
    as (pre & t & d & e & e1 & e2 & -> & Hot & Hod & He & ->).
  exists pre, t, d, e, e1, e2. repeat split; try assumption.
  - rewrite Ht. now rewrite titleMatch_pair.
  - rewrite Hd.
    destruct (descMatch_pair Hot Hod He) as (? & dd & ? & -> & _).
    reflexivity.
Qed.

(** C10.  The description of every extracted candidate is a piece of the
    generated text that stands right after an occurrence of
    ["Description: "], contains no line terminator, and is followed by a
    newline or by the end of the text: of a description that runs over
    several lines only the first line is kept. *)
Theorem description_is_one_line w h response c :
  In c (snd (run w h (Chat.extract response))) ->
  exists pre post,
    response = pre ++ lit "Description: " ++ description c ++ post /\
    oneLine (description c) /\
    (post = [] \/ exists post', post = LF :: post').
Proof.
  intros Hin.
  apply candidate_fields in Hin
    as (pre & t & d & e & e1 & e2 & -> & Ht & Hd & He & _ & Hdesc).
  destruct (descMatch_pair Ht Hd He)
    as (pre' & dd & post & Hdd & Hsplit & Hone & Hpost).
  rewrite Hdd in Hdesc. injection Hdesc as <-.
  exists (pre ++ pre'), post. split; [|split; [assumption|]].
  - rewrite Hsplit. now rewrite <- !app_assoc.
  - destruct Hpost as [[-> ->]|]; [|now right].
    inversion He; subst. now left.
Qed.

Lemma description_is_one_line_witness :
  In (Samples.loginStory "10000.5")
     (snd (run (Samples.world 1000 "0.5" Rejected) []
             (Chat.extract Samples.twoLines))) /\
  exists pre post,
    Samples.twoLines
      = pre ++ lit "Description: " ++ lit "As a user I want to log in" ++ post
    /\ oneLine (lit "As a user I want to log in")
    /\ (post = [] \/ exists post', post = LF :: post').
Proof.
  split.
  - vm_compute. left. reflexivity.
  - apply (@description_is_one_line (Samples.world 1000 "0.5" Rejected) []
             Samples.twoLines (Samples.loginStory "10000.5")).
    vm_compute. left. reflexivity.
Defined.

(** C1.  A title marker that no description line follows gives no
    candidate at all: on the text "Story Title: Login page", newline,
    "As a user I want to log in." the response has no match of the story
    pattern, so the callback with its ['No description'] default is never
    run for that marker. *)
Theorem title_without_description_is_dropped w h :
  run w h (Chat.extract Samples.titleOnly) = (h, []).
Proof.
  assert (Chat.extract Samples.titleOnly = mret []) as ->
    by (vm_compute; reflexivity).
  reflexivity.
Qed.

(** C2.  On two well-formed pairs whose first title contains the text
    "Description: ", the description of the first candidate is cut out of
    its title ("asc") and is not the description that the pattern captured
    ("As a user I can sort"). *)
Theorem description_taken_from_title w h :
  List.map (fun c => (title c, description c))
    (snd (run w h (Chat.extract Samples.sortStory)))
  = [ (lit "Sort by Description: asc", lit "asc");
      (lit "Export", lit "As a user I can export") ].
Proof. vm_compute. reflexivity. Qed.

(** Extraction sends nothing: it only reads the clock and the random
    number generator. *)
Lemma extract_requests w h response :
  requests (fst (run w h (Chat.extract response))) = requests h.
Proof.
  unfold Chat.extract. destruct (Chat.storyMatch response); [|reflexivity].
  apply run_stories.
Qed.

(** The ids of two runs on the same text differ with the clock. *)
Lemma extraction_ids_differ :
  snd (run (Samples.world 1000 "0.5" Rejected) []
         (Chat.extract Samples.twoLines))
  <> snd (run (Samples.world 2000 "0.5" Rejected) []
            (Chat.extract Samples.twoLines)).
Proof. vm_compute. discriminate. Qed.

(** What the extraction does besides computing: for each candidate it
    reads the clock and then the random number generator, and the id of
    the candidate is the one followed by the other. *)
Lemma run_stories_readings (w : World) matches : forall h,
  exists readings : list (N * jsstring),
    fst (run w h (mapM Chat.storyOf matches))
      = h ++ flat_map reading readings /\
    List.map Effects.id (snd (run w h (mapM Chat.storyOf matches)))
      = List.map (fun nr => toStringN (fst nr) ++ snd nr) readings.
Proof.
  induction matches as [|mm l IH]; intros h; cbn [mapM].
  - exists []. cbn. now rewrite app_nil_r.
  - rewrite run_bind, run_bind. cbn [run fst snd].
    assert (run w h (Chat.storyOf mm)
            = ((h ++ [Ev DateNow (w _ h DateNow)]) ++
               [Ev MathRandom
                  (w _ (h ++ [Ev DateNow (w _ h DateNow)]) MathRandom)],
               {| Effects.id :=
                    toStringN (w _ h DateNow)
                    ++ w _ (h ++ [Ev DateNow (w _ h DateNow)]) MathRandom;
                  title := default (lit "Untitled Story")
                             (Chat.titleMatch mm);
                  description := default (lit "No description")
                                   (Chat.descMatch mm);
                  published := false |})) as -> by reflexivity.
    cbn [fst snd].
    destruct (IH ((h ++ [Ev DateNow (w _ h DateNow)]) ++
                  [Ev MathRandom
                     (w _ (h ++ [Ev DateNow (w _ h DateNow)]) MathRandom)]))
      as (readings & -> & Hid).
    exists ((w _ h DateNow,
             w _ (h ++ [Ev DateNow (w _ h DateNow)]) MathRandom)
            :: readings).
    cbn [flat_map reading fst snd List.map Effects.id]. rewrite Hid.
    split; [|reflexivity]. rewrite <- !app_assoc. reflexivity.
Qed.

(** C3, amended.  Two runs of the extraction on the same text, in any two
    worlds and after any two histories, give candidates that agree, one by
    one and in the same order, on title, description and published flag.
    The extraction has no effect but reading the clock and the random
    number generator, once each for every candidate: nothing else is
    added to the history (no request, no alert, no log).  The id of each
    candidate is the clock followed by the random number it read, so it
    is not determined by the text. *)
Theorem extraction_deterministic_up_to_ids w1 h1 w2 h2 response :
  Forall2 (fun a b =>
      title a = title b /\ description a = description b /\
      published a = published b)
    (snd (run w1 h1 (Chat.extract response)))
    (snd (run w2 h2 (Chat.extract response)))
  /\ exists readings : list (N * jsstring),
       fst (run w1 h1 (Chat.extract response))
         = h1 ++ flat_map reading readings /\
       List.map Effects.id (snd (run w1 h1 (Chat.extract response)))
         = List.map (fun nr => toStringN (fst nr) ++ snd nr) readings.
Proof.
  unfold Chat.extract. destruct (Chat.storyMatch response) as [l|].
  2:{ split; [constructor|]. exists []. cbn. now rewrite app_nil_r. }
  split; [|apply run_stories_readings].
  destruct (run_stories w1 h1 l) as [H1 _].
  destruct (run_stories w2 h2 l) as [H2 _].
  revert H2. generalize (snd (run w2 h2 (mapM Chat.storyOf l))).
  induction H1 as [|mm a l l1 Ha H1 IH]; intros l2 H2;
    inversion H2 as [|? b ? l2' Hb H2']; subst; constructor.
  - destruct Ha as (-> & -> & ->), Hb as (-> & -> & ->). auto.
  - now apply IH.
Qed.

(** ** The chat turn *)

(** The loop over the candidates sends one request for each of them,
    whatever the back end answers to any of them. *)
Lemma storeStories_requests w h pk stories :
  requests (fst (run w h (Chat.storeStories pk stories)))
  = requests h ++ List.map (storeRequest pk) stories.
Proof.
  revert h. induction stories as [|s l IH]; intros h; cbn [Chat.storeStories].
  - cbn. now rewrite app_nil_r.
  - rewrite run_mbind. cbn [call run fst snd].
    destruct (w Reply h _) eqn:E.
    + rewrite run_mbind. cbn [call run fst snd]. rewrite IH.
      rewrite !requests_app. cbn. rewrite app_nil_r, <- app_assoc. reflexivity.
    + rewrite IH. rewrite !requests_app. cbn. rewrite <- app_assoc. reflexivity.
Qed.

Lemma run_sendFailed w h st :
  exists failure,
    snd (run w h (Chat.sendFailed st))
      = Chat.setMessages (fun prev => prev ++ [failure]) st /\
    Chat.msg_type failure = Chat.assistant /\
    Chat.content failure
      = Some (lit "Failed to process your message. Please try again.") /\
    Chat.generatedStories failure = None /\
    requests (fst (run w h (Chat.sendFailed st))) = requests h.
Proof.
  eexists. split; [reflexivity|]. repeat split.
  cbn. rewrite !requests_app. cbn. now rewrite !app_nil_r.
Qed.

(** What the [try] block leaves behind, by the reply to the chat request. *)
Lemma run_sendReplied w h pk r st :
  exists assistantMessage,
    snd (run w h (Chat.sendReplied pk r st))
      = Chat.setMessages (fun prev => prev ++ [assistantMessage]) st /\
    Chat.msg_type assistantMessage = Chat.assistant /\
    requests (fst (run w h (Chat.sendReplied pk r st)))
      = requests h ++
        List.map (storeRequest pk)
          (default [] (Chat.generatedStories assistantMessage)) /\
    match r with
    | Rejected =>
        Chat.content assistantMessage
          = Some (lit "Failed to process your message. Please try again.") /\
        Chat.generatedStories assistantMessage = None
    | Resolved data =>
        match data ≫= response with
        | None =>
            Chat.content assistantMessage
              = Some (lit "Failed to process your message. Please try again.")
            /\ Chat.generatedStories assistantMessage = None
        | Some answer => Chat.content assistantMessage = Some answer
        end
    end.
Proof.
  assert (Hfail : exists failure,
    snd (run w h (Chat.sendFailed st))
      = Chat.setMessages (fun prev => prev ++ [failure]) st /\
    Chat.msg_type failure = Chat.assistant /\
    requests (fst (run w h (Chat.sendFailed st)))
      = requests h ++
        List.map (storeRequest pk)
          (default [] (Chat.generatedStories failure)) /\
    Chat.content failure
      = Some (lit "Failed to process your message. Please try again.") /\
    Chat.generatedStories failure = None).
  { destruct (run_sendFailed w h st) as (f & ? & ? & ? & Hg & Hr).
    exists f. rewrite Hg, Hr. cbn. rewrite app_nil_r. auto. }
  destruct r as [|data]; cbn [Chat.sendReplied].
  - destruct Hfail as (f & ? & ? & ? & ? & ?). exists f. auto.
  - destruct (data ≫= response) as [answer|].
    2:{ destruct Hfail as (f & ? & ? & ? & ? & ?). exists f. auto. }
    rewrite run_mbind. cbn [call run fst snd].
    rewrite run_mbind. cbn [call run fst snd].
    destruct (Chat.storyMatch answer) as [matches|].
    2:{ eexists. split; [reflexivity|]. cbn. rewrite !requests_app. cbn.
        rewrite !app_nil_r. auto. }
    rewrite run_mbind.
    destruct (run_stories w ((h ++ [Ev DateNow (w N h DateNow)]) ++
      [Ev DateNow (w N (h ++ [Ev DateNow (w N h DateNow)]) DateNow)]) matches)
      as [_ Hr].
    destruct (snd (run w _ (mapM Chat.storyOf matches))) as [|c l] eqn:El.
    + cbn [length Nat.ltb Nat.leb]. eexists. split; [reflexivity|].
      cbn [run fst snd mret Prog_ret]. rewrite Hr, !requests_app. cbn.
      rewrite !app_nil_r. auto.
    + cbn [length Nat.ltb Nat.leb]. rewrite run_mbind.
      eexists. split; [reflexivity|].
      cbn [run fst snd mret Prog_ret]. rewrite storeStories_requests, Hr.
      rewrite !requests_app. cbn. rewrite !app_nil_r. auto.
Qed.

Lemma run_handleSend w h pk st :
  falsy (trim (Chat.input st)) = false -> falsy pk = false ->
  exists userMessage h3,
    Chat.msg_type userMessage = Chat.user /\
    Chat.content userMessage = Some (Chat.input st) /\
    requests h3 = requests h ++ [(lit "/chat", ChatBody (Chat.input st) pk)] /\
    let st1 :=
      Chat.setIsLoading true
        (Chat.setInput []
           (Chat.setMessages (fun prev => prev ++ [userMessage]) st)) in
    let out := run w h3 (Chat.sendReplied pk (replyToChat w h pk st) st1) in
    run w h (Chat.handleSend (Some pk) st)
      = (fst out, Chat.setIsLoading false (snd out)).
Proof.
  intros Hin Hpk. unfold Chat.handleSend. cbn [falsyOpt]. rewrite Hin, Hpk.
  cbn [orb default from_option Datatypes.id].
  do 3 (rewrite run_mbind; cbn [call run fst snd]).
  rewrite run_mbind. cbn [run mret Prog_ret].
  eexists. eexists. split; [|split; [|split; [|reflexivity]]].
  - reflexivity.
  - reflexivity.
  - rewrite !requests_app. cbn. now rewrite !app_nil_r.
Qed.

(** The turn up to the reply, with the history at that moment. *)
Lemma run_handleSend_at w h pk st :
  falsy (trim (Chat.input st)) = false -> falsy pk = false ->
  exists userMessage,
    Chat.msg_type userMessage = Chat.user /\
    Chat.content userMessage = Some (Chat.input st) /\
    requests (historyAtReply w h pk st)
      = requests h ++ [(lit "/chat", ChatBody (Chat.input st) pk)] /\
    let st1 :=
      Chat.setIsLoading true
        (Chat.setInput []
           (Chat.setMessages (fun prev => prev ++ [userMessage]) st)) in
    let out := run w (historyAtReply w h pk st)
                 (Chat.sendReplied pk (replyToChat w h pk st) st1) in
    run w h (Chat.handleSend (Some pk) st)
      = (fst out, Chat.setIsLoading false (snd out)).
Proof.
  intros Hin Hpk. unfold Chat.handleSend. cbn [falsyOpt]. rewrite Hin, Hpk.
  cbn [orb default from_option Datatypes.id].
  do 3 (rewrite run_mbind; cbn [call run fst snd]).
  rewrite run_mbind. cbn [run mret Prog_ret].
  eexists. split; [|split; [|split; [|reflexivity]]].
  - reflexivity.
  - reflexivity.
  - unfold historyAtReply. rewrite !requests_app. cbn.
    now rewrite !app_nil_r.
Qed.

(** The [try] block on a reply that carries a text: the stories that the
    assistant's message carries, and that are sent to the store, are the
    candidates extracted from the text after the two readings of the
    clock for the message. *)
Lemma run_sendReplied_batch (w : World) h pk (data : option Data) answer st :
  data ≫= response = Some answer ->
  let now := w _ h DateNow in
  let h1 := h ++ [Ev DateNow now] in
  let h2 := h1 ++ [Ev DateNow (w _ h1 DateNow)] in
  let stories := snd (run w h2 (Chat.extract answer)) in
  exists assistantMessage,
    snd (run w h (Chat.sendReplied pk (Resolved data) st))
      = Chat.setMessages (fun prev => prev ++ [assistantMessage]) st /\
    Chat.msg_type assistantMessage = Chat.assistant /\
    Chat.content assistantMessage = Some answer /\
    Chat.attachments assistantMessage = None /\
    Chat.generatedStories assistantMessage
      = match stories with [] => None | _ :: _ => Some stories end /\
    requests (fst (run w h (Chat.sendReplied pk (Resolved data) st)))
      = requests h ++ List.map (storeRequest pk) stories.
Proof.
  intros Ha. cbv zeta. cbn [Chat.sendReplied]. rewrite Ha.
  rewrite run_mbind. cbn [call run fst snd].
  rewrite run_mbind. cbn [call run fst snd].
  unfold Chat.extract.
  destruct (Chat.storyMatch answer) as [matches|].
  2:{ eexists. split; [reflexivity|]. cbn. rewrite !requests_app. cbn.
      rewrite !app_nil_r. auto 10. }
  rewrite run_mbind.
  destruct (run_stories w ((h ++ [Ev DateNow (w N h DateNow)]) ++
    [Ev DateNow (w N (h ++ [Ev DateNow (w N h DateNow)]) DateNow)]) matches)
    as [_ Hr].
  destruct (snd (run w _ (mapM Chat.storyOf matches))) as [|c l] eqn:El.
  - cbn [length Nat.ltb Nat.leb]. eexists. split; [reflexivity|].
    cbn [run fst snd mret Prog_ret]. rewrite Hr, !requests_app. cbn.
    rewrite !app_nil_r. auto 10.
  - cbn [length Nat.ltb Nat.leb]. rewrite run_mbind.
    eexists. split; [reflexivity|].
    cbn [run fst snd mret Prog_ret]. rewrite storeStories_requests, Hr.
    rewrite !requests_app. cbn [requests omap request app].
    cbn. rewrite !app_nil_r. auto 10.
Qed.

(** C4.  The candidates of a turn are stored one request each.  The loop
    sends a [/stories] request for every candidate of the batch it is
    given, in order, whatever the back end answers to any of them (a
    rejected request is logged and the loop goes on).  And the batch of a
    turn is what was extracted: when the reply carries a text, the
    requests of the turn are the chat request followed by one store
    request for each candidate extracted from that text, in order, and
    these candidates are what the assistant's message carries. *)
Theorem every_candidate_is_stored w h pk :
  (forall stories,
     requests (fst (run w h (Chat.storeStories pk stories)))
     = requests h ++ List.map (storeRequest pk) stories) /\
  (forall st data answer,
     falsy (trim (Chat.input st)) = false -> falsy pk = false ->
     replyToChat w h pk st = Resolved (Some data) ->
     response data = Some answer ->
     let stories :=
       snd (run w (historyAtExtraction w h pk st) (Chat.extract answer)) in
     requests (fst (run w h (Chat.handleSend (Some pk) st)))
       = requests h ++
         (lit "/chat", ChatBody (Chat.input st) pk) ::
         List.map (storeRequest pk) stories /\
     exists userMessage assistantMessage,
       Chat.messages (snd (run w h (Chat.handleSend (Some pk) st)))
         = Chat.messages st ++ [userMessage; assistantMessage] /\
       Chat.generatedStories assistantMessage
         = match stories with [] => None | _ :: _ => Some stories end).
Proof.
  split; [intros; apply storeStories_requests|].
  intros st data answer Hin Hpk Hreply Ha. cbv zeta.
  destruct (run_handleSend_at w h Hin Hpk) as (um & _ & _ & Hr & Hrun).
  cbv zeta in Hrun. rewrite Hrun, Hreply.
  destruct (run_sendReplied_batch w (historyAtReply w h pk st) pk
    (data := Some data)
    (Chat.setIsLoading true
       (Chat.setInput []
          (Chat.setMessages (fun prev => prev ++ [um]) st))) Ha)
    as (am & Hst & _ & _ & _ & Hg & Hreq).
  cbv zeta in Hg, Hreq. cbn [fst snd]. split.
  - unfold historyAtExtraction. cbv zeta.
    rewrite Hreq, Hr, <- app_assoc. reflexivity.
  - exists um, am. rewrite Hst. split; [|exact Hg].
    cbn. now rewrite <- app_assoc.
Qed.

(** C6.  When the generation call of a turn fails (the promise is
    rejected, or the reply carries no text), the turn adds the user's
    message and the fixed failure message and nothing else: no story is
    attached and no store request is sent. *)
Theorem failed_generation_is_reported w h pk st :
  falsy (trim (Chat.input st)) = false -> falsy pk = false ->
  match replyToChat w h pk st with
  | Rejected => True
  | Resolved data => data ≫= response = None
  end ->
  exists userMessage failure,
    snd (run w h (Chat.handleSend (Some pk) st))
      = {| Chat.messages := Chat.messages st ++ [userMessage; failure];
           Chat.input := []; Chat.isLoading := false;
           Chat.isUploading := Chat.isUploading st |} /\
    Chat.msg_type userMessage = Chat.user /\
    Chat.content userMessage = Some (Chat.input st) /\
    Chat.msg_type failure = Chat.assistant /\
    Chat.content failure
      = Some (lit "Failed to process your message. Please try again.") /\
    Chat.generatedStories failure = None /\
    requests (fst (run w h (Chat.handleSend (Some pk) st)))
      = requests h ++ [(lit "/chat", ChatBody (Chat.input st) pk)].
Proof.
  intros Hin Hpk Hfail.
  destruct (run_handleSend w h Hin Hpk) as (um & h3 & Hu1 & Hu2 & Hr & Hrun).
  cbv zeta in Hrun. rewrite Hrun.
  destruct (run_sendReplied w h3 pk (replyToChat w h pk st)
    (Chat.setIsLoading true
       (Chat.setInput []
          (Chat.setMessages (fun prev => prev ++ [um]) st))))
    as (am & Hst & Ham & Hreq & Hcase).
  assert (Chat.content am
            = Some (lit "Failed to process your message. Please try again.")
          /\ Chat.generatedStories am = None) as [Hc Hg].
  { destruct (replyToChat w h pk st) as [|data]; [assumption|].
    now rewrite Hfail in Hcase. }
  exists um, am. cbn [fst snd]. rewrite Hst, Hreq, Hr, Hg.
  split; [|repeat split; try assumption].
  - unfold Chat.setIsLoading, Chat.setInput, Chat.setMessages. cbn.
    f_equal. now rewrite <- app_assoc.
  - cbn. now rewrite app_nil_r.
Qed.

(** C5.  With no project selected (none, or the empty key) the chat turn,
    the file upload of the chat and the two dropzones return at once:
    the state is as before and no request has been sent. *)
Theorem no_project_no_request w h selectedProject :
  falsyOpt selectedProject = true ->
  (forall st, run w h (Chat.handleSend selectedProject st) = (h, st)) /\
  (forall file st,
     snd (run w h (Chat.handleFileUpload selectedProject file st)) = st /\
     requests (fst (run w h (Chat.handleFileUpload selectedProject file st)))
       = requests h) /\
  (forall files st,
     snd (run w h (Images.onDrop selectedProject files st)) = st /\
     requests (fst (run w h (Images.onDrop selectedProject files st)))
       = requests h) /\
  (forall files st,
     snd (run w h (BrdUpload.onDrop selectedProject files st)) = st /\
     requests (fst (run w h (BrdUpload.onDrop selectedProject files st)))
       = requests h).
Proof.
  intros Hno. split; [|split; [|split]].
  - intros st. unfold Chat.handleSend. now rewrite Hno, orb_true_r.
  - intros file st. unfold Chat.handleFileUpload. rewrite Hno. cbn.
    rewrite requests_app. cbn. now rewrite app_nil_r.
  - intros files st. unfold Images.onDrop. rewrite Hno. cbn.
    rewrite requests_app. cbn. now rewrite app_nil_r.
  - intros files st. unfold BrdUpload.onDrop. rewrite Hno. cbn.
    rewrite requests_app. cbn. now rewrite app_nil_r.
Qed.

(** ** The story table *)

Lemma eqb_eq (a b : jsstring) : JS.eqb a b = true <-> a = b.
Proof.
  revert b. induction a as [|x a IH]; intros [|y b]; cbn [JS.eqb];
    try (split; [discriminate|discriminate]); [easy|].
  rewrite andb_true_iff, N.eqb_eq, IH. split.
  - now intros [-> ->].
  - now intros [= -> ->].
Qed.

Lemma eqb_neq (a b : jsstring) : JS.eqb a b = false <-> a <> b.
Proof.
  split.
  - intros H E. apply eqb_eq in E. congruence.
  - intros H. destruct (JS.eqb a b) eqn:E; [|reflexivity].
    now apply eqb_eq in E.
Qed.

(** What [handlePublish] leaves behind when the reply has a body, and
    when the request is rejected. *)
Lemma run_handlePublish (w : World) h pk story st :
  falsy pk = false ->
  snd (run w h (Stories.handlePublish (Some pk) story st))
  = match w _ h (ApiPost (Stories.publishUrl (Some pk) story) NoBody) with
    | Resolved (Some data) =>
        Some
          {| Stories.stories :=
               List.map (fun s =>
                  if JS.eqb (Stories.id s) (Stories.id story)
                  then Stories.markPublished data s else s)
                 (Stories.stories st);
             Stories.editingStory := Stories.editingStory st;
             Stories.isPublishing := None;
             Stories.message :=
               Some (Stories.success,
                     lit "Story successfully published to Jira as "
                     ++ Stories.interpolate (jira_key data) "undefined") |}
    | Resolved None =>
        if existsb (fun s => JS.eqb (Stories.id s) (Stories.id story))
             (Stories.stories st)
        then None
        else
          Some
            {| Stories.stories := Stories.stories st;
               Stories.editingStory := Stories.editingStory st;
               Stories.isPublishing := None;
               Stories.message :=
                 Some (Stories.error,
                       lit "Failed to publish story. Please try again.") |}
    | Rejected =>
        Some
          {| Stories.stories := Stories.stories st;
             Stories.editingStory := Stories.editingStory st;
             Stories.isPublishing := None;
             Stories.message :=
               Some (Stories.error,
                     lit "Failed to publish story. Please try again.") |}
    end /\
  requests (fst (run w h (Stories.handlePublish (Some pk) story st)))
  = requests h ++ [(Stories.publishUrl (Some pk) story, NoBody)].
Proof.
  intros Hpk. unfold Stories.handlePublish. cbn [falsyOpt]. rewrite Hpk.
  cbv zeta. rewrite run_mbind. cbn [call run fst snd]. rewrite run_mbind.
  destruct (w Reply h _) as [|[data|]].
  - cbn. rewrite !requests_app. cbn. now rewrite ?app_nil_r.
  - cbn. rewrite !requests_app. cbn. now rewrite ?app_nil_r.
  - rewrite run_mbind. cbn [call run fst snd]. cbn [Stories.stories
      Stories.setMessage Stories.setIsPublishing].
    destruct (existsb _ (Stories.stories st)); cbn;
      rewrite !requests_app; cbn; now rewrite ?app_nil_r.
Qed.



(** C7.  A published story is not edited.  In the table its edit button
    is disabled, so a click leaves the state as it is and the dialog stays
    closed; with the dialog closed, saving sends no update request.  In
    the store (modelled from the specification) an update of a published
    story fails with [InvalidStateError] and leaves the store as it is.
    And when the back end rejects an update request, the table keeps the
    story as it was. *)
Theorem published_story_is_not_edited :
  (forall selectedProject story st,
     Stories.published story = true ->
     Stories.clickEdit selectedProject story st = st) /\
  (forall w h selectedProject editedTitle editedDescription st,
     Stories.editingStory st = None ->
     run w h (Stories.handleSave selectedProject editedTitle
                editedDescription st) = (h, st)) /\
  (forall now k title' description' (σ : gmap Store.Key Store.Story) s,
     σ !! k = Some s -> Store.status s = Store.published ->
     Store.update now k title' description' σ
       = (inl Store.InvalidStateError, σ)) /\
  (forall (w : World) h selectedProject editedStory st,
     w _ h (ApiPut (Stories.updateUrl selectedProject editedStory)
              (UpdatesBody (Stories.title editedStory)
                 (Stories.description editedStory))) = Rejected ->
     Stories.stories
       (snd (run w h (Stories.handleSaveEdit selectedProject editedStory st)))
       = Stories.stories st /\
     Stories.message
       (snd (run w h (Stories.handleSaveEdit selectedProject editedStory st)))
       = Some (Stories.error,
               lit "Failed to update story. Please try again.")).
Proof.
  split; [|split; [|split]].
  - intros sel story st Hp. unfold Stories.clickEdit, Stories.editDisabled.
    now rewrite Hp, orb_true_r.
  - intros w h sel t d st Hnone. unfold Stories.handleSave. rewrite Hnone.
    cbn. destruct st; cbn in *. now subst.
  - intros now k t d σ s Hk Hs. unfold Store.update. now rewrite Hk, Hs.
  - intros w h sel e st Hrej. unfold Stories.handleSaveEdit.
    rewrite run_mbind. cbn [call run fst snd]. rewrite Hrej.
    split; reflexivity.
Qed.

(** A click on the publish button of a story that is published, or whose
    publish is the one on its way, does nothing. *)
Lemma clickPublish_disabled w h selectedProject story st :
  Stories.publishDisabled st story = true ->
  run w h (Stories.clickPublish selectedProject story st) = (h, Some st).
Proof.
  intros Hd. unfold Stories.clickPublish. now rewrite Hd, orb_true_r.
Qed.

(** The store's side of a publish call (modelled from the specification):
    on a draft, the story becomes published and gets its key together when
    the tracker returns one, and stays as it is, with the failure
    reported, when the tracker fails; "a key is present exactly when the
    story is published" is kept. *)
Lemma store_publish_follows_tracker (now : N) (outcome : option jsstring)
    (k : Store.Key) (σ : gmap Store.Key Store.Story) (s : Store.Story) :
  σ !! k = Some s -> Store.status s = Store.draft ->
  match outcome with
  | Some key =>
      Store.publish now outcome k σ
        = (inr (Store.publishCommit now key s),
           <[k := Store.publishCommit now key s]> σ) /\
      Store.status (Store.publishCommit now key s) = Store.published /\
      Store.external_key (Store.publishCommit now key s) = Some key
  | None =>
      Store.publish now outcome k σ = (inl Store.TransientExternalError, σ)
  end /\
  (map_Forall (fun _ s' => Store.status s' = Store.published <->
                           is_Some (Store.external_key s')) σ ->
   map_Forall (fun _ s' => Store.status s' = Store.published <->
                           is_Some (Store.external_key s'))
     (snd (Store.publish now outcome k σ))).
Proof.
  intros Hk Hs. unfold Store.publish, Store.publishCheck. rewrite Hk, Hs.
  destruct outcome as [key|]; cbn [snd].
  - split; [auto|]. intros Hinv. apply map_Forall_insert_2; [|assumption].
    cbn. split; eauto.
  - split; [reflexivity|auto].
Qed.

(** ** The store: concurrent publish calls *)

Section Publish.

Import Store StoreInv.

Implicit Types (σ : Server) (k : Key) (rs : list Request) (r : Request).

Lemma count_app f rs rs' : count f (rs ++ rs') = count f rs + count f rs'.
Proof. unfold count. now rewrite List.filter_app, length_app. Qed.

Lemma count_cons f r rs : count f (r :: rs) = Nat.b2n (f r) + count f rs.
Proof. unfold count. cbn. now destruct (f r). Qed.

Lemma count_setPhase f i r p rs :
  rs !! i = Some r ->
  count f (setPhase i r p rs) + Nat.b2n (f r)
  = count f rs + Nat.b2n (f {| target := target r; phase := p |}).
Proof.
  intros Hl. unfold setPhase.
  rewrite insert_take_drop by (eapply lookup_lt_Some; eassumption).
  rewrite <- (take_drop_middle rs i r Hl) at 3.
  rewrite !count_app, !count_cons. lia.
Qed.

Lemma targets_setPhase i r p rs :
  rs !! i = Some r ->
  List.map target (setPhase i r p rs) = List.map target rs.
Proof.
  intros Hl. unfold setPhase.
  rewrite insert_take_drop by (eapply lookup_lt_Some; eassumption).
  rewrite <- (take_drop_middle rs i r Hl) at 3.
  now rewrite !List.map_app.
Qed.

Lemma pending_app rs rs' : pending (rs ++ rs') = pending rs + pending rs'.
Proof. induction rs as [|r rs IH]; cbn; [reflexivity|]. rewrite IH. lia. Qed.

Lemma pending_setPhase i r p rs :
  rs !! i = Some r ->
  pending (setPhase i r p rs) + weight (phase r) = pending rs + weight p.
Proof.
  intros Hl. unfold setPhase.
  rewrite insert_take_drop by (eapply lookup_lt_Some; eassumption).
  rewrite <- (take_drop_middle rs i r Hl) at 3.
  rewrite !pending_app. cbn. lia.
Qed.

Lemma busy_false k rs :
  busy k rs = false ->
  count (calling k) rs = 0 /\ count (created k) rs = 0.
Proof.
  unfold busy. induction rs as [|r rs IH]; cbn [existsb]; [now split|].
  intros H. apply orb_false_iff in H as [Hr H]. destruct (IH H) as [H1 H2].
  rewrite !count_cons, H1, H2. unfold calling, created.
  destruct (bool_decide (target r = k)); [|now split].
  cbn in Hr. destruct (phase r); cbn in *; try discriminate; now split.
Qed.

Lemma publishCheck_cases k (m : gmap Key Story) :
  match publishCheck k m with
  | inr s => m !! k = Some s /\ status s = draft /\ isPublished k m = false
  | inl InvalidStateError => isPublished k m = true
  | inl NotFound => m !! k = None
  | inl _ => False
  end.
Proof.
  unfold publishCheck, isPublished. destruct (m !! k) as [s|]; [|reflexivity].
  destruct (status s) eqn:E; auto.
Qed.

Lemma isPublished_commit (k k0 : Key) (now : N) (key : jsstring) (s : Story)
    (m : gmap Key Story) :
  isPublished k (<[k0 := publishCommit now key s]> m)
  = if bool_decide (k0 = k) then true else isPublished k m.
Proof.
  unfold isPublished. case_bool_decide as E.
  - subst. now rewrite lookup_insert_eq.
  - now rewrite lookup_insert_ne.
Qed.

Lemma issuesFor_same k σ σ' :
  issues σ' = issues σ -> issuesFor k σ' = issuesFor k σ.
Proof. unfold issuesFor. now intros ->. Qed.

Lemma Forall_setPhase (P : Request -> Prop) i r p rs :
  Forall P rs -> P {| target := target r; phase := p |} ->
  Forall P (setPhase i r p rs).
Proof. intros. unfold setPhase. now apply Forall_insert. Qed.

(** How the numbers of calls of each kind for [k] change when the call
    [r] moves from the phase it is in to the phase [p]. *)
Lemma counts_setPhase k i r p rs :
  rs !! i = Some r ->
  count (calling k) (setPhase i r p rs) + Nat.b2n (calling k r)
    = count (calling k) rs
      + Nat.b2n (calling k {| target := target r; phase := p |}) /\
  count (created k) (setPhase i r p rs) + Nat.b2n (created k r)
    = count (created k) rs
      + Nat.b2n (created k {| target := target r; phase := p |}) /\
  count (succeeded k) (setPhase i r p rs) + Nat.b2n (succeeded k r)
    = count (succeeded k) rs
      + Nat.b2n (succeeded k {| target := target r; phase := p |}).
Proof. intros Hl. repeat split; now apply count_setPhase. Qed.

Lemma calling_eval k k0 p :
  calling k {| target := k0; phase := p |}
  = bool_decide (k0 = k) && match p with Calling _ => true | _ => false end.
Proof. reflexivity. Qed.

Lemma created_eval k k0 p :
  created k {| target := k0; phase := p |}
  = bool_decide (k0 = k) && match p with Created _ _ => true | _ => false end.
Proof. reflexivity. Qed.

Lemma succeeded_eval k k0 p :
  succeeded k {| target := k0; phase := p |}
  = bool_decide (k0 = k) && match p with Done (inr _) => true | _ => false end.
Proof. reflexivity. Qed.

Ltac kinds :=
  rewrite ?calling_eval, ?created_eval, ?succeeded_eval in *;
  cbn [target phase] in *;
  rewrite ?andb_false_r, ?andb_true_r in *;
  cbn [Nat.b2n] in *.

Lemma step_Inv k σ0 σ σ' : Inv k σ0 σ -> step σ σ' -> Inv k σ0 σ'.
Proof.
  intros [Ht Hi Hm Hin Hok Hre Hkn Hnd Hpu] Hstep.
  destruct Hstep as [σ i [k0 ph] Hl Hp Hb | σ i [k0 ph] s key Hl Hp
                    | σ i [k0 ph] s Hl Hp | σ i [k0 ph] s key now Hl Hp];
    cbn [phase target] in *; subst ph.
  - (* enter *)
    pose proof (publishCheck_cases k0 (store σ)) as Hc.
    apply busy_false in Hb as [Hb1 Hb2].
    destruct (publishCheck k0 (store σ)) as [e|s].
    + destruct (counts_setPhase k (Done (inl e)) Hl) as (E1 & E2 & E3).
      kinds.
      split; cbn [requests store issues].
      * rewrite <- Ht. now apply targets_setPhase.
      * rewrite (issuesFor_same (σ:=σ) k) by reflexivity. lia.
      * lia.
      * intros H. apply Hin. lia.
      * intros H. apply Hok. lia.
      * apply Forall_setPhase; [assumption|]. cbn. intros -> [= ->].
        exact Hc.
      * intros H. destruct (Hkn H) as [Hs HF]. split; [assumption|].
        apply Forall_setPhase; [assumption|]. cbn. intros -> [= ->].
        rewrite Hc in Hs. now destruct Hs.
      * apply Forall_setPhase; [assumption|]. cbn. intros [= ->].
        exact Hc.
      * intros H. destruct (Hpu H); [now left|right; lia].
    + destruct (counts_setPhase k (Calling s) Hl) as (E1 & E2 & E3).
      destruct Hc as (Hs & Hd & Hnp).
      kinds.
      assert (k0 = k -> count (succeeded k) (requests σ) = 0) as Hz.
      { intros ->. destruct (count (succeeded k) (requests σ)) eqn:Ec;
          [reflexivity|].
        rewrite Hok in Hnp by lia. discriminate. }
      split; cbn [requests store issues].
      * rewrite <- Ht. now apply targets_setPhase.
      * rewrite (issuesFor_same (σ:=σ) k) by reflexivity. lia.
      * case_bool_decide as Ek; cbn [Nat.b2n] in *; [|lia].
        subst k0. specialize (Hz eq_refl). lia.
      * intros H. case_bool_decide as Ek; cbn [Nat.b2n] in *.
        -- now subst k0.
        -- apply Hin. lia.
      * intros H. apply Hok. lia.
      * apply Forall_setPhase; [assumption|]. cbn. discriminate.
      * intros H. destruct (Hkn H) as [Hs' HF]. split; [assumption|].
        apply Forall_setPhase; [assumption|]. cbn. discriminate.
      * apply Forall_setPhase; [assumption|]. cbn. discriminate.
      * intros H. destruct (Hpu H); [now left|right; lia].
  - (* the tracker created the issue *)
    destruct (counts_setPhase k (Created s key) Hl) as (E1 & E2 & E3).
    kinds.
    split; cbn [requests store issues].
    + rewrite <- Ht. now apply targets_setPhase.
    + unfold issuesFor in *. cbn [issues]. rewrite List.filter_app, length_app.
      cbn [List.filter fst]. case_bool_decide; cbn [Nat.b2n length] in *; lia.
    + lia.
    + intros H. apply Hin. lia.
    + intros H. apply Hok. lia.
    + apply Forall_setPhase; [assumption|]. cbn. discriminate.
    + intros H. destruct (Hkn H) as [Hs' HF]. split; [assumption|].
      apply Forall_setPhase; [assumption|]. cbn. discriminate.
    + apply Forall_setPhase; [assumption|]. cbn. discriminate.
    + intros H. destruct (Hpu H); [now left|right; lia].
  - (* the tracker failed *)
    destruct (counts_setPhase k (Done (inl TransientExternalError)) Hl)
      as (E1 & E2 & E3).
    kinds.
    split; cbn [requests store issues].
    + rewrite <- Ht. now apply targets_setPhase.
    + rewrite (issuesFor_same (σ:=σ) k) by reflexivity. lia.
    + lia.
    + intros H. apply Hin. lia.
    + intros H. apply Hok. lia.
    + apply Forall_setPhase; [assumption|]. cbn. discriminate.
    + intros H. destruct (Hkn H) as [Hs' HF]. split; [assumption|].
      apply Forall_setPhase; [assumption|]. cbn. discriminate.
    + apply Forall_setPhase; [assumption|]. cbn. discriminate.
    + intros H. destruct (Hpu H); [now left|right; lia].
  - (* commit *)
    destruct (counts_setPhase k (Done (inr (publishCommit now key s))) Hl)
      as (E1 & E2 & E3).
    kinds.
    split; cbn [requests store issues]; rewrite ?isPublished_commit.
    + rewrite <- Ht. now apply targets_setPhase.
    + rewrite (issuesFor_same (σ:=σ) k) by reflexivity. lia.
    + lia.
    + intros H. case_bool_decide as Ek; cbn [Nat.b2n] in *; [lia|].
      apply Hin. lia.
    + intros H. case_bool_decide as Ek; [reflexivity|].
      cbn [Nat.b2n] in *. apply Hok. lia.
    + apply Forall_setPhase.
      * eapply Forall_impl; [exact Hre|]. intros r Hr Hk Hph.
        cbv beta in Hr. case_bool_decide; auto.
      * cbn. discriminate.
    + intros H. destruct (Hkn H) as [Hs' HF]. split.
      * destruct (decide (k0 = k)) as [->|Hne].
        -- rewrite lookup_insert_eq. eauto.
        -- now rewrite lookup_insert_ne.
      * apply Forall_setPhase; [assumption|]. cbn. discriminate.
    + apply Forall_setPhase; [assumption|]. cbn. discriminate.
    + intros H. case_bool_decide as Ek; cbn [Nat.b2n] in *.
      * right. lia.
      * destruct (Hpu H); [now left|right; lia].
Qed.

Lemma count_all_false f rs :
  Forall (fun r => f r = false) rs -> count f rs = 0.
Proof.
  induction 1 as [|r rs Hr _ IH]; [reflexivity|].
  now rewrite count_cons, Hr, IH.
Qed.

Lemma count_In f r rs : In r rs -> f r = true -> 1 <= count f rs.
Proof.
  induction rs as [|r' rs IH]; [intros []|].
  intros [->|Hin] Hf; rewrite count_cons.
  - rewrite Hf. cbn. lia.
  - specialize (IH Hin Hf). lia.
Qed.

Lemma initial_Inv k σ0 : initial σ0 -> Inv k σ0 σ0.
Proof.
  intros [Hi Hw].
  assert (forall f : Request -> bool,
            (forall r, phase r = Waiting -> f r = false) ->
            count f (requests σ0) = 0) as Hz.
  { intros f Hf. apply count_all_false.
    eapply Forall_impl; [exact Hw|]. exact Hf. }
  assert (count (calling k) (requests σ0) = 0) as Hc
    by (apply Hz; intros r Hr; unfold calling; rewrite Hr;
        apply andb_false_r).
  assert (count (created k) (requests σ0) = 0) as Hd
    by (apply Hz; intros r Hr; unfold created; rewrite Hr;
        apply andb_false_r).
  assert (count (succeeded k) (requests σ0) = 0) as Hs
    by (apply Hz; intros r Hr; unfold succeeded; rewrite Hr;
        apply andb_false_r).
  split; rewrite ?Hc, ?Hd, ?Hs.
  - reflexivity.
  - unfold issuesFor. now rewrite Hi.
  - lia.
  - lia.
  - lia.
  - eapply Forall_impl; [exact Hw|]. intros r Hr _ Hp. congruence.
  - intros H. split; [assumption|].
    eapply Forall_impl; [exact Hw|]. intros r Hr _ Hp. congruence.
  - eapply Forall_impl; [exact Hw|]. intros r Hr Hp. congruence.
  - now left.
Qed.

Lemma steps_Inv k σ0 σ : initial σ0 -> steps σ0 σ -> Inv k σ0 σ.
Proof.
  intros Hi Hs. induction Hs as [σ0|σ0 σ1 σ2 _ IH Hstep].
  - now apply initial_Inv.
  - eapply step_Inv; [|exact Hstep]. now apply IH.
Qed.

(** As long as a call has not returned, some call can take a step: a call
    that is inside can always go on, and when no call is inside every
    waiting call can enter. *)
Lemma progress σ : ~ final σ -> exists σ', step σ σ'.
Proof.
  unfold final. intros Hnf.
  destruct (existsb (fun r => inside (phase r)) (requests σ)) eqn:E.
  - apply existsb_exists in E as (r & Hin & Hr).
    apply list_elem_of_In, list_elem_of_lookup in Hin as [i Hl].
    destruct (phase r) as [|s|s key|x] eqn:Hp; try discriminate.
    + eexists. exact (step_created [] Hl Hp).
    + eexists. exact (step_commit 0%N Hl Hp).
  - apply not_Forall_Exists in Hnf; [|intros r; apply _].
    apply Exists_exists in Hnf as (r & Hin & Hr).
    pose proof Hin as Hin'. apply list_elem_of_lookup in Hin as [i Hl].
    assert (inside (phase r) = false) as Hri.
    { destruct (inside (phase r)) eqn:Ei; [|reflexivity].
      rewrite <- E. symmetry. apply existsb_exists. exists r.
      split; [now apply list_elem_of_In|assumption]. }
    assert (phase r = Waiting) as Hp.
    { cbn in Hr. destruct (phase r); cbn in *; congruence. }
    eexists. apply (step_enter Hl Hp).
    destruct (busy (target r) (requests σ)) eqn:Eb; [|reflexivity].
    unfold busy in Eb. apply existsb_exists in Eb as (r' & Hin2 & Hr').
    apply andb_true_iff in Hr' as [_ Hr'].
    rewrite <- E. symmetry. apply existsb_exists. now exists r'.
Qed.

Lemma step_pending σ σ' :
  step σ σ' -> pending (requests σ') < pending (requests σ).
Proof.
  destruct 1 as [σ i r Hl Hp Hb | σ i r s key Hl Hp
                | σ i r s Hl Hp | σ i r s key now Hl Hp];
    cbn [requests];
    match goal with
    | |- pending (setPhase _ _ ?p _) < _ =>
        pose proof (pending_setPhase p Hl) as E
    end;
    rewrite Hp in E; cbn [weight] in E.
  - destruct (publishCheck _ _); cbn [weight] in E; lia.
  - lia.
  - lia.
  - lia.
Qed.

Lemma steps_first σ σ1 σ2 : step σ σ1 -> steps σ1 σ2 -> steps σ σ2.
Proof.
  intros H1 H2. induction H2 as [σ1|σ1 σ2 σ3 _ IH H3].
  - eapply steps_step; [apply steps_refl|exact H1].
  - eapply steps_step; [now apply IH|exact H3].
Qed.

(** Every call returns: from every state the calls can be run to the
    end. *)
Lemma eventually_final σ : exists σ', steps σ σ' /\ final σ'.
Proof.
  remember (pending (requests σ)) as n eqn:En.
  assert (pending (requests σ) <= n) as Hn by lia. clear En.
  revert σ Hn. induction n as [|n IH]; intros σ Hn.
  - destruct (decide (final σ)) as [Hf|Hf].
    + exists σ. split; [constructor|assumption].
    + apply progress in Hf as [σ1 H1]. apply step_pending in H1. lia.
  - destruct (decide (final σ)) as [Hf|Hf].
    + exists σ. split; [constructor|assumption].
    + apply progress in Hf as [σ1 H1]. pose proof (step_pending H1).
      destruct (IH σ1) as (σ' & Hs & Hf'); [lia|].
      exists σ'. split; [|assumption]. eapply steps_first; eassumption.
Qed.

Lemma final_counts k σ :
  final σ ->
  count (calling k) (requests σ) = 0 /\ count (created k) (requests σ) = 0.
Proof.
  intros Hf. split; apply count_all_false;
    (eapply Forall_impl; [exact Hf|]); intros r Hr; cbv beta in Hr;
    [unfold calling|unfold created]; destruct (phase r); try discriminate;
    apply andb_false_r.
Qed.


End Publish.

(** ** Extraction on well-formed texts *)

Lemma lit_title_marker :
  lit "Story Title: " = lit "Story Title:" ++ lit " ".
Proof. reflexivity. Qed.

(** A text without the marker ["Story Title:"] has no candidates. *)
Lemma no_marker_no_candidates w h response :
  ~ occurs (lit "Story Title:") response ->
  run w h (Chat.extract response) = (h, []).
Proof.
  intros Hno. unfold Chat.extract, Chat.storyMatch, matchGlobal.
  cbn [matchesFrom].
  destruct (exec Chat.storyRe response) as [x|] eqn:E; [|reflexivity].
  exfalso. apply Hno.
  apply exec_Some in E as (pre & s' & -> & E).
  apply matchAt_storyRe in E as (t & d & e & _ & _ & -> & _).
  unfold pair. rewrite lit_title_marker.
  exists pre. eexists. rewrite <- !app_assoc. reflexivity.
Qed.

Lemma matchAt_storyRe_LF s : matchAt Chat.storyRe (LF :: s) = None.
Proof.
  destruct (matchAt Chat.storyRe (LF :: s)) as [x|] eqn:E; [|reflexivity].
  apply matchAt_storyRe in E as (t & d & e & _ & _ & H & _).
  unfold pair in H. vm_compute in H. discriminate.
Qed.

Lemma matchAt_storyRe_nil : matchAt Chat.storyRe [] = None.
Proof. reflexivity. Qed.

Lemma exec_storyRe_blank n s :
  exec Chat.storyRe (repeat LF n ++ s) = exec Chat.storyRe s.
Proof.
  induction n as [|n IH]; [reflexivity|]. cbn [repeat app].
  rewrite exec_next by apply matchAt_storyRe_LF. exact IH.
Qed.

Lemma exec_storyRe_blank_None n : exec Chat.storyRe (repeat LF n) = None.
Proof.
  rewrite <- (app_nil_r (repeat LF n)), exec_storyRe_blank. reflexivity.
Qed.

Lemma exec_storyRe_pair t d e e1 e2 :
  oneLine t -> oneLine d -> fieldEnd e e1 e2 ->
  exec Chat.storyRe (pair t d ++ e)
  = Some (Result (pair t d ++ e1) [(2%nat, d); (1%nat, t)] e2).
Proof.
  intros Ht Hd He. apply exec_here. apply matchAt_storyRe.
  now exists t, d, e, e1, e2.
Qed.

(** Where the text of the pattern cannot start, the search goes on. *)
Lemma exec_skip r u v :
  (forall a b, u = a ++ b -> b <> [] -> matchAt r (b ++ v) = None) ->
  exec r (u ++ v) = exec r v.
Proof.
  induction u as [|x u IH]; intros H; [reflexivity|]. cbn [app].
  rewrite exec_next by (apply (H [] (x :: u)); [reflexivity|discriminate]).
  apply IH. intros a b -> Hb. apply (H (x :: a) b); [reflexivity|assumption].
Qed.

Lemma prefix_oneLine (p s b v : jsstring) :
  oneLine p -> p ++ s = b ++ LF :: v -> exists b', b = p ++ b'.
Proof.
  intros Hp. revert b. induction Hp as [|x p Hx Hp IH]; intros b H.
  - now exists b.
  - destruct b as [|y b]; cbn [app] in H.
    + injection H as E _. subst x. discriminate Hx.
    + injection H as E H. subst y. destruct (IH _ H) as [b' ->].
      now exists b'.
Qed.

Lemma no_description_in_title_marker t :
  occurs (lit "Description: ") (lit "Story Title: " ++ t) ->
  occurs (lit "Description: ") t.
Proof.
  intros (a & b & H). vm_compute in H.
  do 13 (destruct a as [|? a]; [discriminate H|injection H as _ H]).
  exists a, b. rewrite H. reflexivity.
Qed.

(** When the title does not contain ["Description: "], the description of
    the candidate is the one the story pattern captured. *)
Lemma descMatch_plain t d e1 :
  oneLine t -> oneLine d -> fieldEnd e1 e1 [] ->
  ~ occurs (lit "Description: ") t ->
  Chat.descMatch (pair t d ++ e1) = Some d.
Proof.
  intros Ht Hd He Hno. unfold Chat.descMatch, pair.
  replace ((lit "Story Title: " ++ t ++ LF :: lit "Description: " ++ d) ++ e1)
    with (((lit "Story Title: " ++ t) ++ [LF])
          ++ lit "Description: " ++ d ++ e1)
    by (rewrite <- ?app_assoc; cbn [app]; now rewrite <- ?app_assoc).
  rewrite exec_skip.
  - rewrite (@exec_here _ _
      (Result (lit "Description: " ++ d ++ e1) [(1%nat, d)] []));
      [reflexivity|].
    apply matchAt_descRe. now exists d, e1, e1, [].
  - intros a b Hab Hb.
    destruct (matchAt Chat.descRe _) as [x|] eqn:E; [|reflexivity].
    exfalso. apply matchAt_descRe in E as (dd & e' & _ & _ & H & _).
    destruct b as [|z b] using rev_ind; [now destruct Hb|].
    rewrite app_assoc in Hab. apply app_inj_tail in Hab as [Hab Ez].
    subst z.
    rewrite <- app_assoc in H. cbn [app] in H. symmetry in H.
    apply prefix_oneLine in H as [b' ->];
      [|apply oneLine_lit_description].
    apply Hno, no_description_in_title_marker.
    exists a, b'. exact Hab.
Qed.

(** Two well-formed pairs, with blank lines between and after them: when
    no title contains ["Description: "], there are exactly two candidates,
    and their titles and descriptions are the captured texts. *)
Lemma two_pairs_two_candidates w h t1 d1 t2 d2 n k :
  oneLine t1 -> oneLine d1 -> oneLine t2 -> oneLine d2 ->
  ~ occurs (lit "Description: ") t1 ->
  ~ occurs (lit "Description: ") t2 ->
  List.map (fun c => (title c, description c, published c))
    (snd (run w h (Chat.extract
       (pair t1 d1 ++ LF :: repeat LF n ++ pair t2 d2 ++ repeat LF k))))
  = [(t1, d1, false); (t2, d2, false)].
Proof.
  intros Ht1 Hd1 Ht2 Hd2 Hn1 Hn2.
  assert (exists e1 e2, fieldEnd (repeat LF k) e1 e2 /\ fieldEnd e1 e1 []
                        /\ exists j, e2 = repeat LF j)
    as (e1 & e2 & He & He1 & j & ->).
  { destruct k as [|k]; cbn [repeat].
    - exists [], []. repeat split; try constructor. now exists 0%nat.
    - exists [LF], (repeat LF k). repeat split; try constructor.
      now exists k. }
  assert (Chat.storyMatch
            (pair t1 d1 ++ LF :: repeat LF n ++ pair t2 d2 ++ repeat LF k)
          = Some [pair t1 d1 ++ [LF]; pair t2 d2 ++ e1]) as Hm.
  { unfold Chat.storyMatch, matchGlobal. cbn [matchesFrom].
    rewrite (exec_storyRe_pair
               (e:=LF :: repeat LF n ++ pair t2 d2 ++ repeat LF k)
               Ht1 Hd1 (end_of_line _)).
    cbn [matched rest].
    destruct (pair t1 d1 ++ [LF]) as [|c0 l0] eqn:E0;
      [now apply pair_not_nil in E0|]. rewrite <- E0. clear E0.
    assert (exists f, length (pair t1 d1 ++ LF :: repeat LF n ++ pair t2 d2
                                ++ repeat LF k) = S (S f)) as [f ->].
    { unfold pair. rewrite !length_app. cbn [length].
      rewrite !length_app. cbn [length].
      change (length (lit "Story Title: ")) with 13%nat.
      eexists. cbn [Nat.add]. reflexivity. }
    cbn [matchesFrom]. rewrite exec_storyRe_blank.
    rewrite (exec_storyRe_pair Ht2 Hd2 He). cbn [matched rest].
    destruct (pair t2 d2 ++ e1) as [|c1 l1] eqn:E1;
      [now apply pair_not_nil in E1|]. rewrite <- E1. clear E1.
    cbn [matchesFrom]. now rewrite exec_storyRe_blank_None. }
  unfold Chat.extract. rewrite Hm.
  destruct (run_stories w h [pair t1 d1 ++ [LF]; pair t2 d2 ++ e1])
    as [HF _].
  remember (snd (run w h (mapM Chat.storyOf
    [pair t1 d1 ++ [LF]; pair t2 d2 ++ e1]))) as l eqn:El. clear El.
  apply Forall2_cons_inv_l in HF as (c1 & l1 & (Ha1 & Hb1 & Hc1) & HF & ->).
  apply Forall2_cons_inv_l in HF as (c2 & l2 & (Ha2 & Hb2 & Hc2) & HF & ->).
  apply Forall2_nil_inv_l in HF as ->. cbn [List.map].
  rewrite Ha1, Hb1, Hc1, Ha2, Hb2, Hc2.
  rewrite !titleMatch_pair by assumption.
  rewrite !descMatch_plain by (assumption || constructor).
  reflexivity.
Qed.

Lemma two_pairs_two_candidates_witness :
  oneLine (lit "Login") /\
  ~ occurs (lit "Description: ") (lit "Login") /\
  List.map (fun c => (title c, description c, published c))
    (snd (run Samples.storiesDown [] (Chat.extract
       (pair (lit "Login") (lit "As a user") ++ LF :: repeat LF 1
        ++ pair (lit "Export") (lit "As an admin") ++ repeat LF 0))))
  = [(lit "Login", lit "As a user", false);
     (lit "Export", lit "As an admin", false)].
Proof.
  assert (forall s, length s < 13 -> ~ occurs (lit "Description: ") s)%nat
    as Hshort.
  { intros s Hs (a & b & ->). rewrite !length_app in Hs.
    change (length (lit "Description: ")) with 13%nat in Hs. lia. }
  split; [repeat constructor|].
  split; [apply Hshort; apply Nat.ltb_lt; reflexivity|].
  apply two_pairs_two_candidates; try (repeat constructor);
    apply Hshort; apply Nat.ltb_lt; reflexivity.
Defined.

(** ** The results at sample inputs *)

Lemma step_to σ σ1 σ2 : Store.step σ σ1 -> σ1 = σ2 -> Store.step σ σ2.
Proof. now intros H <-. Defined.

Lemma twoCalls_run : Store.steps Samples.twoCalls Samples.twoCallsDone.
Proof.
  eapply Store.steps_step; [eapply Store.steps_step;
    [eapply Store.steps_step; [eapply Store.steps_step;
      [apply Store.steps_refl|]|]|]|].
  - apply (@Store.step_enter Samples.twoCalls 0
             {| Store.target := Samples.draftKey;
                Store.phase := Store.Waiting |}); reflexivity.
  - apply (@Store.step_created _ 0
             {| Store.target := Samples.draftKey;
                Store.phase := Store.Calling Samples.draftStory |}
             Samples.draftStory (lit "PO-8")); reflexivity.
  - apply (@Store.step_commit _ 0
             {| Store.target := Samples.draftKey;
                Store.phase :=
                  Store.Created Samples.draftStory (lit "PO-8") |}
             Samples.draftStory (lit "PO-8") 3%N); reflexivity.
  - eapply step_to.
    + apply (@Store.step_enter _ 1
               {| Store.target := Samples.draftKey;
                  Store.phase := Store.Waiting |}); reflexivity.
    + vm_compute. reflexivity.
Defined.


(** The two candidates of a turn are both sent to the store although the
    store rejects every request. *)
Example stories_sent_to_a_failing_store :
  List.map fst
    (requests (fst (run Samples.storiesDown []
                      (Chat.handleSend (Some (lit "PO")) Samples.chatState))))
  = [lit "/chat"; lit "/stories"; lit "/stories"].
Proof. vm_compute. reflexivity. Qed.

Lemma every_candidate_is_stored_witness :
  requests
    (fst (run Samples.storiesDown []
            (Chat.handleSend (Some (lit "PO")) Samples.chatState)))
  = requests [] ++
    (lit "/chat", ChatBody (Chat.input Samples.chatState) (lit "PO")) ::
    List.map (storeRequest (lit "PO"))
      (snd (run Samples.storiesDown
              (historyAtExtraction Samples.storiesDown [] (lit "PO")
                 Samples.chatState)
              (Chat.extract Samples.sortStory))).
Proof.
  exact (proj1 (proj2 (every_candidate_is_stored Samples.storiesDown []
                         (lit "PO"))
                  Samples.chatState
                  {| response := Some Samples.sortStory; image_path := None;
                     data_description := None; jira_key := None |}
                  Samples.sortStory eq_refl eq_refl eq_refl eq_refl)).
Defined.

Lemma no_project_no_request_witness :
  falsyOpt None = true /\
  run Samples.storiesDown [] (Chat.handleSend None Samples.chatState)
    = ([], Samples.chatState) /\
  requests
    (fst (run Samples.storiesDown []
            (Chat.handleFileUpload (Some []) Samples.brd Samples.chatState)))
    = [].
Proof.
  split; [reflexivity|]. split.
  - apply (proj1 (@no_project_no_request Samples.storiesDown [] None
                    eq_refl)).
  - apply (proj1 (proj2 (@no_project_no_request Samples.storiesDown []
                           (Some []) eq_refl))).
Defined.

(** With a project selected the same upload does send a request. *)
Example upload_with_project :
  List.map fst
    (requests
       (fst (run Samples.storiesDown []
               (Chat.handleFileUpload (Some (lit "PO")) Samples.brd
                  Samples.chatState))))
  = [lit "/chat"].
Proof. vm_compute. reflexivity. Qed.

Lemma failed_generation_is_reported_witness :
  falsy (trim (Chat.input Samples.chatState)) = false /\
  falsy (lit "PO") = false /\
  replyToChat (Samples.world 1000 "0.5" Rejected) [] (lit "PO")
    Samples.chatState = Rejected /\
  exists userMessage failure,
    snd (run (Samples.world 1000 "0.5" Rejected) []
           (Chat.handleSend (Some (lit "PO")) Samples.chatState))
      = {| Chat.messages :=
             Chat.messages Samples.chatState ++ [userMessage; failure];
           Chat.input := []; Chat.isLoading := false;
           Chat.isUploading := Chat.isUploading Samples.chatState |} /\
    Chat.msg_type userMessage = Chat.user /\
    Chat.content userMessage = Some (Chat.input Samples.chatState) /\
    Chat.msg_type failure = Chat.assistant /\
    Chat.content failure
      = Some (lit "Failed to process your message. Please try again.") /\
    Chat.generatedStories failure = None /\
    requests
      (fst (run (Samples.world 1000 "0.5" Rejected) []
              (Chat.handleSend (Some (lit "PO")) Samples.chatState)))
      = requests [] ++
        [(lit "/chat", ChatBody (Chat.input Samples.chatState) (lit "PO"))].
Proof.
  split; [reflexivity|]. split; [reflexivity|]. split; [reflexivity|].
  apply (@failed_generation_is_reported (Samples.world 1000 "0.5" Rejected)
           [] (lit "PO") Samples.chatState); [reflexivity|reflexivity|exact I].
Defined.

Lemma published_story_is_not_edited_witness :
  Stories.published Samples.publishedRow = true /\
  Stories.clickEdit (Some (lit "PO")) Samples.publishedRow Samples.table
    = Samples.table /\
  Samples.stored !! Samples.publishedKey = Some Samples.publishedStory /\
  Store.status Samples.publishedStory = Store.published /\
  Store.update 5 Samples.publishedKey (Some (lit "Import")) None
    Samples.stored
    = (inl Store.InvalidStateError, Samples.stored).
Proof.
  assert (Samples.stored !! Samples.publishedKey
          = Some Samples.publishedStory) as Hk by (vm_compute; reflexivity).
  split; [reflexivity|]. split; [|split; [exact Hk|split; [reflexivity|]]].
  - apply (proj1 published_story_is_not_edited). reflexivity.
  - apply (proj1 (proj2 (proj2 published_story_is_not_edited))
             5%N Samples.publishedKey (Some (lit "Import")) None
             Samples.stored Samples.publishedStory Hk).
    reflexivity.
Defined.


(** The table after the publish of the draft succeeded, and after it
    failed. *)
Example publish_succeeded :
  Stories.stories <$>
    snd (run (Samples.world 1000 "0.5"
                (Resolved (Some Samples.published8))) []
           (Stories.handlePublish (Some (lit "PO")) Samples.draftRow
              Samples.table))
  = Some [ {| Stories.id := lit "17"; Stories.title := lit "Login";
              Stories.description := lit "As a user I want to log in";
              Stories.published := true;
              Stories.jira_key := Some (lit "PO-8") |};
           Samples.publishedRow ].
Proof. vm_compute. reflexivity. Qed.

Example publish_failed :
  snd (run (Samples.world 1000 "0.5" Rejected) []
         (Stories.handlePublish (Some (lit "PO")) Samples.draftRow
            Samples.table))
  = Some
      (Stories.setMessage
         (Some (Stories.error,
                lit "Failed to publish story. Please try again."))
         Samples.table).
Proof. vm_compute. reflexivity. Qed.

(** A resolved reply whose body is [null]: the table cannot be rendered
    any more. *)
Example publish_with_null_body :
  snd (run (Samples.world 1000 "0.5" (Resolved None)) []
         (Stories.handlePublish (Some (lit "PO")) Samples.draftRow
            Samples.table))
  = None.
Proof. vm_compute. reflexivity. Qed.

(** The guard of the publish button keeps one story id only: while the
    publish of another story is on its way, the button of the first story
    is enabled again.  That calls for the same story exclude each other is
    the store's doing. *)
Example publish_button_enabled_again :
  Stories.publishDisabled
    (Stories.setIsPublishing (Some (lit "17")) Samples.table)
    Samples.draftRow = true /\
  Stories.publishDisabled
    (Stories.setIsPublishing (Some (lit "19"))
       (Stories.setIsPublishing (Some (lit "17")) Samples.table))
    Samples.draftRow = false.
Proof. split; reflexivity. Qed.

(* ================================================================== *)
(** * Part III: further results                                        *)
(* ================================================================== *)

Import Reading.

(** ** More on the candidates of a generated text *)

Lemma scattered_app a ms s : scattered ms s -> scattered ms (a ++ s).
Proof.
  destruct 1 as [s|pre mm ms s H]; [constructor|].
  rewrite app_assoc. now constructor.
Qed.

Lemma matchesFrom_scattered n r s : scattered (matchesFrom n r s) s.
Proof.
  revert s. induction n as [|n IH]; intros s; [constructor|].
  rewrite matchesFrom_S. destruct (exec r s) as [x|] eqn:E; [|constructor].
  apply exec_split in E as (pre & ->).
  destruct (matched x) as [|a l] eqn:Em.
  - destruct (rest x) as [|b s'] eqn:Er.
    + apply (scattered_cons pre [] (scattered_nil [])).
    + apply (scattered_cons pre []). apply (scattered_app [b]), IH.
  - rewrite <- Em. constructor. apply IH.
Qed.

(** X1.  The title of every candidate is the title the story pattern
    captured: the candidate comes from an occurrence of
    "Story Title: t", newline, "Description: d" in the response, followed
    by a newline or by the end of the response; its title is [t], within
    one line, and it is not published. *)
Theorem title_is_captured w h response c :
  In c (snd (run w h (Chat.extract response))) ->
  exists pre t d e,
    response = pre ++ pair t d ++ e /\
    oneLine t /\ oneLine d /\ (e = [] \/ exists e', e = LF :: e') /\
    title c = t /\ published c = false.
Proof.
  intros Hin. pose proof (run_extract_In Hin) as (l & mm & _ & _ & _ & _ & Hp).
  apply candidate_fields in Hin
    as (pre & t & d & e & e1 & e2 & -> & Ht & Hd & He & Htitle & _).
  rewrite titleMatch_pair in Htitle by assumption. injection Htitle as <-.
  exists pre, t, d, e. repeat split; try assumption.
  destruct He; [now left|right; eauto].
Qed.

Lemma title_is_captured_witness :
  In (Samples.loginStory "10000.5")
     (snd (run (Samples.world 1000 "0.5" Rejected) []
             (Chat.extract Samples.twoLines))) /\
  exists pre t d e,
    Samples.twoLines = pre ++ pair t d ++ e /\
    oneLine t /\ oneLine d /\ (e = [] \/ exists e', e = LF :: e') /\
    title (Samples.loginStory "10000.5") = t /\
    published (Samples.loginStory "10000.5") = false.
Proof.
  split.
  - vm_compute. left. reflexivity.
  - apply (@title_is_captured (Samples.world 1000 "0.5" Rejected) []
             Samples.twoLines (Samples.loginStory "10000.5")).
    vm_compute. left. reflexivity.
Defined.

(** X2.  The candidates come from parts of the response that stand one
    after the other without overlap, in reading order, one candidate for
    each part; each part is a title line and a description line, with the
    newline that ends it if there is one. *)
Theorem candidates_in_reading_order w h response :
  exists parts,
    scattered parts response /\
    Forall2 (fun part c =>
        exists t d e1,
          part = pair t d ++ e1 /\ oneLine t /\ oneLine d /\
          (e1 = [] \/ e1 = [LF]) /\ title c = t)
      parts (snd (run w h (Chat.extract response))).
Proof.
  unfold Chat.extract. destruct (Chat.storyMatch response) as [l|] eqn:El.
  - exists l. split.
    + unfold Chat.storyMatch, matchGlobal in El.
      destruct (matchesFrom _ _ _) eqn:E; [discriminate|].
      injection El as <-. rewrite <- E. apply matchesFrom_scattered.
    + assert (Forall (fun mm => exists t d e1,
                mm = pair t d ++ e1 /\ oneLine t /\ oneLine d /\
                (e1 = [] \/ e1 = [LF])) l) as Hshape.
      { apply Forall_forall. intros mm Hmm. apply list_elem_of_In in Hmm.
        destruct (storyMatch_In El Hmm)
          as (pre & t & d & e & e1 & e2 & _ & Ht & Hd & He & ->).
        exists t, d, e1. repeat split; try assumption.
        destruct He; auto. }
      destruct (run_stories w h l) as [HF _]. clear El. revert Hshape.
      induction HF as [|mm c l' cs (Ht & _) HF IH]; intros Hshape;
        [constructor|].
      apply Forall_cons in Hshape as [(t & d & e1 & -> & Hot & Hod & He) Hs].
      constructor; [|now apply IH].
      exists t, d, e1. repeat split; try assumption.
      rewrite Ht. now rewrite titleMatch_pair.
  - exists []. split; constructor.
Qed.

(** X3.  A response in which every line feed follows a carriage return
    (Windows line endings) yields no candidate: the title group stops at
    the carriage return, where the pattern wants a line feed. *)
Theorem crlf_response_has_no_candidates w h response :
  crlfOnly response -> run w h (Chat.extract response) = (h, []).
Proof.
  intros Hcr. unfold Chat.extract, Chat.storyMatch, matchGlobal.
  cbn [matchesFrom].
  destruct (exec Chat.storyRe response) as [x|] eqn:E; [|reflexivity].
  exfalso. apply exec_Some in E as (pre & s' & -> & E).
  apply matchAt_storyRe in E as (t & d & e & _ & _ & -> & Ht & _).
  unfold pair in Hcr.
  destruct (Hcr (pre ++ lit "Story Title: " ++ t)
                (lit "Description: " ++ d ++ e)) as [a' Ha].
  { rewrite <- !app_assoc. cbn [app]. now rewrite <- !app_assoc. }
  destruct t as [|z t] using rev_ind.
  - rewrite app_nil_r in Ha.
    change (lit "Story Title: ") with (lit "Story Title:" ++ [32%N]) in Ha.
    rewrite !app_assoc in Ha. apply app_inj_tail in Ha as [_ Ha].
    discriminate Ha.
  - rewrite !app_assoc in Ha. apply app_inj_tail in Ha as [_ Ha]. subst z.
    apply Forall_app in Ht as [_ Ht]. inversion Ht as [|? ? Hz]. discriminate.
Qed.

Lemma crlfOnly_lines (u v : jsstring) :
  Forall (fun c => c <> LF) u -> Forall (fun c => c <> LF) v ->
  crlfOnly (u ++ CR :: LF :: v).
Proof.
  intros Hu Hv a b. revert a. induction Hu as [|x u Hx Hu IH]; intros a E.
  - destruct a as [|y a]; cbn [app] in E; [discriminate E|].
    injection E as <- E. destruct a as [|y a]; cbn [app] in E.
    + now exists [].
    + injection E as <- E. exfalso. rewrite E in Hv.
      apply Forall_app in Hv as [_ Hv]. inversion Hv. congruence.
  - destruct a as [|y a]; cbn [app] in E.
    + injection E as E _. congruence.
    + injection E as <- E. destruct (IH _ E) as [a' ->]. now exists (x :: a').
Qed.

Lemma crlf_response_has_no_candidates_witness :
  crlfOnly (lit "Story Title: Login" ++ CR :: LF :: lit "Description: d") /\
  run Samples.storiesDown []
    (Chat.extract
       (lit "Story Title: Login" ++ CR :: LF :: lit "Description: d"))
  = ([], []).
Proof.
  assert (crlfOnly
            (lit "Story Title: Login" ++ CR :: LF :: lit "Description: d"))
    as H by (apply crlfOnly_lines; repeat constructor; discriminate).
  split; [exact H|].
  exact (@crlf_response_has_no_candidates Samples.storiesDown [] _ H).
Defined.

(** ** More on the chat turn *)

Lemma storyMatch_not_nil response : Chat.storyMatch response <> Some [].
Proof.
  unfold Chat.storyMatch, matchGlobal.
  now destruct (matchesFrom _ _ _).
Qed.

Lemma storyMatch_no_marker response :
  ~ occurs (lit "Story Title:") response -> Chat.storyMatch response = None.
Proof.
  intros Hno. unfold Chat.storyMatch, matchGlobal. cbn [matchesFrom].
  destruct (exec Chat.storyRe response) as [x|] eqn:E; [|reflexivity].
  exfalso. apply Hno.
  apply exec_Some in E as (pre & s' & -> & E).
  apply matchAt_storyRe in E as (t & d & e & _ & _ & -> & _).
  unfold pair. rewrite lit_title_marker.
  exists pre. eexists. rewrite <- !app_assoc. reflexivity.
Qed.

(** The [try] block on a reply that carries a text. *)
Lemma run_sendReplied_answer w h pk data answer st :
  response data = Some answer ->
  exists assistantMessage,
    snd (run w h (Chat.sendReplied pk (Resolved (Some data)) st))
      = Chat.setMessages (fun prev => prev ++ [assistantMessage]) st /\
    Chat.msg_type assistantMessage = Chat.assistant /\
    Chat.content assistantMessage = Some answer /\
    Chat.attachments assistantMessage = None /\
    match Chat.storyMatch answer with
    | None =>
        Chat.generatedStories assistantMessage = None /\
        requests
          (fst (run w h (Chat.sendReplied pk (Resolved (Some data)) st)))
          = requests h
    | Some matches =>
        exists stories,
          Chat.generatedStories assistantMessage = Some stories /\
          length stories = length matches /\
          requests
            (fst (run w h (Chat.sendReplied pk (Resolved (Some data)) st)))
            = requests h ++ List.map (storeRequest pk) stories
    end.
Proof.
  intros Ha. cbn [Chat.sendReplied]. cbn [mbind option_bind]. rewrite Ha.
  rewrite run_mbind. cbn [call run fst snd].
  rewrite run_mbind. cbn [call run fst snd].
  pose proof (@storyMatch_not_nil answer) as Hnn.
  destruct (Chat.storyMatch answer) as [matches|].
  2:{ eexists. split; [reflexivity|]. cbn. rewrite !requests_app. cbn.
      rewrite !app_nil_r. auto. }
  rewrite run_mbind.
  destruct (run_stories w ((h ++ [Ev DateNow (w N h DateNow)]) ++
    [Ev DateNow (w N (h ++ [Ev DateNow (w N h DateNow)]) DateNow)]) matches)
    as [HF Hr].
  apply Forall2_length in HF.
  destruct (snd (run w _ (mapM Chat.storyOf matches))) as [|c l] eqn:El.
  - destruct matches; [now destruct Hnn|discriminate HF].
  - cbn [length Nat.ltb Nat.leb]. rewrite run_mbind.
    eexists. split; [reflexivity|].
    cbn [run fst snd mret Prog_ret]. rewrite storeStories_requests, Hr.
    rewrite !requests_app. cbn [requests omap request app].
    split; [reflexivity|]. split; [reflexivity|]. split; [reflexivity|].
    exists (c :: l). split; [reflexivity|]. split; [now symmetry|].
    cbn. now rewrite !app_nil_r.
Qed.

(** X4.  A turn whose reply carries a text shows that text as it is in
    the assistant's message, after the user's message; the input is
    cleared and the loading flag is off again.  Stories are attached
    exactly when the story pattern matches the text, one for each match,
    and each of them is sent to the store after the chat request. *)
Theorem answered_turn w h pk st data answer :
  falsy (trim (Chat.input st)) = false -> falsy pk = false ->
  replyToChat w h pk st = Resolved (Some data) ->
  response data = Some answer ->
  exists userMessage assistantMessage,
    snd (run w h (Chat.handleSend (Some pk) st))
      = {| Chat.messages :=
             Chat.messages st ++ [userMessage; assistantMessage];
           Chat.input := []; Chat.isLoading := false;
           Chat.isUploading := Chat.isUploading st |} /\
    Chat.msg_type userMessage = Chat.user /\
    Chat.content userMessage = Some (Chat.input st) /\
    Chat.msg_type assistantMessage = Chat.assistant /\
    Chat.content assistantMessage = Some answer /\
    match Chat.storyMatch answer with
    | None =>
        Chat.generatedStories assistantMessage = None /\
        requests (fst (run w h (Chat.handleSend (Some pk) st)))
          = requests h ++ [(lit "/chat", ChatBody (Chat.input st) pk)]
    | Some matches =>
        exists stories,
          Chat.generatedStories assistantMessage = Some stories /\
          length stories = length matches /\
          requests (fst (run w h (Chat.handleSend (Some pk) st)))
            = requests h ++
              (lit "/chat", ChatBody (Chat.input st) pk) ::
              List.map (storeRequest pk) stories
    end.
Proof.
  intros Hin Hpk Hreply Ha.
  destruct (run_handleSend w h Hin Hpk) as (um & h3 & Hu1 & Hu2 & Hr & Hrun).
  cbv zeta in Hrun. rewrite Hrun, Hreply.
  destruct (run_sendReplied_answer w h3 pk
    (Chat.setIsLoading true
       (Chat.setInput []
          (Chat.setMessages (fun prev => prev ++ [um]) st))) Ha)
    as (am & Hst & Ham & Hc & _ & Hcase).
  exists um, am. cbn [fst snd]. rewrite Hst.
  split; [|repeat split; try assumption].
  - unfold Chat.setIsLoading, Chat.setInput, Chat.setMessages. cbn.
    f_equal. now rewrite <- app_assoc.
  - destruct (Chat.storyMatch answer) as [matches|].
    + destruct Hcase as (stories & Hg & Hl & Hreq). exists stories.
      rewrite Hreq, Hr, <- app_assoc. auto.
    + destruct Hcase as (Hg & Hreq). now rewrite Hreq, Hr.
Qed.

Lemma answered_turn_witness :
  falsy (trim (Chat.input Samples.chatState)) = false /\
  falsy (lit "PO") = false /\
  exists userMessage assistantMessage,
    snd (run Samples.storiesDown []
           (Chat.handleSend (Some (lit "PO")) Samples.chatState))
      = {| Chat.messages :=
             Chat.messages Samples.chatState
             ++ [userMessage; assistantMessage];
           Chat.input := []; Chat.isLoading := false;
           Chat.isUploading := Chat.isUploading Samples.chatState |} /\
    Chat.content assistantMessage = Some Samples.sortStory.
Proof.
  split; [reflexivity|]. split; [reflexivity|].
  destruct (@answered_turn Samples.storiesDown [] (lit "PO")
              Samples.chatState
              {| response := Some Samples.sortStory; image_path := None;
                 data_description := None; jira_key := None |}
              Samples.sortStory eq_refl eq_refl eq_refl eq_refl)
    as (um & am & H1 & _ & _ & _ & H2 & _).
  exists um, am. exact (conj H1 H2).
Defined.

(** X5.  A reply without the text "Story Title:" attaches no story and
    touches the store with no request: the chat request is the only one
    of the turn. *)
Theorem plain_answer_stores_nothing w h pk st data answer :
  falsy (trim (Chat.input st)) = false -> falsy pk = false ->
  replyToChat w h pk st = Resolved (Some data) ->
  response data = Some answer ->
  ~ occurs (lit "Story Title:") answer ->
  requests (fst (run w h (Chat.handleSend (Some pk) st)))
    = requests h ++ [(lit "/chat", ChatBody (Chat.input st) pk)] /\
  exists userMessage assistantMessage,
    Chat.messages (snd (run w h (Chat.handleSend (Some pk) st)))
      = Chat.messages st ++ [userMessage; assistantMessage] /\
    Chat.content assistantMessage = Some answer /\
    Chat.generatedStories assistantMessage = None.
Proof.
  intros Hin Hpk Hreply Ha Hno.
  destruct (run_handleSend w h Hin Hpk) as (um & h3 & Hu1 & Hu2 & Hr & Hrun).
  cbv zeta in Hrun. rewrite Hrun, Hreply.
  destruct (run_sendReplied_answer w h3 pk
    (Chat.setIsLoading true
       (Chat.setInput []
          (Chat.setMessages (fun prev => prev ++ [um]) st))) Ha)
    as (am & Hst & _ & Hc & _ & Hcase).
  rewrite (storyMatch_no_marker Hno) in Hcase. destruct Hcase as [Hg Hreq].
  cbn [fst snd]. split; [now rewrite Hreq, Hr|].
  exists um, am. rewrite Hst. split; [|auto].
  cbn. now rewrite <- app_assoc.
Qed.

Lemma plain_answer_stores_nothing_witness :
  requests (fst (run
     (Samples.world 1000 "0.5"
        (Resolved (Some {| response := Some (lit "No stories today.");
                           image_path := None; data_description := None;
                           jira_key := None |}))) []
     (Chat.handleSend (Some (lit "PO")) Samples.chatState)))
  = [(lit "/chat", ChatBody (lit "Write the stories") (lit "PO"))].
Proof.
  refine (proj1 (@plain_answer_stores_nothing _ [] (lit "PO")
    Samples.chatState
    {| response := Some (lit "No stories today."); image_path := None;
       data_description := None; jira_key := None |}
    (lit "No stories today.") eq_refl eq_refl eq_refl eq_refl _)).
  intros (a & b & E). revert E. vm_compute.
  do 6 (destruct a as [|? a]; [discriminate|]).
  intros E. apply (f_equal (@length _)) in E.
  cbn [length] in E. rewrite length_app in E. cbn [length] in E. lia.
Defined.

(** ** When a message is sent *)

Lemma trimStart_nil s : trimStart s = [] <-> blank s.
Proof.
  unfold blank. induction s as [|c s IH]; cbn [trimStart].
  - split; [constructor|reflexivity].
  - destruct (isWhiteSpace c || isLineTerminator c) eqn:E.
    + rewrite IH. split; [now constructor|]. intros H.
      now apply Forall_cons_iff in H.
    + split; [discriminate|]. intros H. apply Forall_cons_iff in H as [H _].
      rewrite E in H. discriminate H.
Qed.

Lemma trimStart_blank s : blank (trimStart s) -> trimStart s = [].
Proof.
  unfold blank. induction s as [|c s IH]; cbn [trimStart]; [reflexivity|].
  destruct (isWhiteSpace c || isLineTerminator c) eqn:E; [exact IH|].
  intros H. apply Forall_cons_iff in H as [H _]. rewrite E in H.
  discriminate H.
Qed.

Lemma blank_rev s : blank (rev s) <-> blank s.
Proof.
  unfold blank. split; intros H.
  - rewrite <- (rev_involutive s). now apply List.Forall_rev.
  - now apply List.Forall_rev.
Qed.

Lemma trim_blank s : falsy (trim s) = true <-> blank s.
Proof.
  unfold trim. split.
  - intros H. destruct (rev (trimStart (rev (trimStart s)))) eqn:E;
      [|discriminate H].
    apply (f_equal (@rev _)) in E. rewrite rev_involutive in E. cbn in E.
    apply trimStart_nil, blank_rev, trimStart_blank in E.
    now apply trimStart_nil.
  - intros H. apply trimStart_nil in H. now rewrite H.
Qed.

Lemma handleSend_requests w h pk st :
  falsy (trim (Chat.input st)) = false -> falsy pk = false ->
  exists more,
    requests (fst (run w h (Chat.handleSend (Some pk) st)))
      = requests h ++ (lit "/chat", ChatBody (Chat.input st) pk) :: more.
Proof.
  intros Hin Hpk.
  destruct (run_handleSend w h Hin Hpk) as (um & h3 & _ & _ & Hr & Hrun).
  cbv zeta in Hrun. rewrite Hrun. cbn [fst].
  destruct (run_sendReplied w h3 pk (replyToChat w h pk st)
    (Chat.setIsLoading true
       (Chat.setInput []
          (Chat.setMessages (fun prev => prev ++ [um]) st))))
    as (am & _ & _ & Hreq & _).
  rewrite Hreq, Hr, <- app_assoc. eexists. reflexivity.
Qed.

Lemma handleSend_guard w h selectedProject st :
  run w h (Chat.handleSend selectedProject st) = (h, st) <->
  falsy (trim (Chat.input st)) || falsyOpt selectedProject = true.
Proof.
  split.
  - intros Hrun.
    destruct (falsy (trim (Chat.input st))) eqn:Hin; [reflexivity|].
    destruct selectedProject as [pk|]; [|reflexivity]. cbn.
    destruct (falsy pk) eqn:Hpk; [reflexivity|]. exfalso.
    destruct (handleSend_requests w h (st := st) Hin Hpk) as (more & Hreq).
    rewrite Hrun in Hreq. cbn [fst] in Hreq.
    apply (f_equal (@length _)) in Hreq. rewrite length_app in Hreq.
    cbn [length] in Hreq. lia.
  - intros Hg. unfold Chat.handleSend. now rewrite Hg.
Qed.

(** X6.  [handleSend] returns at once, with no request and the state as
    it was, exactly when the input holds nothing but white space and line
    terminators, or no project is selected (the selection is [null] or
    the empty string). *)
Theorem send_needs_text_and_project w h selectedProject st :
  run w h (Chat.handleSend selectedProject st) = (h, st) <->
  blank (Chat.input st) \/ selectedProject = None \/ selectedProject = Some [].
Proof.
  rewrite handleSend_guard, orb_true_iff, trim_blank.
  split; (intros [H|H]; [now left|right]).
  - destruct selectedProject as [[|c pk]|]; auto. discriminate H.
  - now destruct H as [-> | ->].
Qed.

(** X7.  In the enabled text field, Enter without Shift suppresses the
    line break and sends the message exactly when the send button is
    enabled: with the send button disabled it sends no request and
    leaves the state as it is, and otherwise it sends the chat request. *)
Theorem enter_sends_like_the_button w h selectedProject event st :
  Controls.inputDisabled selectedProject st = false ->
  Controls.key event = lit "Enter" -> Controls.shiftKey event = false ->
  fst (Controls.handleKeyPress selectedProject event st) = true /\
  (Controls.sendDisabled selectedProject st = true <->
   run w h (snd (Controls.handleKeyPress selectedProject event st))
     = (h, st)) /\
  (Controls.sendDisabled selectedProject st = false ->
   exists more,
     requests
       (fst (run w h (snd (Controls.handleKeyPress selectedProject event st))))
     = requests h ++
       (lit "/chat", ChatBody (Chat.input st) (default [] selectedProject))
       :: more).
Proof.
  unfold Controls.inputDisabled, Controls.sendDisabled,
    Controls.handleKeyPress.
  intros Hd -> ->.
  replace (JS.eqb (lit "Enter") (lit "Enter")) with true by reflexivity.
  cbn [negb andb fst snd]. split; [reflexivity|].
  apply orb_false_iff in Hd as [Hd Hp].
  apply orb_false_iff in Hd as [Hl Hu]. rewrite Hl, Hu, Hp, !orb_false_r.
  split.
  - rewrite handleSend_guard, Hp, orb_false_r. reflexivity.
  - intros Hin. destruct selectedProject as [pk|]; [|discriminate Hp].
    cbn in Hp. exact (handleSend_requests w h Hin Hp).
Qed.

Lemma enter_sends_like_the_button_witness :
  exists more,
    requests
      (fst (run Samples.storiesDown []
         (snd (Controls.handleKeyPress (Some (lit "PO"))
                 {| Controls.key := lit "Enter";
                    Controls.shiftKey := false |} Samples.chatState))))
    = (lit "/chat", ChatBody (lit "Write the stories") (lit "PO")) :: more.
Proof.
  exact (proj2 (proj2 (@enter_sends_like_the_button Samples.storiesDown []
    (Some (lit "PO"))
    {| Controls.key := lit "Enter"; Controls.shiftKey := false |}
    Samples.chatState eq_refl eq_refl eq_refl)) eq_refl).
Defined.

(** ** Uploads from the chat *)

Lemma alerts_app h h' :
  Controls.alerts (h ++ h') = Controls.alerts h ++ Controls.alerts h'.
Proof.
  unfold Controls.alerts. induction h as [|e h IH]; [reflexivity|].
  cbn. destruct (Controls.alert e); cbn; now rewrite IH.
Qed.

(** X8.  With a project selected, [handleFileUpload] sends at most one
    request: an image goes to [/upload_image] as form data, the text of
    any other file to [/chat], and a file of another kind that cannot be
    read is not sent at all; nothing goes to the store.  When it ends the
    uploading flag is off whatever happened, the input and the loading
    flag are untouched, and the conversation has grown at its end by at
    most two messages, none of which carries stories. *)
Theorem upload_sends_at_most_one_request w h pk file st :
  falsy pk = false ->
  let out := run w h (Chat.handleFileUpload (Some pk) file st) in
  requests (fst out)
    = requests h ++
      match uploadRequest pk file with
      | Some request => [request]
      | None => []
      end /\
  Chat.isUploading (snd out) = false /\
  Chat.input (snd out) = Chat.input st /\
  Chat.isLoading (snd out) = Chat.isLoading st /\
  exists added,
    Chat.messages (snd out) = Chat.messages st ++ added /\
    (length added <= 2)%nat /\
    Forall (fun m => Chat.generatedStories m = None) added.
Proof.
  intros Hpk out. subst out. unfold Chat.handleFileUpload, uploadRequest.
  cbn [falsyOpt]. rewrite Hpk. cbv zeta. rewrite run_mbind.
  destruct (startsWith (lit "image/") (file_type file)).
  - unfold Chat.uploadImage. rewrite run_mbind. cbn [call run fst snd].
    destruct (w Reply h _) as [|[data|]].
    + cbn. rewrite !requests_app. cbn. rewrite !app_nil_r.
      repeat split. exists []. rewrite app_nil_r. repeat split; auto.
    + cbn. destruct (falsyOpt (data_description data)); cbn;
        rewrite !requests_app; cbn; rewrite ?app_nil_r; repeat split.
      * eexists [_]. repeat split; auto.
      * eexists [_; _]. rewrite <- app_assoc. repeat split; auto.
    + cbn. rewrite !requests_app. cbn. rewrite !app_nil_r.
      repeat split. exists []. rewrite app_nil_r. repeat split; auto.
  - unfold Chat.uploadDocument.
    destruct (file_text file) as [fileContent|].
    2:{ cbn. rewrite !requests_app. cbn. rewrite !app_nil_r.
        repeat split. exists []. rewrite app_nil_r. repeat split; auto. }
    unfold Chat.uploadText. cbv zeta.
    do 4 (rewrite run_mbind; cbn [call run fst snd]).
    match goal with |- context [w Reply ?hh ?c] =>
      destruct (w Reply hh c) as [|[data|]] end.
    + cbn. rewrite !requests_app. cbn. rewrite !app_nil_r.
      repeat split. eexists [_]. repeat split; auto.
    + cbn. rewrite !requests_app. cbn. rewrite ?app_nil_r.
      repeat split. eexists [_; _]. rewrite <- app_assoc.
      repeat split; auto.
    + cbn. rewrite !requests_app. cbn. rewrite !app_nil_r.
      repeat split. eexists [_]. repeat split; auto.
Qed.

Lemma upload_sends_at_most_one_request_witness :
  requests (fst (run Samples.storiesDown []
     (Chat.handleFileUpload (Some (lit "PO")) Samples.brd
        Samples.chatState)))
  = [(lit "/chat",
      ChatBody (lit "Please analyze this document:" ++ [LF]
                  ++ lit "The shop sells books.") (lit "PO"))].
Proof.
  exact (proj1 (@upload_sends_at_most_one_request Samples.storiesDown []
                  (lit "PO") Samples.brd Samples.chatState eq_refl)).
Defined.

(** X9.  What an upload leaves in the conversation.  A file that is no
    image and cannot be read is reported by one alert and leaves the
    conversation as it was.  A rejected upload, and a reply whose body is
    [null], are reported by one alert too; for an image the conversation
    is then as it was, for any other file the notice
    "Uploaded document: <name>" that was shown before the request stays.
    An accepted image is noted with the path and the description of the
    reply, and the description, if the reply has one, follows as the
    assistant's message.  For any other file the assistant's message
    takes the text of the reply as it is, also when the reply has
    none. *)
Theorem upload_outcome w h pk file st :
  falsy pk = false ->
  let out := run w h (Chat.handleFileUpload (Some pk) file st) in
  let image := startsWith (lit "image/") (file_type file) in
  match replyToUpload w h pk file with
  | None =>
      Controls.alerts (fst out)
        = Controls.alerts h ++ [lit "Failed to upload file. Please try again."]
      /\ Chat.messages (snd out) = Chat.messages st
  | Some Rejected | Some (Resolved None) =>
      Controls.alerts (fst out)
        = Controls.alerts h ++ [lit "Failed to upload file. Please try again."]
      /\
      if image then Chat.messages (snd out) = Chat.messages st
      else
        exists notice,
          Chat.messages (snd out) = Chat.messages st ++ [notice] /\
          Chat.msg_type notice = Chat.user /\
          Chat.content notice
            = Some (lit "Uploaded document: " ++ file_name file)
  | Some (Resolved (Some data)) =>
      Controls.alerts (fst out) = Controls.alerts h /\
      exists notice,
        Chat.msg_type notice = Chat.user /\
        if image then
          Chat.content notice = Some (lit "Uploaded image:") /\
          Chat.attachments notice
            = Some [{| Chat.att_type := lit "image";
                       Chat.url := image_path data;
                       Chat.att_name := file_name file;
                       Chat.att_description := data_description data |}] /\
          match data_description data with
          | Some (c :: description) =>
              exists answer,
                Chat.messages (snd out)
                  = Chat.messages st ++ [notice; answer] /\
                Chat.msg_type answer = Chat.assistant /\
                Chat.content answer = Some (c :: description)
          | _ => Chat.messages (snd out) = Chat.messages st ++ [notice]
          end
        else
          Chat.content notice
            = Some (lit "Uploaded document: " ++ file_name file) /\
          exists answer,
            Chat.messages (snd out) = Chat.messages st ++ [notice; answer] /\
            Chat.msg_type answer = Chat.assistant /\
            Chat.content answer = response data
  end.
Proof.
  intros Hpk out image. subst out image.
  unfold Chat.handleFileUpload, replyToUpload.
  cbn [falsyOpt]. rewrite Hpk. cbv zeta.
  change (default [] (Some pk)) with pk. rewrite run_mbind.
  destruct (startsWith (lit "image/") (file_type file)).
  - unfold Chat.uploadImage. rewrite run_mbind. cbn [call run fst snd].
    destruct (w Reply h _) as [|[data|]].
    + cbn. rewrite !alerts_app. cbn. now rewrite !app_nil_r.
    + cbn. destruct (data_description data) as [[|c d]|] eqn:Ed; cbn;
        rewrite !alerts_app; cbn; rewrite ?app_nil_r;
        (split; [reflexivity|]); eexists (Chat.Build_Message _ _ _ _ _ _);
        (split; [reflexivity|]); (split; [reflexivity|]);
        (split; [reflexivity|]).
      * reflexivity.
      * eexists (Chat.Build_Message _ _ _ _ _ _). rewrite <- app_assoc.
        split; [reflexivity|]. split; reflexivity.
      * reflexivity.
    + cbn. rewrite !alerts_app. cbn. now rewrite !app_nil_r.
  - unfold Chat.uploadDocument.
    destruct (file_text file) as [fileContent|].
    2:{ cbn. rewrite !alerts_app. cbn. now rewrite !app_nil_r. }
    unfold Chat.uploadText. cbv zeta.
    do 4 (rewrite run_mbind; cbn [call run fst snd]). cbn [app].
    match goal with |- context [w Reply ?hh ?c] =>
      destruct (w Reply hh c) as [|[data|]] end.
    + cbn. rewrite !alerts_app. cbn. rewrite !app_nil_r.
      split; [reflexivity|]. eexists (Chat.Build_Message _ _ _ _ _ _). auto.
    + cbn. rewrite !alerts_app. cbn. rewrite ?app_nil_r.
      split; [reflexivity|]. eexists (Chat.Build_Message _ _ _ _ _ _).
      split; [reflexivity|]. split; [reflexivity|].
      eexists (Chat.Build_Message _ _ _ _ _ _). rewrite <- app_assoc. auto.
    + cbn. rewrite !alerts_app. cbn. rewrite !app_nil_r.
      split; [reflexivity|]. eexists (Chat.Build_Message _ _ _ _ _ _). auto.
Qed.

Lemma upload_outcome_witness :
  Controls.alerts (fst (run Samples.storiesDown []
     (Chat.handleFileUpload (Some (lit "PO"))
        {| file_name := lit "a.png"; file_type := lit "image/png";
           file_text := None |} Samples.chatState)))
  = [lit "Failed to upload file. Please try again."].
Proof.
  exact (proj1 (@upload_outcome Samples.storiesDown [] (lit "PO")
    {| file_name := lit "a.png"; file_type := lit "image/png";
       file_text := None |} Samples.chatState eq_refl)).
Defined.

(** ** The image dropzone *)

Lemma run_uploadAll w pk files : forall h st,
  let out := run w h (Images.uploadAll pk files st) in
  let upload file := (lit "/upload_image", FormData file pk) in
  Images.isLoading (snd out) = Images.isLoading st /\
  exists uploaded datas rest,
    files = uploaded ++ rest /\
    Forall2 (fun file data =>
        In (Ev (ApiPost (lit "/upload_image") (FormData file pk))
              (Resolved data)) (fst out))
      uploaded datas /\
    Images.uploadedImages (snd out) = Images.uploadedImages st ++ datas /\
    (forall e, In e h -> In e (fst out)) /\
    match rest with
    | [] =>
        requests (fst out) = requests h ++ List.map upload files /\
        Controls.alerts (fst out) = Controls.alerts h
    | failed :: _ =>
        requests (fst out)
          = requests h ++ List.map upload (uploaded ++ [failed]) /\
        Controls.alerts (fst out)
          = Controls.alerts h
            ++ [lit "Failed to upload image. Please try again."]
    end.
Proof.
  induction files as [|file files IH]; intros h st; cbv zeta.
  - split; [reflexivity|]. exists [], [], []. cbn.
    rewrite !app_nil_r. repeat split; auto.
  - cbn [Images.uploadAll]. rewrite run_mbind. cbn [call run fst snd].
    destruct (w Reply h _) as [|data] eqn:Er.
    + split; [reflexivity|]. exists [], [], (file :: files). cbn.
      rewrite !requests_app, !alerts_app. cbn. rewrite !app_nil_r.
      repeat split; auto. intros e He. rewrite !in_app_iff. auto.
    + specialize (IH (h ++ [Ev (ApiPost (lit "/upload_image")
                                  (FormData file pk)) (Resolved data)])
                     {| Images.isLoading := Images.isLoading st;
                        Images.uploadedImages :=
                          Images.uploadedImages st ++ [data] |}).
      cbv zeta in IH.
      destruct IH as (Hl & uploaded & datas & rest & Hf & HF & Hu & Hh & Hr).
      split; [exact Hl|].
      exists (file :: uploaded), (data :: datas), rest.
      split; [cbn; now rewrite Hf|]. split.
      { constructor; [|exact HF]. apply Hh, in_app_iff. right. now left. }
      split; [rewrite Hu; cbn; now rewrite <- app_assoc|]. split.
      { intros e He. apply Hh, in_app_iff. now left. }
      destruct rest as [|failed rest]; destruct Hr as [Hq Ha];
        rewrite Hq, Ha, requests_app, alerts_app; cbn;
        rewrite ?app_nil_r, <- ?app_assoc; split; reflexivity.
Qed.



(** ** The table of stories *)

Lemma map_id_replace (f : Stories.Story -> Stories.Story) sid l :
  (forall s, Stories.id s = sid -> Stories.id (f s) = sid) ->
  List.map Stories.id
    (List.map (fun s => if JS.eqb (Stories.id s) sid then f s else s) l)
  = List.map Stories.id l.
Proof.
  intros Hf. induction l as [|s l IH]; [reflexivity|]. cbn [List.map].
  rewrite IH. f_equal.
  destruct (JS.eqb (Stories.id s) sid) eqn:E; [|reflexivity].
  apply eqb_eq in E. rewrite (Hf s E). now symmetry.
Qed.

Lemma run_handleSaveEdit (w : World) h selectedProject editedStory st :
  let put := ApiPut (Stories.updateUrl selectedProject editedStory)
               (UpdatesBody (Stories.title editedStory)
                  (Stories.description editedStory)) in
  let out := run w h (Stories.handleSaveEdit selectedProject editedStory st) in
  requests (fst out)
    = requests h ++
      [(Stories.updateUrl selectedProject editedStory,
        UpdatesBody (Stories.title editedStory)
          (Stories.description editedStory))] /\
  snd out
    = match w _ h put with
      | Resolved _ =>
          {| Stories.stories :=
               List.map (fun story =>
                  if JS.eqb (Stories.id story) (Stories.id editedStory)
                  then editedStory else story) (Stories.stories st);
             Stories.editingStory := None;
             Stories.isPublishing := Stories.isPublishing st;
             Stories.message :=
               Some (Stories.success, lit "Story updated successfully") |}
      | Rejected =>
          {| Stories.stories := Stories.stories st;
             Stories.editingStory := None;
             Stories.isPublishing := Stories.isPublishing st;
             Stories.message :=
               Some (Stories.error,
                     lit "Failed to update story. Please try again.") |}
      end.
Proof.
  cbv zeta. unfold Stories.handleSaveEdit.
  rewrite run_mbind. cbn [call run fst snd]. rewrite run_mbind.
  destruct (w Reply h _) as [|data]; cbn; rewrite !requests_app; cbn;
    rewrite ?app_nil_r; split; reflexivity.
Qed.

Lemma run_handleSave_open (w : World) h selectedProject t d story st :
  Stories.editingStory st = Some story ->
  let edited :=
    {| Stories.id := Stories.id story; Stories.title := t;
       Stories.description := d;
       Stories.published := Stories.published story;
       Stories.jira_key := Stories.jira_key story |} in
  run w h (Stories.handleSave selectedProject t d st)
  = run w h (Stories.handleSaveEdit selectedProject edited st).
Proof.
  intros He. cbv zeta. unfold Stories.handleSave. rewrite He.
  rewrite run_mbind. cbn [run mret Prog_ret fst snd].
  destruct (run_handleSaveEdit w h selectedProject
    {| Stories.id := Stories.id story; Stories.title := t;
       Stories.description := d;
       Stories.published := Stories.published story;
       Stories.jira_key := Stories.jira_key story |} st) as [_ Hs].
  cbv zeta in Hs.
  rewrite (surjective_pairing (run w h (Stories.handleSaveEdit _ _ st))).
  cbn [fst snd]. f_equal. rewrite Hs.
  now destruct (w Reply h _).
Qed.

Lemma existsb_id (sid : jsstring) (l : list Stories.Story) :
  existsb (fun s => JS.eqb (Stories.id s) sid) l = true <->
  exists s, In s l /\ Stories.id s = sid.
Proof.
  rewrite existsb_exists.
  split; intros (s & Hin & H); exists s; (split; [exact Hin|]);
    now apply eqb_eq.
Qed.

(** X11.  No handler of the table adds, removes or reorders rows: after
    a publish, a save of the dialog or a click on a button, the table,
    as long as it is rendered, has the same ids in the same order.  It
    stops being rendered in one case only: a publish request resolved
    with [null] for a body while the table has a row with the id of the
    call. *)
Theorem table_keeps_its_rows (w : World) h selectedProject story st :
  let same (st' : Stories.State) :=
    List.map Stories.id (Stories.stories st')
    = List.map Stories.id (Stories.stories st) in
  let published :=
    snd (run w h (Stories.handlePublish selectedProject story st)) in
  (forall st', published = Some st' -> same st') /\
  (published = None <->
   falsyOpt selectedProject = false /\
   w _ h (ApiPost (Stories.publishUrl selectedProject story) NoBody)
     = Resolved None /\
   exists s, In s (Stories.stories st) /\ Stories.id s = Stories.id story) /\
  same (snd (run w h (Stories.handleSaveEdit selectedProject story st))) /\
  (forall t d,
     same (snd (run w h (Stories.handleSave selectedProject t d st)))) /\
  (forall st',
     snd (run w h (Stories.clickPublish selectedProject story st)) = Some st'
     -> same st') /\
  same (Stories.clickEdit selectedProject story st).
Proof.
  cbv zeta.
  assert (forall st',
            snd (run w h (Stories.handlePublish selectedProject story st))
            = Some st' ->
            List.map Stories.id (Stories.stories st')
            = List.map Stories.id (Stories.stories st)) as Hpub.
  { intros st'. unfold Stories.handlePublish.
    destruct (falsyOpt selectedProject); [now intros [= <-]|].
    cbv zeta. rewrite run_mbind. cbn [call run fst snd]. rewrite run_mbind.
    destruct (w Reply h _) as [|[data|]].
    - now intros [= <-].
    - cbn. intros [= <-]. cbn.
      apply (@map_id_replace (Stories.markPublished data)). now intros.
    - rewrite run_mbind. cbn [call run fst snd].
      destruct (existsb _ _); [discriminate|]. now intros [= <-]. }
  assert (forall e,
            List.map Stories.id
              (Stories.stories
                 (snd (run w h
                         (Stories.handleSaveEdit selectedProject e st))))
            = List.map Stories.id (Stories.stories st)) as Hsave.
  { intros e. destruct (run_handleSaveEdit w h selectedProject e st)
      as [_ Hs]. cbv zeta in Hs. rewrite Hs.
    destruct (w Reply h _); [reflexivity|]. cbn.
    apply (@map_id_replace (fun _ => e)). now intros. }
  split; [exact Hpub|]. split; [|split; [apply Hsave|split; [|split]]].
  - unfold Stories.handlePublish.
    destruct (falsyOpt selectedProject).
    { cbn. split; [discriminate|]. now intros [? _]. }
    cbv zeta. rewrite run_mbind. cbn [call run fst snd]. rewrite run_mbind.
    destruct (w Reply h _) as [|[data|]].
    + cbn. split; [discriminate|]. intros (_ & H & _). discriminate H.
    + cbn. split; [discriminate|]. intros (_ & H & _). discriminate H.
    + rewrite run_mbind. cbn [call run fst snd].
      cbn [Stories.stories Stories.setMessage Stories.setIsPublishing].
      pose proof (existsb_id (Stories.id story) (Stories.stories st)) as He.
      destruct (existsb _ (Stories.stories st)); cbn.
      * split; [intros _|reflexivity]. split; [reflexivity|].
        split; [reflexivity|]. now apply He.
      * split; [discriminate|]. intros (_ & _ & H). apply He in H.
        discriminate H.
  - intros t d. destruct (Stories.editingStory st) as [e|] eqn:Ee.
    + rewrite (run_handleSave_open w h selectedProject t d Ee). apply Hsave.
    + unfold Stories.handleSave. now rewrite Ee.
  - intros st'. unfold Stories.clickPublish.
    destruct (falsyOpt selectedProject || Stories.publishDisabled st story);
      [now intros [= <-]|apply Hpub].
  - unfold Stories.clickEdit.
    now destruct (falsyOpt selectedProject || Stories.editDisabled story).
Qed.

(** X12.  Editing a draft.  A click on the edit button of a draft row
    opens the dialog on that row; saving the dialog then sends one
    update request for the id of the row with the two texts of the
    dialog and closes the dialog.  When the request succeeds, every row
    with that id shows the two texts, still as a draft with the key it
    had, and the other rows are as they were; when it fails, the table
    is as it was. *)
Theorem edit_round_trip (w : World) h pk s t d st :
  falsy pk = false -> Stories.published s = false ->
  let st1 := Stories.clickEdit (Some pk) s st in
  let out := run w h (Stories.handleSave (Some pk) t d st1) in
  Stories.editingStory st1 = Some s /\
  requests (fst out)
    = requests h ++ [(Stories.updateUrl (Some pk) s, UpdatesBody t d)] /\
  Stories.editingStory (snd out) = None /\
  match w _ h (ApiPut (Stories.updateUrl (Some pk) s) (UpdatesBody t d)) with
  | Resolved _ =>
      Forall2 (fun r r' =>
          (Stories.id r = Stories.id s ->
             r' = {| Stories.id := Stories.id s; Stories.title := t;
                     Stories.description := d; Stories.published := false;
                     Stories.jira_key := Stories.jira_key s |}) /\
          (Stories.id r <> Stories.id s -> r' = r))
        (Stories.stories st) (Stories.stories (snd out)) /\
      Stories.message (snd out)
        = Some (Stories.success, lit "Story updated successfully")
  | Rejected =>
      Stories.stories (snd out) = Stories.stories st /\
      Stories.message (snd out)
        = Some (Stories.error,
                lit "Failed to update story. Please try again.")
  end.
Proof.
  intros Hpk Hp st1 out. subst out.
  assert (st1 = Stories.setEditingStory (Some s) st) as ->.
  { subst st1. unfold Stories.clickEdit, Stories.editDisabled.
    cbn [falsyOpt]. now rewrite Hpk, Hp. }
  split; [reflexivity|].
  rewrite (run_handleSave_open w h (Some pk) t d
             (st := Stories.setEditingStory (Some s) st) eq_refl).
  destruct (run_handleSaveEdit w h (Some pk)
    {| Stories.id := Stories.id s; Stories.title := t;
       Stories.description := d; Stories.published := Stories.published s;
       Stories.jira_key := Stories.jira_key s |}
    (Stories.setEditingStory (Some s) st)) as [Hr Hs].
  cbv zeta in Hr, Hs. rewrite Hr, Hs. clear Hr Hs.
  unfold Stories.updateUrl. cbn [Stories.id Stories.title Stories.description].
  split; [reflexivity|].
  destruct (w Reply h _) as [|data]; cbn.
  - auto.
  - split; [reflexivity|]. split; [|reflexivity]. rewrite Hp.
    induction (Stories.stories st) as [|r l IH]; cbn [List.map];
      constructor; [|exact IH].
    destruct (JS.eqb (Stories.id r) (Stories.id s)) eqn:E.
    + apply eqb_eq in E. split; [auto|]. intros Hne. now destruct Hne.
    + apply eqb_neq in E. split; [|reflexivity]. intros He. now destruct E.
Qed.

Lemma edit_round_trip_witness :
  requests (fst (run Samples.storiesDown []
     (Stories.handleSave (Some (lit "PO")) (lit "Sign in") (lit "As a user")
        (Stories.clickEdit (Some (lit "PO")) Samples.draftRow
           Samples.table))))
  = [(lit "/stories/PO/17", UpdatesBody (lit "Sign in") (lit "As a user"))].
Proof.
  exact (proj1 (proj2 (@edit_round_trip Samples.storiesDown [] (lit "PO")
    Samples.draftRow (lit "Sign in") (lit "As a user") Samples.table
    eq_refl eq_refl))).
Defined.

(** X13.  The publish button after a publish.  When [handlePublish]
    has ended with a reply that has a body, or with a rejected request,
    no row is shown as being published any more, so the publish button
    of a row is disabled exactly when the row is published.  After a
    success every row with the id of the call is published: a click on
    its publish button sends nothing, and a click on its edit button
    leaves the dialog closed.  After a rejected request the rows are as
    they were, so the button of a draft can be clicked again.  After a
    reply with [null] for a body the table, if it has a row with the id
    of the call, is not rendered any more. *)
Theorem publish_button_after_publish (w : World) h pk story st :
  falsy pk = false ->
  let out := run w h (Stories.handlePublish (Some pk) story st) in
  match w _ h (ApiPost (Stories.publishUrl (Some pk) story) NoBody) with
  | Resolved (Some _) =>
      exists st',
        snd out = Some st' /\
        (forall s, Stories.publishDisabled st' s = Stories.published s) /\
        forall s, In s (Stories.stories st') ->
          Stories.id s = Stories.id story ->
          Stories.published s = true /\
          (forall (w' : World) h',
             run w' h' (Stories.clickPublish (Some pk) s st')
             = (h', Some st')) /\
          Stories.clickEdit (Some pk) s st' = st'
  | Rejected =>
      exists st',
        snd out = Some st' /\
        (forall s, Stories.publishDisabled st' s = Stories.published s) /\
        Stories.stories st' = Stories.stories st /\
        forall s, Stories.published s = false ->
          Stories.clickPublish (Some pk) s st'
          = Stories.handlePublish (Some pk) s st'
  | Resolved None =>
      (exists s, In s (Stories.stories st) /\
                 Stories.id s = Stories.id story) ->
      snd out = None
  end.
Proof.
  intros Hpk out. subst out.
  destruct (run_handlePublish w h story st Hpk) as [-> _].
  assert (forall st', Stories.isPublishing st' = None ->
            forall s, Stories.publishDisabled st' s = Stories.published s)
    as Hidle.
  { intros st' Hn s. unfold Stories.publishDisabled.
    now rewrite Hn, orb_false_r. }
  destruct (w Reply h _) as [|[data|]].
  - eexists. split; [reflexivity|]. split; [now apply Hidle|].
    split; [reflexivity|]. intros s Hp.
    unfold Stories.clickPublish. cbn [falsyOpt]. rewrite Hpk.
    rewrite Hidle by reflexivity. now rewrite Hp.
  - eexists. split; [reflexivity|]. split; [now apply Hidle|].
    intros s Hin Hid. cbn in Hin.
    assert (Stories.published s = true) as Hp.
    { apply in_map_iff in Hin as (r & Hr & _). subst s.
      destruct (JS.eqb (Stories.id r) (Stories.id story)) eqn:E;
        [reflexivity|].
      apply eqb_neq in E. now destruct E. }
    split; [exact Hp|]. split.
    + intros w' h'. apply clickPublish_disabled.
      rewrite Hidle by reflexivity. exact Hp.
    + unfold Stories.clickEdit, Stories.editDisabled.
      now rewrite Hp, orb_true_r.
  - intros H. apply existsb_id in H. now rewrite H.
Qed.

Lemma publish_button_after_publish_witness :
  exists st',
    snd (run Samples.storiesDown []
           (Stories.handlePublish (Some (lit "PO")) Samples.draftRow
              Samples.table)) = Some st' /\
    Stories.publishDisabled st' Samples.draftRow = false.
Proof.
  destruct (@publish_button_after_publish Samples.storiesDown []
    (lit "PO") Samples.draftRow Samples.table eq_refl)
    as (st' & H1 & H2 & _).
  exists st'. split; [exact H1|]. exact (H2 Samples.draftRow).
Defined.

(** X14.  A dialog that was opened on a draft keeps its copy of the row
    when the row is published in the meantime.  Saving that dialog then
    sends an update request for the published story, and when the
    request succeeds, the rows with that id are replaced by the copy:
    the table shows the story as a draft again, with the key the copy
    had. *)
Theorem save_of_stale_copy_unpublishes (w : World) h pk s t d st data :
  falsy pk = false -> Stories.published s = false ->
  In s (Stories.stories st) ->
  let st1 := Stories.clickEdit (Some pk) s st in
  let o2 := run w h (Stories.handlePublish (Some pk) s st1) in
  w _ h (ApiPost (Stories.publishUrl (Some pk) s) NoBody)
    = Resolved (Some data) ->
  exists st2,
    snd o2 = Some st2 /\
    let o3 := run w (fst o2) (Stories.handleSave (Some pk) t d st2) in
    In (Stories.markPublished data s) (Stories.stories st2) /\
    Stories.editingStory st2 = Some s /\
    requests (fst o3)
      = requests h ++
        [(Stories.publishUrl (Some pk) s, NoBody);
         (Stories.updateUrl (Some pk) s, UpdatesBody t d)] /\
    match w _ (fst o2)
            (ApiPut (Stories.updateUrl (Some pk) s) (UpdatesBody t d)) with
    | Resolved _ =>
        (forall r, In r (Stories.stories (snd o3)) ->
           Stories.id r = Stories.id s ->
           Stories.published r = false /\
           Stories.jira_key r = Stories.jira_key s) /\
        In {| Stories.id := Stories.id s; Stories.title := t;
              Stories.description := d; Stories.published := false;
              Stories.jira_key := Stories.jira_key s |}
          (Stories.stories (snd o3))
    | Rejected => Stories.stories (snd o3) = Stories.stories st2
    end.
Proof.
  intros Hpk Hp Hin st1 o2 Hreply.
  assert (st1 = Stories.setEditingStory (Some s) st) as Est.
  { subst st1. unfold Stories.clickEdit, Stories.editDisabled.
    cbn [falsyOpt]. now rewrite Hpk, Hp. }
  destruct (run_handlePublish w h s st1 Hpk) as [E2 R2].
  fold o2 in E2, R2. rewrite Hreply, Est in E2. cbn in E2.
  eexists. split; [exact E2|]. cbv zeta.
  assert (forall e : Stories.Story, JS.eqb (Stories.id e) (Stories.id e) = true)
    as Hrefl.
  { intros e. destruct (JS.eqb (Stories.id e) (Stories.id e)) eqn:E;
      [reflexivity|]. apply eqb_neq in E. now destruct E. }
  split.
  { cbn. apply in_map_iff. exists s. now rewrite Hrefl. }
  split; [reflexivity|].
  match goal with |- context [Stories.handleSave _ _ _ ?st2] =>
    set (st2' := st2) end.
  rewrite (run_handleSave_open w (fst o2) (Some pk) t d (st := st2')
             (story := s)) by reflexivity.
  destruct (run_handleSaveEdit w (fst o2) (Some pk)
    {| Stories.id := Stories.id s; Stories.title := t;
       Stories.description := d; Stories.published := Stories.published s;
       Stories.jira_key := Stories.jira_key s |} st2') as [Hr Hs].
  cbv zeta in Hr, Hs. rewrite Hr, Hs, R2. clear Hr Hs.
  unfold Stories.updateUrl. cbn [Stories.id Stories.title Stories.description].
  split; [now rewrite <- app_assoc|].
  destruct (w Reply (fst o2) _) as [|data']; [reflexivity|].
  cbn [Stories.stories]. rewrite Hp. split.
  - intros r Hr Hid. apply in_map_iff in Hr as (r0 & Hr0 & _). subst r.
    destruct (JS.eqb (Stories.id r0) (Stories.id s)) eqn:E; [auto|].
    apply eqb_neq in E. now destruct E.
  - apply in_map_iff. exists (Stories.markPublished data s).
    cbn [Stories.markPublished Stories.id]. rewrite Hrefl.
    split; [reflexivity|]. subst st2'. cbn. apply in_map_iff.
    exists s. now rewrite Hrefl.
Qed.

Lemma save_of_stale_copy_unpublishes_witness :
  exists st2,
    snd (run (Samples.world 1000 "0.5" (Resolved (Some Samples.published8)))
           []
           (Stories.handlePublish (Some (lit "PO")) Samples.draftRow
              (Stories.clickEdit (Some (lit "PO")) Samples.draftRow
                 Samples.table))) = Some st2 /\
    In {| Stories.id := lit "17"; Stories.title := lit "Sign in";
          Stories.description := lit "As a user";
          Stories.published := false; Stories.jira_key := None |}
      (Stories.stories
         (snd (run (Samples.world 1000 "0.5"
                      (Resolved (Some Samples.published8)))
                 (fst (run (Samples.world 1000 "0.5"
                              (Resolved (Some Samples.published8))) []
                         (Stories.handlePublish (Some (lit "PO"))
                            Samples.draftRow
                            (Stories.clickEdit (Some (lit "PO"))
                               Samples.draftRow Samples.table))))
                 (Stories.handleSave (Some (lit "PO")) (lit "Sign in")
                    (lit "As a user") st2)))).
Proof.
  destruct (@save_of_stale_copy_unpublishes
       (Samples.world 1000 "0.5" (Resolved (Some Samples.published8))) []
       (lit "PO") Samples.draftRow (lit "Sign in") (lit "As a user")
       Samples.table Samples.published8 eq_refl eq_refl
       (or_introl eq_refl) eq_refl) as (st2 & H2 & _ & _ & _ & H).
  exists st2. split; [exact H2|]. exact (proj2 H).
Defined.

(** ** The project context *)

Lemma net_run_bind (A B : Type) (w : Net.World) (p : Net.Prog A)
    (f : A -> Net.Prog B) h :
  Net.run w h (Net.bind p f)
  = Net.run w (fst (Net.run w h p)) (f (snd (Net.run w h p))).
Proof.
  revert h. induction p as [a|X c k IH]; intros h; [reflexivity|].
  cbn. apply IH.
Qed.

Lemma net_run_mbind (A B : Type) (w : Net.World) (p : Net.Prog A)
    (f : A -> Net.Prog B) h :
  Net.run w h (p ≫= f)
  = Net.run w (fst (Net.run w h p)) (f (snd (Net.run w h p))).
Proof. apply net_run_bind. Qed.

Lemma net_requests_app h h' :
  Net.requests (h ++ h') = Net.requests h ++ Net.requests h'.
Proof. apply omap_app. Qed.

(** A call through [api]: the reply is the world's, and the request is
    the only one. *)
Lemma run_api_get (w : Net.World) h url :
  snd (Net.run w h (Api.get url)) = w _ h (Net.Get url) /\
  Net.requests (fst (Net.run w h (Api.get url)))
    = Net.requests h ++ [(url, None)].
Proof.
  unfold Api.get. rewrite net_run_mbind. cbn [Net.call Net.run fst snd].
  destruct (w Net.Reply h _) as [|data]; cbn; rewrite !net_requests_app;
    cbn; rewrite ?app_nil_r; split; reflexivity.
Qed.

Lemma run_api_post (w : Net.World) h url body :
  snd (Net.run w h (Api.post url body)) = w _ h (Net.Post url body) /\
  Net.requests (fst (Net.run w h (Api.post url body)))
    = Net.requests h ++ [(url, Some body)].
Proof.
  unfold Api.post. rewrite net_run_mbind. cbn [Net.call Net.run fst snd].
  destruct (w Net.Reply h _) as [|data]; cbn; rewrite !net_requests_app;
    cbn; rewrite ?app_nil_r; split; reflexivity.
Qed.

(** X16.  The check of the connection, whatever the back end replies.
    It ends with the loading flag off and leaves the selection alone.
    It asks for [/health] first and for [/jira/projects] only when the
    health data says that Jira is ["connected"]; no other request is
    sent.  It ends without an error exactly when Jira is connected and
    the projects came as an array; then the projects are that array and
    Jira counts as connected.  In every other case the list of projects
    is empty; and when Jira does not count as connected at the end, the
    error is the connection error. *)
Theorem connection_check_outcome (w : Net.World) h st :
  let out := Net.run w h (ProjectContext.checkConnection st) in
  let connected :=
    ProjectContext.saysConnected (ProjectContext.replyToHealth w h) in
  ProjectContext.loading (snd out) = false /\
  ProjectContext.selectedProject (snd out)
    = ProjectContext.selectedProject st /\
  Net.requests (fst out)
    = Net.requests h ++
      (lit "/health", None) ::
      (if connected then [(lit "/jira/projects", None)] else []) /\
  (ProjectContext.error (snd out) = None <->
   connected = true /\
   exists items,
     ProjectContext.replyToProjects w h = Net.Resolved (Net.JArray items)) /\
  (ProjectContext.error (snd out) = None ->
   ProjectContext.replyToProjects w h
     = Net.Resolved (Net.JArray (ProjectContext.projects (snd out))) /\
   ProjectContext.isJiraConnected (snd out) = true) /\
  (ProjectContext.error (snd out) <> None ->
   ProjectContext.projects (snd out) = []) /\
  (ProjectContext.isJiraConnected (snd out) = false ->
   ProjectContext.error (snd out) = Some ProjectContext.notConnected).
Proof.
  cbv zeta.
  unfold ProjectContext.checkConnection, Api.checkJiraConnection, Api.get,
    ProjectContext.replyToProjects, ProjectContext.replyToHealth,
    ProjectContext.saysConnected.
  cbv zeta. rewrite !net_run_mbind. cbn [Net.call Net.run fst snd].
  destruct (w Net.Reply h (Net.Get (lit "/health"))) as [|healthData].
  - cbn. rewrite !net_requests_app. cbn. rewrite ?app_nil_r.
    repeat split; auto; try discriminate. now intros [? _].
  - cbn [Api.intercepted Net.run mret NetProg_ret fst snd].
    destruct (Net.member (lit "services") healthData
              ≫= Net.member (lit "jira")) as [jira|].
    2:{ cbn. rewrite !net_requests_app. cbn. rewrite ?app_nil_r.
        repeat split; auto; try discriminate. now intros [? _]. }
    destruct (Net.isString (lit "connected") jira); cbn [negb].
    2:{ cbn. rewrite !net_requests_app. cbn. rewrite ?app_nil_r.
        repeat split; auto; try discriminate. now intros [? _]. }
    rewrite !net_run_mbind. cbn [Net.call Net.run fst snd].
    destruct (w Net.Reply _ (Net.Get (lit "/jira/projects")))
      as [|projectData].
    + cbn. rewrite !net_requests_app. cbn. rewrite ?app_nil_r, <- ?app_assoc.
      repeat split; auto; try discriminate. now intros [_ [? ?]].
    + destruct projectData as [| | | | |items|];
        cbn; rewrite !net_requests_app; cbn;
        rewrite ?app_nil_r, <- ?app_assoc;
        repeat split; auto; try discriminate;
        try (now intros [_ [? ?]]).
      * now exists items.
      * intros H. now destruct H.
Qed.

(** ** The context management *)

Lemma falsyOpt_true (x : option jsstring) :
  falsyOpt x = true <-> x = None \/ x = Some [].
Proof.
  destruct x as [[|c s]|]; cbn; split; auto; try discriminate.
  intros [H|H]; discriminate H.
Qed.

Lemma requests_longer (A : Type) (l : list A) (x : A) : l <> l ++ [x].
Proof.
  intros E. apply (f_equal (@length _)) in E. rewrite length_app in E.
  cbn in E. lia.
Qed.

(** X17.  The two sync handlers send at most one request.  The Jira sync
    sends it exactly when a project is selected, with the selection as
    [project_key].  The Confluence sync sends it exactly when a project
    is selected and the space key holds more than white space; the body
    carries the space key as it was typed, the search query trimmed, or
    no search query when it holds white space only, and no project.
    Both end with a message shown, and after a request with their
    syncing flag off. *)
Theorem sync_requests (w : Net.World) h selectedProject st :
  let jira := Net.run w h
                (ContextManagement.handleJiraSync selectedProject st) in
  let confluence :=
    Net.run w h (ContextManagement.handleConfluenceSync selectedProject st) in
  let body :=
    Net.JObject
      [(lit "space_key",
        Net.JString (ContextManagement.confluenceSpace st));
       (lit "search_query",
        if falsy (trim (ContextManagement.confluenceQuery st))
        then Net.JUndefined
        else Net.JString (trim (ContextManagement.confluenceQuery st)));
       (lit "max_results", Net.JNumber (lit "50"))] in
  (if falsyOpt selectedProject
   then Net.requests (fst jira) = Net.requests h
   else
     Net.requests (fst jira)
     = Net.requests h ++
       [(lit "/sync_jira",
         Some (Net.JObject
                 [(lit "project_key",
                   Net.JString (default [] selectedProject));
                  (lit "max_results", Net.JNumber (lit "50"))]))] /\
     ContextManagement.isJiraSyncing (snd jira) = false) /\
  (Net.requests (fst confluence) = Net.requests h <->
   selectedProject = None \/ selectedProject = Some [] \/
   blank (ContextManagement.confluenceSpace st)) /\
  (Net.requests (fst confluence) <> Net.requests h ->
   Net.requests (fst confluence)
   = Net.requests h ++ [(lit "/sync_confluence", Some body)] /\
   ContextManagement.isConfluenceSyncing (snd confluence) = false) /\
  (falsy (trim (ContextManagement.confluenceQuery st)) = true <->
   blank (ContextManagement.confluenceQuery st)) /\
  is_Some (ContextManagement.message (snd jira)) /\
  is_Some (ContextManagement.message (snd confluence)).
Proof.
  cbv zeta.
  assert (forall failure r st0,
            is_Some (ContextManagement.message
                       (ContextManagement.synced failure r st0))) as Hmsg.
  { intros failure [|data] st0; cbn; [eauto|].
    destruct (Net.member (lit "message") data); cbn; eauto. }
  unfold ContextManagement.handleJiraSync,
    ContextManagement.handleConfluenceSync.
  split; [|split; [|split; [|split; [apply trim_blank|split]]]].
  - destruct (falsyOpt selectedProject); [reflexivity|]. cbv zeta.
    rewrite net_run_mbind. cbn [Net.run mret NetProg_ret fst snd].
    destruct (run_api_post w h (lit "/sync_jira")
      (Net.JObject [(lit "project_key",
                     Net.JString (default [] selectedProject));
                    (lit "max_results", Net.JNumber (lit "50"))]))
      as [_ ->]. auto.
  - pose proof (falsyOpt_true selectedProject) as Hf.
    pose proof (trim_blank (ContextManagement.confluenceSpace st)) as Hb.
    destruct (falsyOpt selectedProject).
    { cbn. split; [intros _|reflexivity].
      destruct Hf as [Hf _]. destruct (Hf eq_refl); auto. }
    destruct (falsy (trim (ContextManagement.confluenceSpace st))).
    { cbn. split; [intros _|reflexivity]. right. right. now apply Hb. }
    cbv zeta. rewrite net_run_mbind. cbn [Net.run mret NetProg_ret fst snd].
    destruct (run_api_post w h (lit "/sync_confluence")
      (Net.JObject
         [(lit "space_key",
           Net.JString (ContextManagement.confluenceSpace st));
          (lit "search_query",
           ContextManagement.searchQuery
             (ContextManagement.confluenceQuery st));
          (lit "max_results", Net.JNumber (lit "50"))])) as [_ ->].
    split.
    + intros E. symmetry in E. now apply requests_longer in E.
    + intros [H|[H|H]].
      * assert (false = true) as F by (apply Hf; now left). discriminate F.
      * assert (false = true) as F by (apply Hf; now right). discriminate F.
      * apply Hb in H. discriminate H.
  - destruct (falsyOpt selectedProject); [now intros H|].
    destruct (falsy (trim (ContextManagement.confluenceSpace st)));
      [now intros H|].
    intros _. cbv zeta. rewrite net_run_mbind.
    cbn [Net.run mret NetProg_ret fst snd].
    destruct (run_api_post w h (lit "/sync_confluence")
      (Net.JObject
         [(lit "space_key",
           Net.JString (ContextManagement.confluenceSpace st));
          (lit "search_query",
           ContextManagement.searchQuery
             (ContextManagement.confluenceQuery st));
          (lit "max_results", Net.JNumber (lit "50"))])) as [_ ->].
    split; reflexivity.
  - destruct (falsyOpt selectedProject); [cbn; eauto|]. cbv zeta.
    rewrite net_run_mbind. cbn [Net.run mret NetProg_ret fst snd].
    apply Hmsg.
  - destruct (falsyOpt selectedProject); [cbn; eauto|].
    destruct (falsy (trim (ContextManagement.confluenceSpace st)));
      [cbn; eauto|].
    cbv zeta. rewrite net_run_mbind. cbn [Net.run mret NetProg_ret fst snd].
    apply Hmsg.
Qed.

(** ** Extraction from a text in the expected format *)

Lemma matchesFrom_same_exec r s s' :
  exec r s = exec r s' ->
  matchesFrom (S (length s)) r s = matchesFrom (S (length s')) r s'.
Proof. intros E. now rewrite !matchesFrom_unfold, E. Qed.

(** The marker is no proper suffix-prefix overlap of itself: a match
    cannot start inside a text and end in a marker that follows it. *)
Lemma marker_border b r r' :
  b <> [] ->
  b ++ lit "Story Title: " ++ r = lit "Story Title: " ++ r' ->
  occurs (lit "Story Title: ") b.
Proof.
  intros Hb E.
  destruct (Nat.le_gt_cases 13 (length b)) as [Hl|Hl].
  - exists [], (skipn 13 b). cbn [app].
    rewrite <- (firstn_skipn 13 b) at 1. f_equal.
    apply (f_equal (firstn 13)) in E.
    rewrite firstn_app in E.
    replace (13 - length b)%nat with 0%nat in E by lia.
    cbn [firstn] in E. rewrite app_nil_r in E. rewrite E.
    rewrite firstn_app.
    change (length (lit "Story Title: ")) with 13%nat.
    rewrite Nat.sub_diag. cbn [firstn]. rewrite app_nil_r.
    exact (eq_sym (firstn_all (lit "Story Title: "))).
  - exfalso. apply (f_equal (fun l => nth (length b) l 0%N)) in E.
    rewrite app_nth2 in E by lia. rewrite Nat.sub_diag in E.
    rewrite app_nth1 in E
      by (change (length (lit "Story Title: ")) with 13%nat; lia).
    destruct b as [|c0 b]; [now destruct Hb|]. cbn [length] in *.
    do 12 (destruct b as [|? b];
           [vm_compute in E; discriminate E|cbn [length] in * ]).
    lia.
Qed.

Lemma exec_preamble preamble s :
  ~ occurs (lit "Story Title: ") preamble ->
  s = [] \/ (exists r, s = lit "Story Title: " ++ r) ->
  exec Chat.storyRe (preamble ++ s) = exec Chat.storyRe s.
Proof.
  intros Hno Hs. apply exec_skip. intros a b -> Hb.
  destruct (matchAt Chat.storyRe (b ++ s)) as [x|] eqn:E; [|reflexivity].
  exfalso. apply Hno.
  apply matchAt_storyRe in E as (t & d & e & _ & _ & E & _).
  unfold pair in E. rewrite <- !app_assoc in E.
  assert (occurs (lit "Story Title: ") b) as (u & v & ->).
  { destruct Hs as [->|[r ->]].
    - rewrite app_nil_r in E. exists []. eexists. exact E.
    - exact (marker_border Hb E). }
  exists (a ++ u), v. now rewrite <- !app_assoc.
Qed.

Lemma document_head blocks :
  Documents.document blocks = [] \/
  exists r, Documents.document blocks = lit "Story Title: " ++ r.
Proof.
  destruct blocks as [|[[t d] n] rest]; [now left|right].
  cbn [Documents.document]. unfold pair.
  destruct rest; rewrite <- !app_assoc; eexists; reflexivity.
Qed.

Lemma matches_document blocks :
  Forall Documents.wellFormed blocks ->
  matchesFrom (S (length (Documents.document blocks))) Chat.storyRe
    (Documents.document blocks)
  = Documents.matchTexts blocks.
Proof.
  induction 1 as [|[[t d] n] more (Ht & Hd & _) _ IH];
    [reflexivity|].
  cbn [fst snd] in Ht, Hd.
  rewrite matchesFrom_unfold. cbn [Documents.document Documents.matchTexts].
  destruct more as [|b more].
  - destruct n as [|n]; cbn [repeat].
    + rewrite (exec_storyRe_pair Ht Hd end_of_input). cbn [matched rest].
      rewrite app_nil_r.
      destruct (pair t d) eqn:Ep.
      { apply (f_equal (fun l => l ++ [])) in Ep.
        now apply pair_not_nil in Ep. }
      reflexivity.
    + rewrite (exec_storyRe_pair Ht Hd (end_of_line _)). cbn [matched rest].
      destruct (pair t d ++ [LF]) eqn:Ep; [now apply pair_not_nil in Ep|].
      f_equal. rewrite matchesFrom_unfold.
      now rewrite exec_storyRe_blank_None.
  - rewrite (exec_storyRe_pair Ht Hd (end_of_line _)). cbn [matched rest].
    destruct (pair t d ++ [LF]) eqn:Ep; [now apply pair_not_nil in Ep|].
    f_equal. rewrite <- IH. apply matchesFrom_same_exec.
    apply exec_storyRe_blank.
Qed.

Lemma stories_of_document w h blocks :
  Forall Documents.wellFormed blocks ->
  List.map (fun c => (title c, description c, published c))
    (snd (run w h (mapM Chat.storyOf (Documents.matchTexts blocks))))
  = List.map (fun b => (fst (fst b), snd (fst b), false)) blocks.
Proof.
  intros Hwf. destruct (run_stories w h (Documents.matchTexts blocks))
    as [HF _].
  remember (snd (run w h (mapM Chat.storyOf (Documents.matchTexts blocks))))
    as l eqn:El. clear El. revert l HF.
  induction Hwf as [|[[t d] n] rest (Ht & Hd & Hn) _ IH]; intros l HF.
  - cbn in HF. now apply Forall2_nil_inv_l in HF as ->.
  - cbn [Documents.matchTexts] in HF. cbn [fst snd] in Ht, Hd, Hn.
    apply Forall2_cons_inv_l in HF as (c & l' & (Ha & Hb & Hc) & HF & ->).
    cbn [List.map fst snd]. rewrite (IH _ HF). f_equal.
    rewrite Ha, Hb, Hc, titleMatch_pair by assumption.
    rewrite descMatch_plain; [reflexivity|assumption..| |assumption].
    destruct rest, n; constructor.
Qed.

(** X15.  A text in the format the pattern is written for is extracted
    as it reads.  When the response is any text without the marker
    ["Story Title: "], followed by stories of two lines each, a title
    line and a description line, with any number of blank lines after
    each, and no title contains ["Description: "], then the candidates
    are exactly these stories, in their order, with the titles and
    descriptions as written, none of them published. *)
Theorem document_is_extracted w h preamble blocks :
  ~ occurs (lit "Story Title: ") preamble ->
  Forall Documents.wellFormed blocks ->
  List.map (fun c => (title c, description c, published c))
    (snd (run w h (Chat.extract (preamble ++ Documents.document blocks))))
  = List.map (fun b => (fst (fst b), snd (fst b), false)) blocks.
Proof.
  intros Hno Hwf.
  assert (matchesFrom
            (S (length (preamble ++ Documents.document blocks)))
            Chat.storyRe (preamble ++ Documents.document blocks)
          = Documents.matchTexts blocks) as Hm.
  { rewrite <- (matches_document Hwf). apply matchesFrom_same_exec.
    apply exec_preamble; [exact Hno|apply document_head]. }
  unfold Chat.extract, Chat.storyMatch, matchGlobal. rewrite Hm.
  destruct (Documents.matchTexts blocks) as [|mm l] eqn:El.
  - destruct blocks as [|[[t d] n] rest]; [reflexivity|discriminate El].
  - rewrite <- El. now apply stories_of_document.
Qed.

Lemma document_is_extracted_witness :
  List.map (fun c => (title c, description c, published c))
    (snd (run Samples.storiesDown []
       (Chat.extract
          (lit "Here are the stories:" ++ [LF] ++
           Documents.document
             [(lit "Login", lit "As a user", 1%nat);
              (lit "Export", lit "As an admin", 0%nat)]))))
  = [(lit "Login", lit "As a user", false);
     (lit "Export", lit "As an admin", false)].
Proof.
  assert (forall s, length s < 13 -> ~ occurs (lit "Description: ") s)%nat
    as Hshort.
  { intros s Hs (a & b & ->). rewrite !length_app in Hs.
    change (length (lit "Description: ")) with 13%nat in Hs. lia. }
  apply (@document_is_extracted Samples.storiesDown []
           (lit "Here are the stories:" ++ [LF])
           [(lit "Login", lit "As a user", 1%nat);
            (lit "Export", lit "As an admin", 0%nat)]).
  - intros (a & b & E). apply (f_equal (fun l => existsb (N.eqb 84) l)) in E.
    rewrite !existsb_app in E.
    replace (existsb (N.eqb 84) (lit "Story Title: ")) with true in E
      by reflexivity.
    cbn [orb] in E. rewrite orb_true_r in E. vm_compute in E.
    discriminate E.
  - repeat constructor; cbn [fst snd];
      try (apply Hshort; apply Nat.ltb_lt; reflexivity).
Defined.
